(** * A shallow embedding of the workflow engine (app/engine)

  The development follows the layout of the Python package:
  - [Models]   : app/engine/models.py   (State, ExecutionLogEntry, Graph)
  - [Store]    : app/engine/store.py    (GRAPHS, RUNS and their accessors)
  - [Registry] : app/engine/registry.py (NODE_REGISTRY, register_node, get_node)
  - [Objects]  : app/engine/executor.py and [evaluate_quality] once more, over
    values in which lists and mappings are objects with an identity
  - [Executor] : app/engine/executor.py (_summarise_state, run_graph), with
    the request handlers of app/api/graph_routes.py and the nodes and default
    graph of app/workflows/code_review.py, which run on the same world.

  Modelling decisions.
  - A state mapping is a Python [dict]: a mutable object with an identity.
    The heap maps locations to the contents of such objects, so that
    [dict(initial_state)], in-place mutation by nodes, [state.pop] and the
    references kept by the run store are what they are in the source.
  - In [Executor] the values bound in a state are immutable data (the JSON
    fragment of Python values). A list or a mapping nested in a state is an
    object too, and [dict(initial_state)] shares it between the caller's
    mapping and the working copy: module [Objects] embeds the executor a
    second time with such values as references, for what depends on that.
  - A node is a callable [State -> State]: it sees the contents of the
    mapping it is given, may mutate that mapping in place, and either
    raises, returns the very same object, or returns a newly built one.
  - Clock readings ([time.perf_counter], [datetime.utcnow]) and the
    rendering of a value by an f-string are parameters; so are the string
    built-ins the workflow nodes call (class [Builtins]). *)

From Stdlib Require Import ZArith QArith String List Lia.
From stdpp Require Import base option strings list gmap pretty.

Set Warnings "-register-all".
Local Open Scope string_scope.
Local Open Scope Z_scope.

(* ===================================================================== *)
(** ** app/engine/models.py *)
(* ===================================================================== *)
Module Models.

(** Python values that can be bound in a state. [VFloat] keeps of a float
    only what the engine observes of it, its truth value. *)
Inductive Value : Type :=
| VNone
| VBool (b : bool)
| VInt (z : Z)
| VFloat (nonzero : bool)
| VStr (s : string)
| VList (xs : list Value)
| VDict (kvs : list (string * Value)).

(** [State = Dict[str, Any]]: the contents of a state mapping. *)
Abbreviation State := (gmap string Value).

(** Identity of a mapping object. *)
Abbreviation loc := positive.
Abbreviation Heap := (gmap positive (gmap string Value)).

(** [bool(v)] *)
Definition truthy (v : Value) : bool :=
  match v with
  | VNone => false
  | VBool b => b
  | VInt z => negb (z =? 0)
  | VFloat nz => nz
  | VStr s => negb (String.eqb s "")
  | VList xs => match xs with [] => false | _ => true end
  | VDict kvs => match kvs with [] => false | _ => true end
  end.

(** [v is not None] *)
Definition is_not_None (v : Value) : bool :=
  match v with VNone => false | _ => true end.

(** What one call [node(state)] does: [arg_after] is the content of the
    argument object when the call ends. *)
Inductive NodeResult : Type :=
| NodeRaises (arg_after : State) (exn : string)
| NodeReturnsSame (arg_after : State)
| NodeReturnsNew (arg_after : State) (result : State).

(** [NodeCallable = Callable[[State], State]] *)
Definition NodeCallable : Type := State -> NodeResult.

(** [class ExecutionLogEntry(TypedDict)] *)
Record ExecutionLogEntry : Type := {
  step : Z;
  node_id : string;
  duration_ms : Q;
  summary : string;
}.

(** [@dataclass class Graph] *)
Record Graph : Type := {
  id : string;
  nodes : gmap string NodeCallable;
  edges : gmap string (option string);
  start_node_id : string;
  max_steps : Z;
}.

(** Exceptions that can leave the engine. *)
Inductive Exn : Type :=
| KeyError (arg : Value)
| TypeError
| AttributeError
| NodeFailure (exn : string).

End Models.

(* ===================================================================== *)
(** ** app/engine/store.py *)
(* ===================================================================== *)
Module Store.
Import Models.

(** The status strings the engine writes into a run record. *)
Inductive Status : Type := created | running | completed | max_steps_reached.

(** One value of [RUNS]. [state] is a reference to the mapping object that
    was handed to the store, not a copy of it. [log] is kept by value: the
    list object it aliases is only appended to immediately before the next
    [update_run], and nothing can leave the executor in between. *)
Record Run : Type := {
  id : string;
  graph_id : string;
  state : loc;
  log : list ExecutionLogEntry;
  status : Status;
  created_at : string;
  updated_at : string;
}.

(** [RUNS: Dict[str, Dict[str, Any]]] *)
Abbreviation Runs := (gmap string Run).

(** [f"run_{len(RUNS) + 1}"] *)
Definition fresh_run_id (RUNS : Runs) : string :=
  "run_" +:+ pretty (size RUNS + 1)%nat.

(** [create_run]; [now] is the reading of [datetime.utcnow().isoformat()]. *)
Definition create_run (now : string) (RUNS : Runs)
    (graph_id : string) (initial_state : loc) : string * Runs :=
  let run_id := fresh_run_id RUNS in
  (run_id,
   <[run_id := {| id := run_id;
                  graph_id := graph_id;
                  state := initial_state;
                  log := [];
                  status := created;
                  created_at := now;
                  updated_at := now |}]> RUNS).

(** [KeyError(f"Run '{run_id}' not found")] *)
Definition run_not_found (run_id : string) : Exn :=
  KeyError (VStr ("Run '" +:+ run_id +:+ "' not found")).

(** [update_run]; [inl] is the raised KeyError. *)
Definition update_run (now : string) (RUNS : Runs) (run_id : string)
    (state : loc) (log : list ExecutionLogEntry) (status : Status)
    : Exn + Runs :=
  match RUNS !! run_id with
  | None => inl (KeyError (VStr ("Run '" +:+ run_id +:+ "' not found")))
  | Some r =>
      inr (<[run_id := {| id := id r;
                          graph_id := graph_id r;
                          state := state;
                          log := log;
                          status := status;
                          created_at := created_at r;
                          updated_at := now |}]> RUNS)
  end.

(** [get_run] *)
Definition get_run (RUNS : Runs) (run_id : string) : Exn + Run :=
  match RUNS !! run_id with
  | None => inl (KeyError (VStr ("Run '" +:+ run_id +:+ "' not found")))
  | Some r => inr r
  end.

(** The life of the process-wide [RUNS]: it starts empty and is only ever
    changed by [create_run] and by a successful [update_run]. [issued] lists
    the identifiers handed out so far, latest first. *)
Inductive Reachable : Runs -> list string -> Prop :=
| reach_empty : Reachable ∅ []
| reach_create now RUNS issued graph_id initial_state :
    Reachable RUNS issued ->
    Reachable (create_run now RUNS graph_id initial_state).2
              ((create_run now RUNS graph_id initial_state).1 :: issued)
| reach_update now RUNS issued run_id state log status RUNS' :
    Reachable RUNS issued ->
    update_run now RUNS run_id state log status = inr RUNS' ->
    Reachable RUNS' issued.

(** [GRAPHS: Dict[str, Graph]] *)
Abbreviation Graphs := (gmap string Graph).

(** [save_graph]: [GRAPHS[graph.id] = graph] *)
Definition save_graph (GRAPHS : Graphs) (graph : Graph) : Graphs :=
  <[Models.id graph := graph]> GRAPHS.

(** [KeyError(f"Graph '{graph_id}' not found")] *)
Definition graph_not_found (graph_id : string) : Exn :=
  KeyError (VStr ("Graph '" +:+ graph_id +:+ "' not found")).

(** [get_graph] *)
Definition get_graph (GRAPHS : Graphs) (graph_id : string) : Exn + Graph :=
  match GRAPHS !! graph_id with
  | None => inl (graph_not_found graph_id)
  | Some graph => inr graph
  end.

End Store.

(* ===================================================================== *)
(** ** app/engine/registry.py *)
(* ===================================================================== *)
Module Registry.
Import Models.

(** [NODE_REGISTRY: Dict[str, NodeCallable]] *)
Abbreviation NodeRegistry := (gmap string NodeCallable).

(** [register_node]: [NODE_REGISTRY[node_id] = func] *)
Definition register_node (NODE_REGISTRY : NodeRegistry) (node_id : string)
    (func : NodeCallable) : NodeRegistry :=
  <[node_id := func]> NODE_REGISTRY.

(** [KeyError(f"Node '{node_id}' not registered")] *)
Definition node_not_registered (node_id : string) : Exn :=
  KeyError (VStr ("Node '" +:+ node_id +:+ "' not registered")).

(** [get_node] *)
Definition get_node (NODE_REGISTRY : NodeRegistry) (node_id : string)
    : Exn + NodeCallable :=
  match NODE_REGISTRY !! node_id with
  | None => inl (node_not_registered node_id)
  | Some func => inr func
  end.

End Registry.

(* ===================================================================== *)
(** ** Lists and mappings as objects *)
(* ===================================================================== *)
(** A second embedding of app/engine/executor.py and of the node
    [evaluate_quality] of app/workflows/code_review.py, in which a list or a
    mapping bound in a state is an object with an identity of its own, as in
    Python: a state binds a key to a reference, [dict(initial_state)] copies
    the references, and [list.append] changes the object they point to. It
    settles what the caller of [run_graph] can see of the mapping it passed.
    Values are the float-free fragment of the values of [Models]. *)
Module Objects.
Import Models.
Import Store.

(** What a variable or a key can be bound to. *)
Inductive PyValue : Type :=
| PNone
| PBool (b : bool)
| PInt (z : Z)
| PStr (s : string)
| PListRef (l : loc)
| PDictRef (d : loc).

(** The list objects and the mapping objects. A reference always points to
    an object: the total lookup [!!!] reads a location that the heap lacks as
    the empty list or mapping. *)
Record ObjHeap : Type := {
  dicts : gmap loc (gmap string PyValue);
  lists : gmap loc (list PyValue);
}.

Definition set_dict (d : loc) (items : gmap string PyValue) (h : ObjHeap)
    : ObjHeap :=
  {| dicts := <[d := items]> (dicts h); lists := lists h |}.

Definition set_list (l : loc) (items : list PyValue) (h : ObjHeap)
    : ObjHeap :=
  {| dicts := dicts h; lists := <[l := items]> (lists h) |}.

(** [bool(v)] *)
Definition truthy (h : ObjHeap) (v : PyValue) : bool :=
  match v with
  | PNone => false
  | PBool b => b
  | PInt z => negb (z =? 0)
  | PStr s => negb (String.eqb s "")
  | PListRef l => match lists h !!! l with [] => false | _ => true end
  | PDictRef d => negb (Nat.eqb (size (dicts h !!! d)) 0)
  end.

(** [v is not None] *)
Definition is_not_None (v : PyValue) : bool :=
  match v with PNone => false | _ => true end.

(** A node is handed a reference to the state mapping and may change any
    object; it raises, or returns a reference to a mapping. *)
Definition NodeCallable : Type := loc -> ObjHeap -> (string + loc) * ObjHeap.

(** [@dataclass class Graph] *)
Record Graph : Type := {
  id : string;
  nodes : gmap string NodeCallable;
  edges : gmap string (option string);
  start_node_id : string;
  max_steps : Z;
}.

(** The objects, the process-wide [RUNS] and the number of
    [datetime.utcnow] readings taken so far. *)
Record World : Type := {
  heap : ObjHeap;
  RUNS : Runs;
  ticks : nat;
}.

Definition set_heap (h : ObjHeap) (w : World) : World :=
  {| heap := h; RUNS := RUNS w; ticks := ticks w |}.

Definition set_RUNS (R : Runs) (w : World) : World :=
  {| heap := heap w; RUNS := R; ticks := S (ticks w) |}.

(** How a computation ends; [OutOfFuel] marks a loop cut off by the fuel of
    [while_loop] below. *)
Inductive Outcome (A : Type) : Type :=
| Returned (a : A)
| Raised (e : Exn)
| OutOfFuel.
Arguments Returned {A} a.
Arguments Raised {A} e.
Arguments OutOfFuel {A}.

(** State-and-exception monad over [World]. *)
Definition M (A : Type) : Type := World -> Outcome A * World.

#[local] Instance M_ret : MRet M := fun A a w => (Returned a, w).

#[local] Instance M_bind : MBind M := fun A B k m w =>
  match m w with
  | (Returned a, w') => k a w'
  | (Raised e, w') => (Raised e, w')
  | (OutOfFuel, w') => (OutOfFuel, w')
  end.

Definition raise {A : Type} (e : Exn) : M A := fun w => (Raised e, w).

Definition out_of_fuel {A : Type} : M A := fun w => (OutOfFuel, w).

Definition lift {A : Type} (r : Exn + A) : M A :=
  match r with inl e => raise e | inr a => mret a end.

(** [dict(d)]: a new mapping object with the same bindings. A key bound to
    a list or a mapping is bound to the same object in the copy. *)
Definition dict_copy (d : loc) : M loc := fun w =>
  let l := fresh (dom (dicts (heap w))) in
  (Returned l, set_heap (set_dict l (dicts (heap w) !!! d) (heap w)) w).

(** [d.setdefault(key, value)] *)
Definition dict_setdefault (d : loc) (key : string) (value : PyValue)
    : M unit := fun w =>
  match (dicts (heap w) !!! d) !! key with
  | Some _ => (Returned tt, w)
  | None =>
      (Returned tt,
       set_heap (set_dict d (<[key := value]> (dicts (heap w) !!! d)) (heap w))
                w)
  end.

(** [d.get(key)]: [None] when the key is absent. *)
Definition dict_get (d : loc) (key : string) : M PyValue := fun w =>
  (Returned (default PNone ((dicts (heap w) !!! d) !! key)), w).

(** [d.pop(key, None)] *)
Definition dict_pop (d : loc) (key : string) : M PyValue := fun w =>
  (Returned (default PNone ((dicts (heap w) !!! d) !! key)),
   set_heap (set_dict d (delete key (dicts (heap w) !!! d)) (heap w)) w).

(** [bool(v)] in the current heap. *)
Definition is_truthy (v : PyValue) : M bool := fun w =>
  (Returned (truthy (heap w) v), w).

(** [node(state)] *)
Definition call (node : NodeCallable) (state : loc) : M loc := fun w =>
  match node state (heap w) with
  | (inl e, h) => (Raised (NodeFailure e), set_heap h w)
  | (inr st, h) => (Returned st, set_heap h w)
  end.

(** [graph.nodes[key]]: the keys of [nodes] are strings, so any other
    hashable key is missing and an unhashable one is a TypeError. *)
Definition nodes_getitem (graph : Graph) (key : PyValue)
    : Exn + (string * NodeCallable) :=
  match key with
  | PStr s =>
      match nodes graph !! s with
      | Some node => inr (s, node)
      | None => inl (KeyError (VStr s))
      end
  | PListRef _ | PDictRef _ => inl TypeError
  | PNone => inl (KeyError VNone)
  | PBool b => inl (KeyError (VBool b))
  | PInt z => inl (KeyError (VInt z))
  end.

(** [graph.edges.get(key)] *)
Definition edges_get (graph : Graph) (key : string) : PyValue :=
  match edges graph !! key with
  | Some (Some target) => PStr target
  | _ => PNone
  end.

(** [cr.get(key, default)] on a value: only a mapping has the method. *)
Definition value_get_default (h : ObjHeap) (cr : PyValue) (key : string)
    (default_value : PyValue) : Exn + PyValue :=
  match cr with
  | PDictRef d => inr (default default_value ((dicts h !!! d) !! key))
  | _ => inl AttributeError
  end.

(** [cr.get(key)] *)
Definition value_get (h : ObjHeap) (cr : PyValue) (key : string)
    : Exn + PyValue :=
  value_get_default h cr key PNone.

(** A value as an operand of [-] and [*] with an [int]: [bool] is a subclass
    of [int]; [None] is the TypeError of any other value. *)
Definition number (v : PyValue) : option Z :=
  match v with
  | PBool b => Some (if b then 1 else 0)
  | PInt z => Some z
  | _ => None
  end.

(** The score of lines 130-133 of code_review.py. *)
Definition quality_score (complexity issue_count : Z) : Z :=
  let score := 100 in
  let score := score - Z.max 0 ((complexity - 5) * 3) in
  let score := score - issue_count * 5 in
  Z.max 0 (Z.min 100 score).

Section WithEnvironment.

(** [str(v)] as an f-string renders it; a list or a mapping is rendered
    with its elements. *)
Variable py_str : ObjHeap -> PyValue -> string.
(** Measured duration, in ms, of the node call of a given step. *)
Variable elapsed_ms : Z -> Q.
(** The n-th reading of [datetime.utcnow().isoformat()]. *)
Variable utcnow : nat -> string.
(** The characters of a string: its [len] goes by code point. *)
Variable str_chars : string -> list string.

(** [update_run(run_id, state, log, status)] on the process-wide [RUNS]. *)
Definition store_update (run_id : string) (state : loc)
    (log : list ExecutionLogEntry) (status : Status) : M unit := fun w =>
  match update_run (utcnow (ticks w)) (RUNS w) run_id state log status with
  | inl e => (Raised e, w)
  | inr R => (Returned tt, set_RUNS R w)
  end.

Definition append_if (c : bool) (part : string) (parts : list string)
    : list string :=
  if c then (parts ++ [part])%list else parts.

(** [_summarise_state(state)] *)
Definition _summarise_state (h : ObjHeap) (state : loc) : Exn + string :=
  let content := dicts h !!! state in
  let parts := [] in
  let parts :=
    match content !! "quality_score" with
    | Some v => (parts ++ ["quality_score=" +:+ py_str h v])%list
    | None => parts
    end in
  let parts :=
    match content !! "iteration" with
    | Some v => (parts ++ ["iteration=" +:+ py_str h v])%list
    | None => parts
    end in
  let parts :=
    match content !! "issues" with
    | Some (PListRef l) =>
        (parts ++ ["issues=" +:+ pretty (length (lists h !!! l))])%list
    | _ => parts
    end in
  match content !! "complexity_report" with
  | Some cr =>
      match value_get h cr "estimated_complexity" with
      | inl e => inl e
      | inr est =>
          match value_get h cr "function_count" with
          | inl e => inl e
          | inr fn_count =>
              let parts :=
                append_if (is_not_None est)
                          ("complexity=" +:+ py_str h est) parts in
              let parts :=
                append_if (is_not_None fn_count)
                          ("functions=" +:+ py_str h fn_count) parts in
              inr (let s := String.concat ", " parts in
                   if String.eqb s "" then "state updated" else s)
          end
      end
  | None =>
      inr (let s := String.concat ", " parts in
           if String.eqb s "" then "state updated" else s)
  end.

(** The local variables of [run_graph]. *)
Record Frame : Type := {
  state : loc;
  log : list ExecutionLogEntry;
  current_node_id : PyValue;
  step : Z;
  status : Status;
}.

(** How one pass through the loop body ends. *)
Inductive Ctl : Type :=
| Continue (f : Frame)
| Break (f : Frame).

(** The loop condition [current_node_id is not None and step < graph.max_steps]. *)
Definition loop_cond (graph : Graph) (f : Frame) : bool :=
  is_not_None (current_node_id f) && (step f <? max_steps graph).

(** [if run_id is not None: update_run(run_id, state, log, status)] *)
Definition persist (run_id : option string) (state : loc)
    (log : list ExecutionLogEntry) (status : Status) : M unit :=
  match run_id with
  | Some r => store_update r state log status
  | None => mret tt
  end.

(** The entry built at lines 55-60. *)
Definition log_entry (step : Z) (name : string) (summary : string)
    : ExecutionLogEntry :=
  {| Models.step := step;
     node_id := name;
     duration_ms := elapsed_ms step;
     summary := summary |}.

(** Lines 73-78: the override if it is not [None], else the default edge. *)
Definition next_node (graph : Graph) (name : string)
    (next_node_override : PyValue) : PyValue :=
  if is_not_None next_node_override then next_node_override
  else edges_get graph name.

(** The body of the [while] loop (lines 48-78). *)
Definition loop_body (graph : Graph) (run_id : option string) (f : Frame)
    : M Ctl :=
  let step := step f + 1 in
  '(name, node) ← lift (nodes_getitem graph (current_node_id f));
  state ← call node (state f);
  summary ← (fun w => lift (_summarise_state (heap w) state) w);
  let log := (log f ++ [log_entry step name summary])%list in
  _ ← persist run_id state log (status f);
  finished ← dict_get state "_finished";
  stop ← is_truthy finished;
  if (stop : bool) then
    mret (Break {| state := state; log := log;
                   current_node_id := current_node_id f;
                   step := step; status := completed |})
  else
    next_node_override ← dict_pop state "_next_node";
    mret (Continue {| state := state; log := log;
                      current_node_id :=
                        next_node graph name next_node_override;
                      step := step; status := status f |}).

(** The [else] clause of the loop (line 82). *)
Definition loop_else (f : Frame) : Frame :=
  {| state := state f; log := log f;
     current_node_id := current_node_id f; step := step f;
     status := if is_not_None (current_node_id f)
               then max_steps_reached else completed |}.

(** [while cond: body else: ...]; a [break] skips the [else] clause. The
    loop is entered at most [max_steps] times, which is the fuel
    [run_graph] gives it. *)
Fixpoint while_loop (fuel : nat) (graph : Graph) (run_id : option string)
    (f : Frame) : M Frame :=
  if loop_cond graph f then
    match fuel with
    | O => out_of_fuel
    | S fuel =>
        c ← loop_body graph run_id f;
        match c with
        | Break f' => mret f'
        | Continue f' => while_loop fuel graph run_id f'
        end
    end
  else mret (loop_else f).

(** [run_graph(graph, initial_state, run_id)] returns [(state, log)]. *)
Definition run_graph (graph : Graph) (initial_state : loc)
    (run_id : option string) : M (loc * list ExecutionLogEntry) :=
  copy ← dict_copy initial_state;
  _ ← dict_setdefault copy "iteration" (PInt 0);
  f ← while_loop (Z.to_nat (max_steps graph)) graph run_id
        {| state := copy; log := [];
           current_node_id := PStr (start_node_id graph);
           step := 0; status := running |};
  _ ← persist run_id (state f) (log f) (status f);
  mret (state f, log f).

(** [len(v)]; [None] is the TypeError of a value that has no length. *)
Definition py_len (h : ObjHeap) (v : PyValue) : option Z :=
  match v with
  | PStr s => Some (Z.of_nat (length (str_chars s)))
  | PListRef l => Some (Z.of_nat (length (lists h !!! l)))
  | PDictRef d => Some (Z.of_nat (size (dicts h !!! d)))
  | _ => None
  end.

(** [evaluate_quality] (code_review.py, lines 119-142). The defaults [{}]
    and [[]] of the first two [state.get] are objects that nothing refers to
    afterwards; the default of the third, when used, is bound in the state.
    [history.append(score)] changes the list object that [score_history] is
    bound to, whoever else refers to it. *)
Definition evaluate_quality : NodeCallable := fun state h =>
  let content := dicts h !!! state in
  let complexity :=
    match content !! "complexity_report" with
    | Some complexity_report =>
        value_get_default h complexity_report "estimated_complexity" (PInt 0)
    | None => inr (PInt 0)
    end in
  match complexity with
  | inl _ => (inl "AttributeError", h)
  | inr complexity =>
      match number complexity with
      | None => (inl "TypeError", h)
      | Some complexity =>
          let issue_count :=
            match content !! "issues" with
            | Some issues => py_len h issues
            | None => Some 0
            end in
          match issue_count with
          | None => (inl "TypeError", h)
          | Some issue_count =>
              let score := quality_score complexity issue_count in
              let h :=
                set_dict state (<["quality_score" := PInt score]> content) h in
              match (dicts h !!! state) !! "score_history" with
              | Some (PListRef history) =>
                  let h :=
                    set_list history
                      (lists h !!! history ++ [PInt score])%list h in
                  (inr state,
                   set_dict state
                     (<["score_history" := PListRef history]>
                        (dicts h !!! state)) h)
              | Some _ => (inl "AttributeError", h)
              | None =>
                  let history := fresh (dom (lists h)) in
                  let h := set_list history [PInt score] h in
                  (inr state,
                   set_dict state
                     (<["score_history" := PListRef history]>
                        (dicts h !!! state)) h)
              end
          end
      end
  end.

End WithEnvironment.

(** What a value reads as: the data it stands for, with the lists and
    mappings it refers to read through, [depth] levels deep. *)
Fixpoint snapshot (depth : nat) (h : ObjHeap) (v : PyValue) {struct depth}
    : Value :=
  match v with
  | PNone => VNone
  | PBool b => VBool b
  | PInt z => VInt z
  | PStr s => VStr s
  | PListRef l =>
      match depth with
      | O => VList []
      | S depth => VList (map (snapshot depth h) (lists h !!! l))
      end
  | PDictRef d =>
      match depth with
      | O => VDict []
      | S depth =>
          VDict (map (fun kv => (kv.1, snapshot depth h kv.2))
                     (map_to_list (dicts h !!! d)))
      end
  end.

(** A rendering to run examples with. *)
Definition demo_str (h : ObjHeap) (v : PyValue) : string :=
  match v with
  | PNone => "None"
  | PBool true => "True"
  | PBool false => "False"
  | PInt z => pretty z
  | PStr s => s
  | _ => "..."
  end.

Definition demo_chars (s : string) : list string :=
  map (fun c => String c "") (list_ascii_of_string s).

(** The graph whose only node is [evaluate_quality]. *)
Definition evaluate_graph : Graph :=
  {| id := "evaluate_only";
     nodes := {["evaluate" := evaluate_quality demo_chars]};
     edges := {["evaluate" := None]};
     start_node_id := "evaluate";
     max_steps := 10 |}.

(** The caller's mapping [{"score_history": [1]}]: mapping object 1 binds
    the key to list object 1. *)
Definition caller_state : gmap string PyValue :=
  {["score_history" := PListRef 1%positive]}.

Definition caller_world : World :=
  {| heap := {| dicts := {[1%positive := caller_state]};
                lists := {[1%positive := [PInt 1]]} |};
     RUNS := ∅; ticks := 0 |}.

End Objects.

(* ===================================================================== *)
(** ** app/engine/executor.py *)
(* ===================================================================== *)
Module Executor.
Import Models.
Import Store.
Import Registry.

(** *** The world the executor runs in *)

(** The heap of mapping objects, the process-wide [RUNS], the number of
    [datetime.utcnow] readings taken so far, and (ghost) the node calls made
    so far: the node identifier with the content of the state it received. *)
Record World : Type := {
  heap : Heap;
  RUNS : Runs;
  ticks : nat;
  invoked : list (string * State);
}.

Definition set_heap (h : Heap) (w : World) : World :=
  {| heap := h; RUNS := RUNS w; ticks := ticks w; invoked := invoked w |}.

(** The store after a successful [update_run], which has read the clock
    once. *)
Definition set_RUNS (R : Runs) (w : World) : World :=
  {| heap := heap w; RUNS := R; ticks := S (ticks w); invoked := invoked w |}.

Definition record_call (name : string) (arg : State) (w : World) : World :=
  {| heap := heap w; RUNS := RUNS w; ticks := ticks w;
     invoked := (invoked w ++ [(name, arg)])%list |}.

(** How a computation ends. [OutOfFuel] is not a Python behaviour: it marks a
    loop cut off by the fuel of [while_loop] below, and is shown never to
    happen for [run_graph]. *)
Inductive Outcome (A : Type) : Type :=
| Returned (a : A)
| Raised (e : Exn)
| OutOfFuel.
Arguments Returned {A} a.
Arguments Raised {A} e.
Arguments OutOfFuel {A}.

(** State-and-exception monad over [World]. *)
Definition M (A : Type) : Type := World -> Outcome A * World.

#[global] Instance M_ret : MRet M := fun A a w => (Returned a, w).

#[global] Instance M_bind : MBind M := fun A B k m w =>
  match m w with
  | (Returned a, w') => k a w'
  | (Raised e, w') => (Raised e, w')
  | (OutOfFuel, w') => (OutOfFuel, w')
  end.

Definition raise {A : Type} (e : Exn) : M A := fun w => (Raised e, w).

Definition out_of_fuel {A : Type} : M A := fun w => (OutOfFuel, w).

Definition lift {A : Type} (r : Exn + A) : M A :=
  match r with inl e => raise e | inr a => mret a end.

(** *** Operations on mapping objects *)

(** [dict(d)]: a new object with the same bindings. (A reference always
    points to an object; the total lookup [!!!] reads a location that the
    heap lacks as the empty mapping.) The copy is shallow: in Python a list
    or mapping bound in [d] is shared with the copy. Here the bindings are
    immutable values, so that sharing cannot be seen; [Objects.dict_copy]
    is the operation with the sharing. *)
Definition dict_copy (d : loc) : M loc := fun w =>
  let l := fresh (dom (heap w)) in
  (Returned l, set_heap (<[l := heap w !!! d]> (heap w)) w).

(** [d.setdefault(key, value)] *)
Definition dict_setdefault (d : loc) (key : string) (value : Value) : M unit :=
  fun w =>
    match (heap w !!! d) !! key with
    | Some _ => (Returned tt, w)
    | None =>
        (Returned tt,
         set_heap (<[d := <[key := value]> (heap w !!! d)]> (heap w)) w)
    end.

(** [d.get(key)]: [None] when the key is absent. *)
Definition dict_get (d : loc) (key : string) : M Value := fun w =>
  (Returned (default VNone ((heap w !!! d) !! key)), w).

(** [d.pop(key, None)] *)
Definition dict_pop (d : loc) (key : string) : M Value := fun w =>
  (Returned (default VNone ((heap w !!! d) !! key)),
   set_heap (<[d := delete key (heap w !!! d)]> (heap w)) w).

(** [node(state)] for the node registered as [name]. *)
Definition call (name : string) (node : NodeCallable) (state : loc) : M loc :=
  fun w =>
    let arg := heap w !!! state in
    let w := record_call name arg w in
    match node arg with
    | NodeRaises after e =>
        (Raised (NodeFailure e), set_heap (<[state := after]> (heap w)) w)
    | NodeReturnsSame after =>
        (Returned state, set_heap (<[state := after]> (heap w)) w)
    | NodeReturnsNew after result =>
        let h := <[state := after]> (heap w) in
        let l := fresh (dom h) in
        (Returned l, set_heap (<[l := result]> h) w)
    end.

(** [graph.nodes[key]]: the keys of [nodes] are strings, so any other
    hashable key is missing and an unhashable one is a TypeError. *)
Definition nodes_getitem (graph : Graph) (key : Value)
    : Exn + (string * NodeCallable) :=
  match key with
  | VStr s =>
      match nodes graph !! s with
      | Some node => inr (s, node)
      | None => inl (KeyError key)
      end
  | VList _ | VDict _ => inl TypeError
  | _ => inl (KeyError key)
  end.

(** [graph.edges.get(key)] *)
Definition edges_get (graph : Graph) (key : string) : Value :=
  match edges graph !! key with
  | Some (Some target) => VStr target
  | _ => VNone
  end.

Section WithClocks.

(** [str(v)] as an f-string renders it. *)
Variable py_str : Value -> string.
(** Measured duration, in ms, of the node call of a given step. *)
Variable elapsed_ms : Z -> Q.
(** The n-th reading of [datetime.utcnow().isoformat()]. *)
Variable utcnow : nat -> string.

(** [update_run(run_id, state, log, status)] on the process-wide [RUNS]. *)
Definition store_update (run_id : string) (state : loc)
    (log : list ExecutionLogEntry) (status : Status) : M unit := fun w =>
  match update_run (utcnow (ticks w)) (RUNS w) run_id state log status with
  | inl e => (Raised e, w)
  | inr R => (Returned tt, set_RUNS R w)
  end.

(** *** [_summarise_state] *)

(** [cr.get(key)] on a value: only a dict has the method. *)
Definition value_get (cr : Value) (key : string) : Exn + Value :=
  match cr with
  | VDict kvs =>
      inr (match List.find (fun kv => String.eqb kv.1 key) kvs with
           | Some kv => kv.2
           | None => VNone
           end)
  | _ => inl AttributeError
  end.

Definition append_if (c : bool) (part : string) (parts : list string)
    : list string :=
  if c then (parts ++ [part])%list else parts.

Definition _summarise_state (state : State) : Exn + string :=
  let parts := [] in
  let parts :=
    match state !! "quality_score" with
    | Some v => (parts ++ ["quality_score=" +:+ py_str v])%list
    | None => parts
    end in
  let parts :=
    match state !! "iteration" with
    | Some v => (parts ++ ["iteration=" +:+ py_str v])%list
    | None => parts
    end in
  let parts :=
    match state !! "issues" with
    | Some (VList xs) => (parts ++ ["issues=" +:+ pretty (length xs)])%list
    | _ => parts
    end in
  match state !! "complexity_report" with
  | Some cr =>
      match value_get cr "estimated_complexity" with
      | inl e => inl e
      | inr est =>
          match value_get cr "function_count" with
          | inl e => inl e
          | inr fn_count =>
              let parts :=
                append_if (is_not_None est) ("complexity=" +:+ py_str est) parts in
              let parts :=
                append_if (is_not_None fn_count)
                          ("functions=" +:+ py_str fn_count) parts in
              inr (let s := String.concat ", " parts in
                   if String.eqb s "" then "state updated" else s)
          end
      end
  | None =>
      inr (let s := String.concat ", " parts in
           if String.eqb s "" then "state updated" else s)
  end.

(** *** [run_graph] *)

(** The local variables of [run_graph]. *)
Record Frame : Type := {
  state : loc;
  log : list ExecutionLogEntry;
  current_node_id : Value;
  step : Z;
  status : Status;
}.

(** How one pass through the loop body ends. *)
Inductive Ctl : Type :=
| Continue (f : Frame)
| Break (f : Frame).

(** The loop condition [current_node_id is not None and step < graph.max_steps]. *)
Definition loop_cond (graph : Graph) (f : Frame) : bool :=
  is_not_None (current_node_id f) && (step f <? max_steps graph).

(** [if run_id is not None: update_run(run_id, state, log, status)] *)
Definition persist (run_id : option string) (state : loc)
    (log : list ExecutionLogEntry) (status : Status) : M unit :=
  match run_id with
  | Some r => store_update r state log status
  | None => mret tt
  end.

(** The entry built at lines 55-60. *)
Definition log_entry (step : Z) (name : string) (summary : string)
    : ExecutionLogEntry :=
  {| Models.step := step;
     node_id := name;
     duration_ms := elapsed_ms step;
     summary := summary |}.

(** Lines 73-78: the override if it is not [None], else the default edge. *)
Definition next_node (graph : Graph) (name : string)
    (next_node_override : Value) : Value :=
  if is_not_None next_node_override then next_node_override
  else edges_get graph name.

(** The body of the [while] loop (lines 48-78). *)
Definition loop_body (graph : Graph) (run_id : option string) (f : Frame)
    : M Ctl :=
  let step := step f + 1 in
  '(name, node) ← lift (nodes_getitem graph (current_node_id f));
  state ← call name node (state f);
  content ← (fun w => (Returned (heap w !!! state), w));
  summary ← lift (_summarise_state content);
  let log := (log f ++ [log_entry step name summary])%list in
  _ ← persist run_id state log (status f);
  finished ← dict_get state "_finished";
  if truthy finished then
    mret (Break {| state := state; log := log;
                   current_node_id := current_node_id f;
                   step := step; status := completed |})
  else
    next_node_override ← dict_pop state "_next_node";
    mret (Continue {| state := state; log := log;
                      current_node_id :=
                        next_node graph name next_node_override;
                      step := step; status := status f |}).

(** The [else] clause of the loop (line 82). *)
Definition loop_else (f : Frame) : Frame :=
  {| state := state f; log := log f;
     current_node_id := current_node_id f; step := step f;
     status := if is_not_None (current_node_id f)
               then max_steps_reached else completed |}.

(** [while cond: body else: ...]; a [break] skips the [else] clause. *)
Fixpoint while_loop (fuel : nat) (graph : Graph) (run_id : option string)
    (f : Frame) : M Frame :=
  if loop_cond graph f then
    match fuel with
    | O => out_of_fuel
    | S fuel =>
        c ← loop_body graph run_id f;
        match c with
        | Break f' => mret f'
        | Continue f' => while_loop fuel graph run_id f'
        end
    end
  else mret (loop_else f).

(** [run_graph] up to its [return]: the frame holds every local variable. *)
Definition run_graph_frame (graph : Graph) (initial_state : loc)
    (run_id : option string) : M Frame :=
  copy ← dict_copy initial_state;
  _ ← dict_setdefault copy "iteration" (VInt 0);
  f ← while_loop (Z.to_nat (max_steps graph)) graph run_id
        {| state := copy; log := [];
           current_node_id := VStr (start_node_id graph);
           step := 0; status := running |};
  _ ← persist run_id (state f) (log f) (status f);
  mret f.

(** [run_graph(graph, initial_state, run_id)] returns [(state, log)]. *)
Definition run_graph (graph : Graph) (initial_state : loc)
    (run_id : option string) : M (loc * list ExecutionLogEntry) :=
  f ← run_graph_frame graph initial_state run_id;
  mret (state f, log f).

(** *** Notions used to state the properties *)

(** The content of the mapping a node call returned, if it returned. *)
Definition returned_content (r : NodeResult) : option State :=
  match r with
  | NodeRaises _ _ => None
  | NodeReturnsSame after => Some after
  | NodeReturnsNew _ result => Some result
  end.

(** [state.get(key)] on the content of a mapping. *)
Definition get (content : State) (key : string) : Value :=
  default VNone (content !! key).

(** The run record named by [run_id] exists (or no [run_id] was given), so
    that [update_run] cannot raise. *)
Definition run_known (run_id : option string) (R : Runs) : bool :=
  match run_id with
  | Some r => match R !! r with Some _ => true | None => false end
  | None => true
  end.

(** One pass through the loop body from frame [f] in world [w], case by
    case, in the order of the statements of the body. *)
Inductive body_step (graph : Graph) (run_id : option string) (f : Frame)
    (w : World) : Outcome Ctl * World -> Prop :=
| step_lookup_fails e :
    nodes_getitem graph (current_node_id f) = inl e ->
    body_step graph run_id f w (Raised e, w)
| step_node_raises name node after e :
    current_node_id f = VStr name ->
    nodes graph !! name = Some node ->
    node (heap w !!! state f) = NodeRaises after e ->
    body_step graph run_id f w
      (Raised (NodeFailure e),
       set_heap (<[state f := after]> (heap w))
                (record_call name (heap w !!! state f) w))
| step_summary_fails name node st w1 e :
    current_node_id f = VStr name ->
    nodes graph !! name = Some node ->
    call name node (state f) w = (Returned st, w1) ->
    _summarise_state (heap w1 !!! st) = inl e ->
    body_step graph run_id f w (Raised e, w1)
| step_persist_fails name node st w1 summary e :
    current_node_id f = VStr name ->
    nodes graph !! name = Some node ->
    call name node (state f) w = (Returned st, w1) ->
    _summarise_state (heap w1 !!! st) = inr summary ->
    persist run_id st (log f ++ [log_entry (step f + 1) name summary])%list
            (status f) w1 = (Raised e, w1) ->
    body_step graph run_id f w (Raised e, w1)
| step_break name node st w1 summary w2 :
    current_node_id f = VStr name ->
    nodes graph !! name = Some node ->
    call name node (state f) w = (Returned st, w1) ->
    _summarise_state (heap w1 !!! st) = inr summary ->
    persist run_id st (log f ++ [log_entry (step f + 1) name summary])%list
            (status f) w1 = (Returned tt, w2) ->
    truthy (get (heap w2 !!! st) "_finished") = true ->
    body_step graph run_id f w
      (Returned (Break
         {| state := st;
            log := (log f ++ [log_entry (step f + 1) name summary])%list;
            current_node_id := current_node_id f;
            step := step f + 1; status := completed |}), w2)
| step_continue name node st w1 summary w2 :
    current_node_id f = VStr name ->
    nodes graph !! name = Some node ->
    call name node (state f) w = (Returned st, w1) ->
    _summarise_state (heap w1 !!! st) = inr summary ->
    persist run_id st (log f ++ [log_entry (step f + 1) name summary])%list
            (status f) w1 = (Returned tt, w2) ->
    truthy (get (heap w2 !!! st) "_finished") = false ->
    body_step graph run_id f w
      (Returned (Continue
         {| state := st;
            log := (log f ++ [log_entry (step f + 1) name summary])%list;
            current_node_id :=
              next_node graph name (get (heap w2 !!! st) "_next_node");
            step := step f + 1; status := status f |}),
       set_heap (<[st := delete "_next_node" (heap w2 !!! st)]> (heap w2)) w2).

(** Content of the working copy made at lines 38-39 from the content of
    the caller's mapping. *)
Definition seeded (content : State) : State :=
  match content !! "iteration" with
  | Some _ => content
  | None => <["iteration" := VInt 0]> content
  end.

(** How the loop ends: its condition fails (the [else] clause runs), the
    [_finished] flag breaks it, or an exception leaves it. The fields are the
    values of [current_node_id] and [step] and the content of [state]. *)
Inductive Ending : Type :=
| Exhausted (current : Value) (step : Z) (content : State)
| Finished (step : Z) (content : State)
| Failed (e : Exn).

(** The loop seen from outside, on the content of the working state: from
    [current_node_id], [step] and that content, the node calls it makes in
    order (identifier and content received) and how it ends. [known] tells
    whether [update_run] finds the run. *)
Inductive loop_run (graph : Graph) (run_id : option string) (known : bool)
    : Value -> Z -> State -> list (string * State) -> Ending -> Prop :=
| run_exit current step content :
    is_not_None current && (step <? max_steps graph) = false ->
    loop_run graph run_id known current step content []
             (Exhausted current step content)
| run_lookup_fails current step content e :
    is_not_None current && (step <? max_steps graph) = true ->
    nodes_getitem graph current = inl e ->
    loop_run graph run_id known current step content [] (Failed e)
| run_node_raises name node step content after e :
    step < max_steps graph ->
    nodes graph !! name = Some node ->
    node content = NodeRaises after e ->
    loop_run graph run_id known (VStr name) step content [(name, content)]
             (Failed (NodeFailure e))
| run_summary_fails name node step content content' e :
    step < max_steps graph ->
    nodes graph !! name = Some node ->
    returned_content (node content) = Some content' ->
    _summarise_state content' = inl e ->
    loop_run graph run_id known (VStr name) step content [(name, content)]
             (Failed e)
| run_persist_fails name node step content content' summary r :
    step < max_steps graph ->
    nodes graph !! name = Some node ->
    returned_content (node content) = Some content' ->
    _summarise_state content' = inr summary ->
    run_id = Some r -> known = false ->
    loop_run graph run_id known (VStr name) step content [(name, content)]
             (Failed (run_not_found r))
| run_break name node step content content' summary :
    step < max_steps graph ->
    nodes graph !! name = Some node ->
    returned_content (node content) = Some content' ->
    _summarise_state content' = inr summary ->
    (run_id = None \/ known = true) ->
    truthy (get content' "_finished") = true ->
    loop_run graph run_id known (VStr name) step content [(name, content)]
             (Finished (step + 1) content')
| run_continue name node step content content' summary calls ending :
    step < max_steps graph ->
    nodes graph !! name = Some node ->
    returned_content (node content) = Some content' ->
    _summarise_state content' = inr summary ->
    (run_id = None \/ known = true) ->
    truthy (get content' "_finished") = false ->
    loop_run graph run_id known
             (next_node graph name (get content' "_next_node")) (step + 1)
             (delete "_next_node" content') calls ending ->
    loop_run graph run_id known (VStr name) step content
             ((name, content) :: calls) ending.

(** What the caller of [run_graph_frame] observes for an ending of the
    loop. *)
Definition observed (run_id : option string) (ending : Ending)
    (o : Outcome Frame) (w : World) : Prop :=
  match ending with
  | Exhausted current n content =>
      exists f, o = Returned f /\ current_node_id f = current
                /\ step f = n /\ heap w !!! state f = content
                /\ status f = (if is_not_None current
                               then max_steps_reached else completed)
  | Finished n content =>
      exists f, o = Returned f /\ step f = n
                /\ heap w !!! state f = content /\ status f = completed
  | Failed e => o = Raised e
  end.

(** The loop's ending as it reaches the caller: after a loop that did not
    fail, the last [update_run] (line 85) fails when the run is unknown. *)
Definition final_ending (run_id : option string) (known : bool)
    (ending : Ending) : Ending :=
  match ending, run_id with
  | Failed e, _ => Failed e
  | _, Some r => if known then ending else Failed (run_not_found r)
  | _, None => ending
  end.

(** The log grows by one entry per call, numbered by [step]. *)
Definition log_agrees (calls0 : list (string * State)) (f : Frame)
    (w : World) : Prop :=
  exists calls,
    invoked w = (calls0 ++ calls)%list
    /\ map Models.step (log f) = seqZ 1 (Z.of_nat (length calls))
    /\ map node_id (log f) = calls.*1
    /\ step f = Z.of_nat (length calls).

(** The loop only touches the working state, never an object of [h0]. *)
Definition heap_frame (h0 : Heap) (f : Frame) (w : World) : Prop :=
  (state f ∉ dom h0)
  /\ (dom h0 ⊆ dom (heap w))
  /\ (forall l, l ∈ dom h0 -> heap w !! l = h0 !! l).

(** While the loop runs the stored status is the one found at the start
    until the first step has been persisted, and [running] afterwards. *)
Definition store_running (r : string) (run0 : Run)
    (calls0 : list (string * State)) (f : Frame) (w : World) : Prop :=
  status f = running
  /\ exists calls run,
       invoked w = (calls0 ++ calls)%list
       /\ RUNS w !! r = Some run
       /\ (calls = [] -> run = run0)
       /\ (calls ≠ [] -> Store.status run = running).

Definition store_at_failure (r : string) (run0 : Run)
    (calls0 : list (string * State)) (w : World) : Prop :=
  exists calls run,
    invoked w = (calls0 ++ calls)%list
    /\ RUNS w !! r = Some run
    /\ ((length calls = 1%nat /\ run = run0)
        \/ ((1 < length calls)%nat /\ Store.status run = running)).

(** The [complexity_report] entry of a state, when there is one, is a
    mapping: the only case in which [_summarise_state] can read it. *)
Definition report_is_mapping (content : State) : bool :=
  match content !! "complexity_report" with
  | Some (VDict _) | None => true
  | Some _ => false
  end.

(** *** Concrete nodes, graphs and worlds for the scenarios *)

(** A rendering, a clock and a timestamp source to run examples with. *)
Definition demo_str (v : Value) : string :=
  match v with
  | VNone => "None"
  | VBool true => "True"
  | VBool false => "False"
  | VInt z => pretty z
  | VStr s => s
  | _ => "..."
  end.

Definition demo_elapsed (step : Z) : Q := 0%Q.

Definition demo_utcnow (n : nat) : string := "t" +:+ pretty n.

(** [state[key] = value; return state] *)
Definition set_key (key : string) (value : Value) : NodeCallable :=
  fun content => NodeReturnsSame (<[key := value]> content).

(** [return state] *)
Definition identity_node : NodeCallable :=
  fun content => NodeReturnsSame content.

(** [raise RuntimeError("boom")] *)
Definition failing_node : NodeCallable :=
  fun content => NodeRaises content "boom".


(** Scenario B: the node [loop] always sets [_next_node = "loop"]. *)
Definition loop_node : NodeCallable := set_key "_next_node" (VStr "loop").

Definition loop_graph : Graph :=
  {| Models.id := "scenario_b";
     nodes := {["loop" := loop_node]};
     edges := {["loop" := None]};
     start_node_id := "loop";
     max_steps := 3 |}.

(** Scenario A: [a] adds [x = 1], [b] sets [_finished]. *)
Definition scenario_a_graph : Graph :=
  {| Models.id := "scenario_a";
     nodes := {["a" := set_key "x" (VInt 1);
                "b" := set_key "_finished" (VBool true)]};
     edges := {["a" := Some "b"; "b" := None]};
     start_node_id := "a";
     max_steps := 10 |}.

(** Three nodes that return the state untouched, with the edge [a -> c]. *)
Definition quiet_graph : Graph :=
  {| Models.id := "quiet";
     nodes := {["a" := identity_node; "b" := identity_node;
                "c" := identity_node]};
     edges := {["a" := Some "c"; "b" := None; "c" := None]};
     start_node_id := "a";
     max_steps := 10 |}.



(** [a] passes the state on to [b], which raises. *)
Definition failing_graph : Graph :=
  {| Models.id := "failing";
     nodes := {["a" := identity_node; "b" := failing_node]};
     edges := {["a" := Some "b"; "b" := None]};
     start_node_id := "a";
     max_steps := 10 |}.

(** [a] sets [_finished]. *)
Definition finish_graph : Graph :=
  {| Models.id := "finish";
     nodes := {["a" := set_key "_finished" (VBool true)]};
     edges := {["a" := None]};
     start_node_id := "a";
     max_steps := 10 |}.

(** A graph whose step budget is zero. *)
Definition zero_budget_graph : Graph :=
  {| Models.id := "zero_budget";
     nodes := {["a" := identity_node]};
     edges := {["a" := None]};
     start_node_id := "a";
     max_steps := 0 |}.

(** The edge of [a] leads to a node the graph does not have. *)
Definition dangling_graph : Graph :=
  {| Models.id := "dangling";
     nodes := {["a" := identity_node]};
     edges := {["a" := Some "ghost"]};
     start_node_id := "a";
     max_steps := 10 |}.

(** A world in which the caller's mapping, at location 1, has the given
    content, and no run exists. *)
Definition world_of (content : State) : World :=
  {| heap := {[1%positive := content]}; RUNS := ∅; ticks := 0; invoked := [] |}.

(** The same after [create_run(graph_id, initial_state)], which made
    ["run_1"]. *)
Definition world_with_run (content : State) : World :=
  {| heap := {[1%positive := content]};
     RUNS := (create_run "t" ∅ "g" 1%positive).2;
     ticks := 0; invoked := [] |}.

(** *** app/api/graph_routes.py *)

(** [HTTPException(status_code=..., detail=...)] *)
Record HTTPException : Type := {
  status_code : Z;
  detail : string;
}.

(** [class GraphCreateRequest(BaseModel)] *)
Record GraphCreateRequest : Type := {
  create_graph_id : string;
  create_nodes : list string;
  create_edges : gmap string (option string);
  create_start_node : string;
  create_max_steps : Z;
}.

(** [class GraphCreateResponse(BaseModel)] *)
Record GraphCreateResponse : Type := {
  created_graph_id : string;
  message : string;
}.

(** [class GraphRunResponse(BaseModel)]: [final_state] is the content of the
    returned state when the response is built. *)
Record GraphRunResponse : Type := {
  response_run_id : string;
  final_state : State;
  response_log : list ExecutionLogEntry;
  response_status : Status;
}.

(** [class GraphRunStateResponse(BaseModel)] *)
Record GraphRunStateResponse : Type := {
  polled_run_id : string;
  polled_graph_id : string;
  polled_state : State;
  polled_log : list ExecutionLogEntry;
  polled_status : Status;
}.

(** The loop of [create_graph] (lines 70-77): every listed node is looked up
    in the registry, the first one that is missing ends the request. *)
Fixpoint resolve_nodes (NODE_REGISTRY : NodeRegistry) (node_ids : list string)
    (node_funcs : gmap string NodeCallable)
    : HTTPException + gmap string NodeCallable :=
  match node_ids with
  | [] => inr node_funcs
  | node_id :: rest =>
      match get_node NODE_REGISTRY node_id with
      | inl _ =>
          inl {| status_code := 400;
                 detail := "Node '" +:+ node_id +:+
                   "' is not registered. Register it in a workflow module first." |}
      | inr func =>
          resolve_nodes NODE_REGISTRY rest (<[node_id := func]> node_funcs)
      end
  end.

(** [create_graph]: the response or the HTTPException raised, and [GRAPHS]
    afterwards. *)
Definition create_graph (NODE_REGISTRY : NodeRegistry) (GRAPHS : Graphs)
    (payload : GraphCreateRequest)
    : (HTTPException + GraphCreateResponse) * Graphs :=
  match resolve_nodes NODE_REGISTRY (create_nodes payload) ∅ with
  | inl exc => (inl exc, GRAPHS)
  | inr node_funcs =>
      match node_funcs !! create_start_node payload with
      | None =>
          (inl {| status_code := 400;
                  detail := "start_node '" +:+ create_start_node payload +:+
                            "' must be in 'nodes'" |},
           GRAPHS)
      | Some _ =>
          let graph := {| Models.id := create_graph_id payload;
                          nodes := node_funcs;
                          edges := create_edges payload;
                          start_node_id := create_start_node payload;
                          max_steps := create_max_steps payload |} in
          (inr {| created_graph_id := create_graph_id payload;
                  message := "Graph created successfully" |},
           save_graph GRAPHS graph)
      end
  end.

(** [create_run(graph_id, initial_state)] on the process-wide [RUNS]. *)
Definition store_create (graph_id : string) (initial_state : loc) : M string :=
  fun w =>
    let '(run_id, R) :=
      create_run (utcnow (ticks w)) (RUNS w) graph_id initial_state in
    (Returned run_id, set_RUNS R w).

(** [get_run(run_id)] on the process-wide [RUNS]. *)
Definition store_get (run_id : string) : M Run :=
  fun w => lift (get_run (RUNS w) run_id) w.

(** The content of a mapping, as a response serialises it. *)
Definition dict_content (d : loc) : M State :=
  fun w => (Returned (heap w !!! d), w).

(** [run_graph_endpoint]; [initial_state] is the mapping pydantic built from
    the request body. An HTTPException is a returned [inl]; any other
    exception leaves the handler as it is. *)
Definition run_graph_endpoint (GRAPHS : Graphs) (graph_id : string)
    (initial_state : loc) : M (HTTPException + GraphRunResponse) :=
  match get_graph GRAPHS graph_id with
  | inl _ =>
      mret (inl {| status_code := 404;
                   detail := "Graph '" +:+ graph_id +:+ "' not found" |})
  | inr graph =>
      run_id ← store_create (Models.id graph) initial_state;
      result ← run_graph graph initial_state (Some run_id);
      run_record ← store_get run_id;
      content ← dict_content result.1;
      mret (inr {| response_run_id := run_id;
                   final_state := content;
                   response_log := result.2;
                   response_status := Store.status run_record |})
  end.

(** [get_run_state] *)
Definition get_run_state (run_id : string)
    : M (HTTPException + GraphRunStateResponse) :=
  fun w =>
    match get_run (RUNS w) run_id with
    | inl _ =>
        (Returned (inl {| status_code := 404;
                          detail := "Run '" +:+ run_id +:+ "' not found" |}),
         w)
    | inr run_record =>
        (Returned (inr {| polled_run_id := Store.id run_record;
                          polled_graph_id := Store.graph_id run_record;
                          polled_state := heap w !!! Store.state run_record;
                          polled_log := Store.log run_record;
                          polled_status := Store.status run_record |}),
         w)
    end.

(** *** app/workflows/code_review.py *)

(** [str.splitlines], [str.strip] and the sequence of the characters of a
    string (its [len] and its iteration go by code point) are parameters. So
    is what a node does once it computes with a float, whose value the model
    does not keep: the properties below are about states in which the nodes
    meet none. *)
Class Builtins : Type := {
  splitlines : string -> list string;
  strip : string -> string;
  str_chars : string -> list string;
  float_case : string -> State -> NodeResult;
}.

Definition QUALITY_THRESHOLD : Z := 80.
Definition MAX_ITERATIONS : Z := 3.
Definition DEFAULT_GRAPH_ID : string := "code_review_v1".

(** [sub in s] on strings. *)
Fixpoint str_in (sub s : string) : bool :=
  String.prefix sub s
  || match s with
     | EmptyString => false
     | String _ rest => str_in sub rest
     end.

(** [state.get(key, default)] *)
Definition get_default (state : State) (key : string) (default_value : Value)
    : Value :=
  default default_value (state !! key).

(** The keys of a mapping value, once each. *)
Definition dict_keys (kvs : list (string * Value)) : list string :=
  remove_dups kvs.*1.

(** [len(v)]; [None] is the TypeError of a value that has no length. *)
Definition py_len `{Builtins} (v : Value) : option Z :=
  match v with
  | VStr s => Some (Z.of_nat (length (str_chars s)))
  | VList xs => Some (Z.of_nat (length xs))
  | VDict kvs => Some (Z.of_nat (length (dict_keys kvs)))
  | _ => None
  end.

(** The elements that iterating over [v] yields; [None] is the TypeError of
    a value that is not iterable. *)
Definition py_iter `{Builtins} (v : Value) : option (list Value) :=
  match v with
  | VStr s => Some (map VStr (str_chars s))
  | VList xs => Some xs
  | VDict kvs => Some (map VStr (dict_keys kvs))
  | _ => None
  end.

(** A value as an operand of [+], [-], [*], [<], [>=] with an [int]: [bool]
    is a subclass of [int]. *)
Inductive Number : Type :=
| NInt (z : Z)
| NFloat
| NotNumber.

Definition number (v : Value) : Number :=
  match v with
  | VBool b => NInt (if b then 1 else 0)
  | VInt z => NInt z
  | VFloat _ => NFloat
  | _ => NotNumber
  end.

(** [cr.get(key, default)] on a value: only a dict has the method. *)
Definition value_get_default (cr : Value) (key : string)
    (default_value : Value) : Exn + Value :=
  match cr with
  | VDict kvs =>
      inr (match List.find (fun kv => String.eqb kv.1 key) kvs with
           | Some kv => kv.2
           | None => default_value
           end)
  | _ => inl AttributeError
  end.

(** [extract_functions] *)
Definition extract_functions `{Builtins} : NodeCallable := fun state =>
  match get_default state "code" (VStr "") with
  | VStr code =>
      let functions :=
        List.filter (String.prefix "def ") (map strip (splitlines code)) in
      NodeReturnsSame (<["functions" := VList (map VStr functions)]> state)
  | _ => NodeRaises state "AttributeError"
  end.

(** What one line adds to [complexity] (lines 53-57). *)
Definition line_complexity `{Builtins} (line : string) : Z :=
  let stripped := strip line in
  (if String.prefix "for " stripped || String.prefix "while " stripped
   then 1 else 0)
  + (if str_in " if " (" " +:+ stripped +:+ " ")
        || String.prefix "if " stripped
     then 2 else 0).

(** [check_complexity] *)
Definition check_complexity `{Builtins} : NodeCallable := fun state =>
  let code := get_default state "code" (VStr "") in
  let functions := get_default state "functions" (VList []) in
  match py_len functions with
  | None => NodeRaises state "TypeError"
  | Some function_count =>
      match code with
      | VStr code =>
          let complexity :=
            fold_left (fun complexity line => complexity + line_complexity line)
                      (splitlines code) function_count in
          NodeReturnsSame
            (<["complexity_report" :=
                 VDict [("estimated_complexity", VInt complexity);
                        ("function_count", VInt function_count)]]> state)
      | _ => NodeRaises state "AttributeError"
      end
  end.

(** The issues of line [i] (lines 77-82). *)
Definition line_issues `{Builtins} (i : Z) (line : string) : list string :=
  ((if 100 <? Z.of_nat (length (str_chars line))
    then ["Line " +:+ py_str (VInt i) +:+ ": line too long (>100 chars)"]
    else [])
   ++ (if str_in "TODO" line
       then ["Line " +:+ py_str (VInt i) +:+ ": TODO comment present"]
       else [])
   ++ (if str_in "temp" line
       then ["Line " +:+ py_str (VInt i) +:+ ": variable name 'temp' used"]
       else []))%list.

(** The loop over [enumerate(lines, start=i)]. *)
Fixpoint issues_from `{Builtins} (i : Z) (lines : list string) : list string :=
  match lines with
  | [] => []
  | line :: rest => (line_issues i line ++ issues_from (i + 1) rest)%list
  end.

(** [detect_issues] *)
Definition detect_issues `{Builtins} : NodeCallable := fun state =>
  match get_default state "code" (VStr "") with
  | VStr code =>
      let issues := issues_from 1 (splitlines code) in
      NodeReturnsSame (<["issues" := VList (map VStr issues)]> state)
  | _ => NodeRaises state "AttributeError"
  end.

(** The list built at lines 96-113; [None] is the TypeError of
    [suggestions.extend(issues)] on a value that is not iterable. *)
Definition suggestions_for `{Builtins} (complexity : Z) (issues : Value)
    : option (list Value) :=
  let suggestions :=
    [VStr
       (if 15 <? complexity then
          "Overall complexity is high. Consider splitting large functions into smaller ones."
        else if 8 <? complexity then
          "Complexity is moderate. Look for opportunities to simplify nested conditions or loops."
        else "Complexity looks reasonable for this snippet.")] in
  if truthy issues then
    match py_iter issues with
    | None => None
    | Some items =>
        Some (suggestions ++ [VStr "Address the following issues detected:"]
                          ++ items)%list
    end
  else Some (suggestions ++ [VStr "No obvious issues detected. Good job!"])%list.

(** [suggest_improvements] *)
Definition suggest_improvements `{Builtins} : NodeCallable := fun state =>
  let issues := get_default state "issues" (VList []) in
  let complexity_report := get_default state "complexity_report" (VDict []) in
  match value_get_default complexity_report "estimated_complexity" (VInt 0) with
  | inl _ => NodeRaises state "AttributeError"
  | inr complexity =>
      match number complexity with
      | NotNumber => NodeRaises state "TypeError"
      | NFloat => float_case "suggest" state
      | NInt complexity =>
          match suggestions_for complexity issues with
          | None => NodeRaises state "TypeError"
          | Some suggestions =>
              NodeReturnsSame (<["suggestions" := VList suggestions]> state)
          end
      end
  end.

(** The score of lines 130-133. *)
Definition quality_score (complexity issue_count : Z) : Z :=
  let score := 100 in
  let score := score - Z.max 0 ((complexity - 5) * 3) in
  let score := score - issue_count * 5 in
  Z.max 0 (Z.min 100 score).

(** [evaluate_quality]. [history.append(score)] followed by
    [state["score_history"] = history] is read as binding the longer list
    in the state: what the state holds afterwards is right, but the append
    is in place in Python and also shows in any other mapping that refers to
    the same list object. [Objects.evaluate_quality] is the node with that
    effect. *)
Definition evaluate_quality `{Builtins} : NodeCallable := fun state =>
  let complexity_report := get_default state "complexity_report" (VDict []) in
  match value_get_default complexity_report "estimated_complexity" (VInt 0) with
  | inl _ => NodeRaises state "AttributeError"
  | inr complexity =>
      let issues := get_default state "issues" (VList []) in
      match number complexity with
      | NotNumber => NodeRaises state "TypeError"
      | NFloat => float_case "evaluate" state
      | NInt complexity =>
          match py_len issues with
          | None => NodeRaises state "TypeError"
          | Some issue_count =>
              let score := quality_score complexity issue_count in
              let state := <["quality_score" := VInt score]> state in
              match get_default state "score_history" (VList []) with
              | VList history =>
                  NodeReturnsSame
                    (<["score_history" := VList (history ++ [VInt score])]>
                       state)
              | _ => NodeRaises state "AttributeError"
              end
          end
      end
  end.

(** [loop_decider] *)
Definition loop_decider `{Builtins} : NodeCallable := fun state =>
  let score := get_default state "quality_score" (VInt 0) in
  let iteration := get_default state "iteration" (VInt 0) in
  match number score with
  | NotNumber => NodeRaises state "TypeError"
  | NFloat => float_case "loop" state
  | NInt score =>
      if QUALITY_THRESHOLD <=? score then
        NodeReturnsSame (<["_finished" := VBool true]> state)
      else
        match number iteration with
        | NotNumber => NodeRaises state "TypeError"
        | NFloat => float_case "loop" state
        | NInt iteration =>
            if iteration + 1 <? MAX_ITERATIONS then
              NodeReturnsSame
                (<["_next_node" := VStr "extract"]>
                   (<["iteration" := VInt (iteration + 1)]> state))
            else NodeReturnsSame (<["_finished" := VBool true]> state)
        end
  end.

(** The graph built by [register_default_workflow] (lines 191-215). *)
Definition code_review_graph `{Builtins} : Graph :=
  {| Models.id := DEFAULT_GRAPH_ID;
     nodes := {["extract" := extract_functions;
                "complexity" := check_complexity;
                "issues" := detect_issues;
                "suggest" := suggest_improvements;
                "evaluate" := evaluate_quality;
                "loop" := loop_decider]};
     edges := {["extract" := Some "complexity";
                "complexity" := Some "issues";
                "issues" := Some "suggest";
                "suggest" := Some "evaluate";
                "evaluate" := Some "loop";
                "loop" := None]};
     start_node_id := "extract";
     max_steps := 50 |}.

(** [register_default_workflow]: the registry and [GRAPHS] afterwards. *)
Definition register_default_workflow `{Builtins}
    (NODE_REGISTRY : NodeRegistry)
    (GRAPHS : Graphs) : NodeRegistry * Graphs :=
  let NODE_REGISTRY := register_node NODE_REGISTRY "extract" extract_functions in
  let NODE_REGISTRY := register_node NODE_REGISTRY "complexity" check_complexity in
  let NODE_REGISTRY := register_node NODE_REGISTRY "issues" detect_issues in
  let NODE_REGISTRY := register_node NODE_REGISTRY "suggest" suggest_improvements in
  let NODE_REGISTRY := register_node NODE_REGISTRY "evaluate" evaluate_quality in
  let NODE_REGISTRY := register_node NODE_REGISTRY "loop" loop_decider in
  (NODE_REGISTRY, save_graph GRAPHS code_review_graph).

(** What the analysis nodes compute from the text of [code]. *)
Definition functions_of `{Builtins} (code : string) : list string :=
  List.filter (String.prefix "def ") (map strip (splitlines code)).

Definition complexity_of `{Builtins} (code : string) : Z :=
  fold_left (fun complexity line => complexity + line_complexity line)
            (splitlines code) (Z.of_nat (length (functions_of code))).

Definition issues_of `{Builtins} (code : string) : list string :=
  issues_from 1 (splitlines code).

Definition score_of `{Builtins} (code : string) : Z :=
  quality_score (complexity_of code) (Z.of_nat (length (issues_of code))).

(** The nodes of one pass of the default workflow before [loop], in the
    order of the edges. *)
Definition analysis_nodes `{Builtins} : list NodeCallable :=
  [extract_functions; check_complexity; detect_issues; suggest_improvements;
   evaluate_quality].

(** The state a sequence of nodes leaves when each is called on the state
    the one before it returned; [None] when one of them raises. *)
Definition run_nodes (nodes : list NodeCallable) (state : State)
    : option State :=
  foldl (fun acc node => acc ≫= (fun state => returned_content (node state)))
        (Some state) nodes.

(** The names of the nodes of one pass of the default workflow. *)
Definition pass_names : list string :=
  ["extract"; "complexity"; "issues"; "suggest"; "evaluate"; "loop"].

Definition report_of `{Builtins} (code : string) : Value :=
  VDict [("estimated_complexity", VInt (complexity_of code));
         ("function_count", VInt (Z.of_nat (length (functions_of code))))].

Definition suggestions_of `{Builtins} (code : string) : list Value :=
  default [] (suggestions_for (complexity_of code)
                              (VList (map VStr (issues_of code)))).

(** The state after the analysis nodes, for a state whose [code] is the
    string [code] and whose [score_history] is the list [history]. *)
Definition analysed `{Builtins} (code : string) (history : list Value)
    (state : State) : State :=
  <["score_history" := VList (history ++ [VInt (score_of code)])]>
    (<["quality_score" := VInt (score_of code)]>
       (<["suggestions" := VList (suggestions_of code)]>
          (<["issues" := VList (map VStr (issues_of code))]>
             (<["complexity_report" := report_of code]>
                (<["functions" := VList (map VStr (functions_of code))]>
                   state))))).

(** A state from which a pass of the default workflow can start: [code] is
    absent or the string [code] (absent reads as the empty string),
    [score_history] is absent or the list [history], [iteration] is the int
    [i], a [complexity_report] is a mapping, and no control key is set. *)
Definition pass_ready (code : string) (history : list Value) (i : Z)
    (state : State) : Prop :=
  get_default state "code" (VStr "") = VStr code
  /\ get_default state "score_history" (VList []) = VList history
  /\ state !! "iteration" = Some (VInt i)
  /\ report_is_mapping state = true
  /\ truthy (get state "_finished") = false
  /\ state !! "_next_node" = None.

(** The number of passes the default workflow makes from iteration [i]. *)
Definition passes_of `{Builtins} (code : string) (i : Z) : Z :=
  if QUALITY_THRESHOLD <=? score_of code then 1
  else Z.max 1 (MAX_ITERATIONS - i).

(** Built-ins to run examples with: lines end at a line feed, spaces are
    stripped, a character is a byte. *)
Fixpoint demo_split (current : string) (s : string) : list string :=
  match s with
  | EmptyString =>
      if String.eqb current "" then [] else [current]
  | String c rest =>
      if Ascii.eqb c (Ascii.ascii_of_nat 10) then current :: demo_split "" rest
      else demo_split (current +:+ String c "") rest
  end.

Fixpoint demo_lstrip (s : string) : string :=
  match s with
  | String c rest =>
      if Ascii.eqb c (Ascii.ascii_of_nat 32) then demo_lstrip rest else s
  | EmptyString => s
  end.

Definition demo_rev (s : string) : string :=
  string_of_list_ascii (rev (list_ascii_of_string s)).

(** Three lines, each with a [TODO] and a [temp]. *)
Definition demo_code : string :=
  String.concat (String (Ascii.ascii_of_nat 10) "")
                ["x = 1  # TODO temp"; "y = 2  # TODO temp";
                 "z = 3  # TODO temp"].

Definition demo_builtins : Builtins :=
  {| splitlines := demo_split "";
     strip := fun s => demo_rev (demo_lstrip (demo_rev (demo_lstrip s)));
     str_chars := fun s =>
       map (fun c => String c "") (list_ascii_of_string s);
     float_case := fun _ state => NodeRaises state "float" |}.

(** What a run may change in [RUNS]: nothing without a [run_id]; with one,
    only the record of that run, whose [id], [graph_id] and [created_at]
    stay, and which is neither created nor removed. *)
Definition store_frame (run_id : option string) (R0 R : Runs) : Prop :=
  match run_id with
  | None => R = R0
  | Some r =>
      (forall k, k ≠ r -> R !! k = R0 !! k)
      /\ (R0 !! r = None -> R !! r = None)
      /\ (forall run0, R0 !! r = Some run0 ->
            exists run, R !! r = Some run
                        /\ Store.id run = Store.id run0
                        /\ graph_id run = graph_id run0
                        /\ created_at run = created_at run0)
  end.

(** The stored record of a run is the one found at the start or has the
    status [running]. *)
Definition store_not_terminal (run_id : option string) (R0 R : Runs) : Prop :=
  forall r run0, run_id = Some r -> R0 !! r = Some run0 ->
    exists run, R !! r = Some run
                /\ (run = run0 \/ Store.status run = running).

(** A log entry describes a node call: its summary is the one derived from
    the state the node returned. *)
Definition entry_describes (graph : Graph) (entry : ExecutionLogEntry)
    (called : string * State) : Prop :=
  exists (node : NodeCallable) content',
    nodes graph !! called.1 = Some node
    /\ returned_content (node called.2) = Some content'
    /\ _summarise_state content' = inr (summary entry)
    /\ node_id entry = called.1.

(** The log describes, entry by entry, the calls made since [calls0]. *)
Definition log_describes (graph : Graph) (calls0 : list (string * State))
    (f : Frame) (w : World) : Prop :=
  exists calls,
    invoked w = (calls0 ++ calls)%list
    /\ Forall2 (entry_describes graph) (log f) calls.

(** *** Basic facts about the operations *)

Lemma persist_cases run_id st lg s w :
  (exists r, run_id = Some r /\ run_known run_id (RUNS w) = false
             /\ persist run_id st lg s w = (Raised (run_not_found r), w))
  \/ (exists w2, persist run_id st lg s w = (Returned tt, w2)
                 /\ heap w2 = heap w /\ invoked w2 = invoked w
                 /\ run_known run_id (RUNS w) = true
                 /\ run_known run_id (RUNS w2) = true).
Proof.
  destruct run_id as [r|]; simpl.
  - unfold store_update, update_run.
    destruct (RUNS w !! r) as [run|] eqn:Hr.
    + right. eexists. split; [reflexivity|]. simpl.
      rewrite lookup_insert_eq. auto.
    + left. exists r. auto.
  - right. exists w. unfold mret, M_ret. auto.
Qed.

Lemma nodes_getitem_inr graph key name node :
  nodes_getitem graph key = inr (name, node) ->
  key = VStr name /\ nodes graph !! name = Some node.
Proof.
  unfold nodes_getitem. destruct key; try discriminate.
  destruct (nodes graph !! s) eqn:Hs; try discriminate.
  intros [= <- <-]. auto.
Qed.

Lemma loop_body_cases graph run_id f w :
  body_step graph run_id f w (loop_body graph run_id f w).
Proof.
  unfold loop_body, mbind, M_bind.
  destruct (nodes_getitem graph (current_node_id f)) as [e|[name node]] eqn:Hget;
    simpl.
  { by apply step_lookup_fails. }
  apply nodes_getitem_inr in Hget as [Hcur Hnode].
  unfold mret, M_ret.
  destruct (call name node (state f) w) as [[st|e|] w1] eqn:Hcall.
  - destruct (_summarise_state (heap w1 !!! st)) as [e|summary] eqn:Hsum; simpl.
    { eapply step_summary_fails; eauto. }
    unfold mret, M_ret.
    destruct (persist_cases run_id st
                (log f ++ [log_entry (step f + 1) name summary])%list
                (status f) w1) as [(r & _ & _ & He)|(w2 & Hp & _)].
    { rewrite He. eapply step_persist_fails; eauto. }
    rewrite Hp. unfold dict_get. fold (get (heap w2 !!! st) "_finished").
    destruct (truthy (get (heap w2 !!! st) "_finished")) eqn:Hfin.
    + eapply step_break; eauto.
    + unfold dict_pop. eapply step_continue; eauto.
  - unfold call in Hcall.
    destruct (node (heap w !!! state f)) eqn:Hn; simplify_eq.
    cbn [record_call heap].
    eapply step_node_raises; eauto.
  - unfold call in Hcall.
    destruct (node (heap w !!! state f)); discriminate Hcall.
Qed.

Lemma call_returned name node l w st w1 :
  call name node l w = (Returned st, w1) ->
  RUNS w1 = RUNS w /\ ticks w1 = ticks w
  /\ invoked w1 = (invoked w ++ [(name, heap w !!! l)])%list
  /\ returned_content (node (heap w !!! l)) = Some (heap w1 !!! st)
  /\ (forall l', l' ∈ dom (heap w) -> l' ≠ l -> heap w1 !! l' = heap w !! l')
  /\ (st = l \/ st ∉ dom (heap w))
  /\ dom (heap w) ⊆ dom (heap w1) /\ st ∈ dom (heap w1).
Proof.
  unfold call. intros Hcall.
  destruct (node (heap w !!! l)) as [after e|after|after result] eqn:Hn;
    simplify_eq; cbn [record_call set_heap heap RUNS ticks invoked].
  - split_and!; auto.
    + simpl. by rewrite lookup_total_insert_eq.
    + intros l' _ Hne. by rewrite lookup_insert_ne.
    + apply dom_insert_subseteq.
    + rewrite dom_insert_L. set_solver.
  - set (h := <[l := after]> (heap w)).
    pose proof (is_fresh (dom h)) as Hfresh.
    assert (dom (heap w) ⊆ dom h) as Hsub by apply dom_insert_subseteq.
    assert (fresh (dom h) ≠ l) as Hne.
    { intros Heq. apply Hfresh. rewrite Heq. unfold h.
      rewrite dom_insert_L. set_solver. }
    split_and!; auto.
    + simpl. by rewrite lookup_total_insert_eq.
    + intros l' Hin Hl'. rewrite lookup_insert_ne.
      * unfold h. by rewrite lookup_insert_ne.
      * intros Heq. apply Hfresh. rewrite Heq. by apply Hsub.
    + etrans; [exact Hsub|]. apply dom_insert_subseteq.
    + rewrite dom_insert_L. set_solver.
Qed.

Lemma loop_cond_true graph f :
  loop_cond graph f = true ->
  is_not_None (current_node_id f) = true /\ step f < max_steps graph.
Proof.
  unfold loop_cond. intros [H1 H2]%andb_prop. split; [done|lia].
Qed.

(** The loop does what [loop_run] says, and its fuel is never the reason it
    stops once there is as much of it as there are steps left. *)
Lemma while_loop_sound graph run_id fuel : forall f w,
  max_steps graph - step f <= Z.of_nat fuel ->
  exists o w' calls ending,
    while_loop fuel graph run_id f w = (o, w')
    /\ invoked w' = (invoked w ++ calls)%list
    /\ loop_run graph run_id (run_known run_id (RUNS w))
                (current_node_id f) (step f) (heap w !!! state f) calls ending
    /\ observed run_id ending o w'
    /\ run_known run_id (RUNS w') = run_known run_id (RUNS w).
Proof.
  induction fuel as [|fuel IH]; intros f w Hfuel; simpl;
    destruct (loop_cond graph f) eqn:Hc.
  - apply loop_cond_true in Hc. lia.
  - exists (Returned (loop_else f)), w, [],
      (Exhausted (current_node_id f) (step f) (heap w !!! state f)).
    unfold mret, M_ret. rewrite app_nil_r. split_and!; auto.
    + by constructor.
    + simpl. eauto 10.
  - pose proof (loop_cond_true _ _ Hc) as [Hnn Hlt].
    unfold mbind, M_bind.
    pose proof (loop_body_cases graph run_id f w) as Hstep.
    remember (loop_body graph run_id f w) as r eqn:Hr. clear Hr.
    destruct Hstep as
      [e Hget
      |name node after e Hcur Hnode Hraise
      |name node st w1 e Hcur Hnode Hcall Hsum
      |name node st w1 summary e Hcur Hnode Hcall Hsum Hp
      |name node st w1' summary w2 Hcur Hnode Hcall Hsum Hp Hfin
      |name node st w1' summary w2 Hcur Hnode Hcall Hsum Hp Hfin].
    + exists (Raised e), w, [], (Failed e). rewrite app_nil_r.
      split_and!; auto.
      apply run_lookup_fails; auto.
      unfold loop_cond in Hc. done.
    + eexists _, _, [(name, heap w !!! state f)], (Failed (NodeFailure e)).
      split; [reflexivity|]. rewrite Hcur.
      split_and!; [done| |by simpl|done].
      eapply run_node_raises; eauto.
    + apply call_returned in Hcall as (HR & _ & Hinv & Hret & _).
      eexists _, _, [(name, heap w !!! state f)], (Failed e).
      split; [reflexivity|]. rewrite Hcur.
      split_and!; [done| |by simpl|by rewrite HR].
      eapply run_summary_fails; eauto.
    + apply call_returned in Hcall as (HR & _ & Hinv & Hret & _).
      destruct (persist_cases run_id st
                  (log f ++ [log_entry (step f + 1) name summary])%list
                  (status f) w1) as [(r & Hrid & Hk & He)|(w2 & Hp2 & _)];
        [|congruence].
      rewrite He in Hp. simplify_eq.
      eexists _, _, [(name, heap w !!! state f)], (Failed (run_not_found r)).
      split; [reflexivity|]. rewrite Hcur.
      split_and!; [done| |by simpl|by rewrite HR].
      rewrite <- HR. eapply run_persist_fails; eauto.
    + apply call_returned in Hcall as (HR & _ & Hinv & Hret & _).
      destruct (persist_cases run_id st
                  (log f ++ [log_entry (step f + 1) name summary])%list
                  (status f) w1')
        as [(r & Hrid & Hk & He)|(w2' & Hp2 & Hh & Hi & Hk & Hk2)];
        [congruence|].
      rewrite Hp2 in Hp. simplify_eq.
      eexists _, _, [(name, heap w !!! state f)],
        (Finished (step f + 1) (heap w1' !!! st)).
      split; [reflexivity|]. rewrite Hcur. split_and!.
      * congruence.
      * rewrite Hh in Hfin. rewrite <- HR.
        eapply run_break; eauto.
      * simpl. eexists. split; [reflexivity|]. simpl.
        split_and!; congruence.
      * rewrite <- HR. congruence.
    + apply call_returned in Hcall as (HR & _ & Hinv & Hret & _).
      destruct (persist_cases run_id st
                  (log f ++ [log_entry (step f + 1) name summary])%list
                  (status f) w1')
        as [(r & Hrid & Hk & He)|(w2' & Hp2 & Hh & Hi & Hk & Hk2)];
        [congruence|].
      rewrite Hp2 in Hp. simplify_eq.
      match goal with
      | |- context [while_loop fuel graph run_id ?f1 ?w3] =>
          destruct (IH f1 w3)
            as (o & w' & calls & ending & Hw & Hinv' & Hrun & Hobs & Hkn)
      end.
      { simpl. lia. }
      exists o, w', ((name, heap w !!! state f) :: calls), ending.
      split; [exact Hw|]. rewrite Hcur.
      simpl in Hinv', Hrun, Hkn. rewrite lookup_total_insert_eq in Hrun.
      rewrite Hh in Hrun, Hfin. split_and!.
      * rewrite Hinv', Hi, Hinv, <- app_assoc. reflexivity.
      * rewrite Hk2 in Hrun. rewrite <- HR, Hk.
        eapply run_continue; eauto.
      * exact Hobs.
      * rewrite Hkn, <- HR. congruence.
  - exists (Returned (loop_else f)), w, [],
      (Exhausted (current_node_id f) (step f) (heap w !!! state f)).
    unfold mret, M_ret. rewrite app_nil_r. split_and!; auto.
    + by constructor.
    + simpl. eauto 10.
Qed.

Lemma persist_stored r st lg s w w2 :
  persist (Some r) st lg s w = (Returned tt, w2) ->
  exists run, RUNS w2 !! r = Some run /\ Store.state run = st
              /\ Store.log run = lg /\ Store.status run = s.
Proof.
  simpl. unfold store_update, update_run.
  destruct (RUNS w !! r) as [run|]; [|discriminate].
  intros [= <-]. simpl. rewrite lookup_insert_eq. eauto.
Qed.

Lemma init_copy initial_state w :
  let c := fresh (dom (heap w)) in
  exists w1,
    (copy ← dict_copy initial_state;
     _ ← dict_setdefault copy "iteration" (VInt 0);
     mret copy) w = (Returned c, w1)
    /\ heap w1 = <[c := seeded (heap w !!! initial_state)]> (heap w)
    /\ RUNS w1 = RUNS w /\ ticks w1 = ticks w /\ invoked w1 = invoked w.
Proof.
  intros c. unfold mbind, M_bind, dict_copy, dict_setdefault, mret, M_ret.
  fold c. cbn [set_heap heap]. rewrite lookup_total_insert_eq. unfold seeded.
  destruct ((heap w !!! initial_state) !! "iteration") eqn:Hit.
  - eexists. split; [reflexivity|]. simpl. auto.
  - eexists. split; [reflexivity|]. simpl. rewrite insert_insert_eq. auto.
Qed.

(** [run_graph_frame] never runs out of fuel, and is described by
    [loop_run] from the start node, step 0 and the seeded copy. *)
Lemma run_graph_frame_sound graph initial_state run_id w :
  exists o w' calls ending,
    run_graph_frame graph initial_state run_id w = (o, w')
    /\ invoked w' = (invoked w ++ calls)%list
    /\ loop_run graph run_id (run_known run_id (RUNS w))
                (VStr (start_node_id graph)) 0
                (seeded (heap w !!! initial_state)) calls ending
    /\ observed run_id
                (final_ending run_id (run_known run_id (RUNS w)) ending) o w'
    /\ (forall f r, o = Returned f -> run_id = Some r ->
          exists run, RUNS w' !! r = Some run
                      /\ Store.state run = state f
                      /\ Store.log run = log f
                      /\ Store.status run = status f).
Proof.
  destruct (init_copy initial_state w) as (w1 & Hinit & Hheap & HR & _ & Hinv).
  set (c := fresh (dom (heap w))) in *.
  set (f0 := {| state := c; log := [];
                current_node_id := VStr (start_node_id graph);
                step := 0; status := running |}).
  destruct (while_loop_sound graph run_id (Z.to_nat (max_steps graph)) f0 w1)
    as (o & w' & calls & ending & Hw & Hinv' & Hrun & Hobs & Hkn).
  { simpl. lia. }
  simpl in Hrun. rewrite Hheap, lookup_total_insert_eq, HR in Hrun.
  rewrite HR in Hkn. rewrite Hinv in Hinv'.
  assert (run_graph_frame graph initial_state run_id w
          = (f ← (fun _ => (o, w')); _ ← persist run_id (state f) (log f) (status f);
             mret f) w) as ->.
  { unfold run_graph_frame, mbind, M_bind, dict_copy, dict_setdefault.
    unfold mbind, M_bind, dict_copy, dict_setdefault, mret, M_ret in Hinit.
    fold c. fold c in Hinit. cbn [set_heap heap] in *.
    destruct ((<[c:=heap w !!! initial_state]> (heap w) !!! c) !! "iteration");
      simplify_eq; fold f0; by rewrite Hw. }
  unfold mbind, M_bind.
  destruct ending as [cur n d|n d|e]; simpl in Hobs.
  - destruct Hobs as (f & -> & Hcur & Hn & Hd & Hst).
    destruct (persist_cases run_id (state f) (log f) (status f) w')
      as [(r & Hrid & Hk & He)|(w2 & Hp & Hh & Hi & Hk & Hk2)].
    + rewrite He. exists (Raised (run_not_found r)), w', calls, (Exhausted cur n d).
      subst run_id. rewrite Hkn in Hk.
      split_and!; auto.
      * cbn [final_ending]. by rewrite Hk.
      * intros ? ? [=].
    + rewrite Hp. exists (Returned f), w2, calls, (Exhausted cur n d).
      unfold mret, M_ret. split_and!; auto.
      * congruence.
      * rewrite Hkn in Hk. rewrite Hk.
        destruct run_id; simpl; exists f; rewrite Hh; auto.
      * intros f' r [= <-] ->.
        destruct (persist_stored _ _ _ _ _ _ Hp) as (run & ? & ? & ? & ?).
        eauto.
  - destruct Hobs as (f & -> & Hn & Hd & Hst).
    destruct (persist_cases run_id (state f) (log f) (status f) w')
      as [(r & Hrid & Hk & He)|(w2 & Hp & Hh & Hi & Hk & Hk2)].
    + rewrite He. exists (Raised (run_not_found r)), w', calls, (Finished n d).
      subst run_id. rewrite Hkn in Hk.
      split_and!; auto.
      * cbn [final_ending]. by rewrite Hk.
      * intros ? ? [=].
    + rewrite Hp. exists (Returned f), w2, calls, (Finished n d).
      unfold mret, M_ret. split_and!; auto.
      * congruence.
      * rewrite Hkn in Hk. rewrite Hk.
        destruct run_id; simpl; exists f; rewrite Hh; auto.
      * intros f' r [= <-] ->.
        destruct (persist_stored _ _ _ _ _ _ Hp) as (run & ? & ? & ? & ?).
        eauto.
  - subst o. exists (Raised e), w', calls, (Failed e).
    split_and!; [done|done|done|by simpl|intros ? ? [=]].
Qed.

(** An invariant of the loop body that holds when the loop is entered
    holds when it is left (Hoare's rule for [while ... else], with the two
    other exits of the body, [break] and an exception). *)
Lemma while_loop_rule graph run_id
    (I : Frame -> World -> Prop) (Post : Outcome Frame -> World -> Prop) :
  (forall f w, I f w -> loop_cond graph f = false ->
     Post (Returned (loop_else f)) w) ->
  (forall f w o w', I f w -> loop_cond graph f = true ->
     body_step graph run_id f w (o, w') ->
     match o with
     | Returned (Continue f') => I f' w'
     | Returned (Break f') => Post (Returned f') w'
     | Raised e => Post (Raised e) w'
     | OutOfFuel => True
     end) ->
  forall fuel f w o w', I f w ->
    while_loop fuel graph run_id f w = (o, w') -> o ≠ OutOfFuel -> Post o w'.
Proof.
  intros Hexit Hbody.
  induction fuel as [|fuel IH]; intros f w o w' HI Hw Hne; simpl in Hw;
    destruct (loop_cond graph f) eqn:Hc.
  - unfold out_of_fuel in Hw. by simplify_eq.
  - unfold mret, M_ret in Hw. simplify_eq. by apply Hexit.
  - unfold mbind, M_bind in Hw.
    pose proof (loop_body_cases graph run_id f w) as Hstep.
    destruct (loop_body graph run_id f w) as [[[f'|f']|e|] w1].
    + eapply (IH f' w1); [|exact Hw|exact Hne].
      exact (Hbody _ _ _ _ HI Hc Hstep).
    + unfold mret, M_ret in Hw. simplify_eq.
      exact (Hbody _ _ _ _ HI Hc Hstep).
    + simplify_eq. exact (Hbody _ _ _ _ HI Hc Hstep).
    + by simplify_eq.
  - unfold mret, M_ret in Hw. simplify_eq. by apply Hexit.
Qed.

(** More fuel than needed changes nothing. *)
Lemma while_loop_fuel graph run_id fuel : forall fuel' f w o w',
  while_loop fuel graph run_id f w = (o, w') -> o ≠ OutOfFuel ->
  (fuel <= fuel')%nat ->
  while_loop fuel' graph run_id f w = (o, w').
Proof.
  induction fuel as [|fuel IH]; intros fuel' f w o w' Hw Hne Hle;
    destruct fuel' as [|fuel']; simpl in *; try lia;
    destruct (loop_cond graph f) eqn:Hc; try done.
  - unfold out_of_fuel in Hw. by simplify_eq.
  - unfold mbind, M_bind in *.
    destruct (loop_body graph run_id f w) as [[[f1|f1]|e|] w1]; try done.
    apply IH; auto. lia.
Qed.

(** The number of calls is bounded by the steps left, and a loop that ends
    normally has counted them in [step]. *)
Lemma loop_run_bound graph run_id known current step content calls ending :
  loop_run graph run_id known current step content calls ending ->
  Z.of_nat (length calls) <= Z.max 0 (max_steps graph - step)
  /\ match ending with
     | Exhausted _ n _ | Finished n _ => n = step + Z.of_nat (length calls)
     | Failed _ => True
     end.
Proof.
  induction 1; simpl; try lia.
  destruct IHloop_run as [Hlen Hend]. split; [lia|].
  destruct ending; lia.
Qed.

Lemma loop_run_exhausted graph run_id known current step content calls
    ending :
  loop_run graph run_id known current step content calls ending ->
  forall current' n content',
    ending = Exhausted current' n content' ->
    is_not_None current' && (n <? max_steps graph) = false.
Proof.
  induction 1; intros current' n' content'' HE; try discriminate HE.
  - by injection HE as <- <- <-.
  - eauto.
Qed.

Lemma run_graph_of_frame graph initial_state run_id w o w' :
  run_graph_frame graph initial_state run_id w = (o, w') ->
  run_graph graph initial_state run_id w
  = (match o with
     | Returned f => Returned (state f, log f)
     | Raised e => Raised e
     | OutOfFuel => OutOfFuel
     end, w').
Proof.
  intros H. unfold run_graph, mbind, M_bind. rewrite H. by destruct o.
Qed.

Lemma observed_not_out_of_fuel run_id ending o w :
  observed run_id ending o w -> o ≠ OutOfFuel.
Proof.
  destruct ending; simpl;
    [intros (f & -> & _)|intros (f & -> & _)|intros ->]; done.
Qed.

Lemma observed_final_returned run_id known ending f w :
  observed run_id (final_ending run_id known ending) (Returned f) w ->
  observed run_id ending (Returned f) w.
Proof.
  destruct ending, run_id as [r|], known; simpl; auto; intros [=].
Qed.

(** C1. For every graph and every initial state, [run_graph] terminates
    (it returns or raises; its loop is never cut off for lack of fuel, and
    any larger amount of fuel gives the same loop result) after at most
    [max_steps] node invocations, whatever the nodes write into the state;
    a run that returns has executed its loop body exactly as often as it has
    invoked a node, at most [max_steps] times. *)
Theorem C1_run_graph_terminates_within_max_steps
    graph initial_state run_id w :
  exists o w' calls,
    run_graph graph initial_state run_id w = (o, w')
    /\ o ≠ OutOfFuel
    /\ invoked w' = (invoked w ++ calls)%list
    /\ Z.of_nat (length calls) <= Z.max 0 (max_steps graph)
    /\ (forall fo, run_graph_frame graph initial_state run_id w = (fo, w') ->
         forall f, fo = Returned f ->
           step f = Z.of_nat (length calls)
           /\ step f <= Z.max 0 (max_steps graph))
    /\ (forall fuel f0 w0 fr w1,
          while_loop (Z.to_nat (max_steps graph - step f0)) graph run_id f0 w0
            = (fr, w1) ->
          fr ≠ OutOfFuel
          /\ ((Z.to_nat (max_steps graph - step f0) <= fuel)%nat ->
              while_loop fuel graph run_id f0 w0 = (fr, w1))).
Proof.
  destruct (run_graph_frame_sound graph initial_state run_id w)
    as (o & w' & calls & ending & Hrun & Hinv & Hloop & Hobs & _).
  apply loop_run_bound in Hloop as [Hlen Hend].
  eexists _, w', calls. split; [by apply run_graph_of_frame|].
  pose proof (observed_not_out_of_fuel _ _ _ _ Hobs) as Ho.
  split_and!.
  - by destruct o.
  - done.
  - lia.
  - intros fo Hfo f ->. rewrite Hrun in Hfo. simplify_eq.
    apply observed_final_returned in Hobs.
    destruct ending as [cur n d|n d|e]; simpl in Hobs.
    + destruct Hobs as (f' & [= <-] & _ & Hn & _). lia.
    + destruct Hobs as (f' & [= <-] & Hn & _). lia.
    + discriminate Hobs.
  - intros fuel f0 w0 fr w1 Hw.
    destruct (while_loop_sound graph run_id
                (Z.to_nat (max_steps graph - step f0)) f0 w0)
      as (o1 & w1' & calls1 & ending1 & Hw1 & _ & _ & Hobs1 & _); [lia|].
    rewrite Hw in Hw1. simplify_eq.
    pose proof (observed_not_out_of_fuel _ _ _ _ Hobs1) as Ho1.
    split; [done|]. intros Hle. eapply while_loop_fuel; eauto.
Qed.

Lemma persist_returned run_id st lg s w w2 :
  persist run_id st lg s w = (Returned tt, w2) ->
  heap w2 = heap w /\ invoked w2 = invoked w.
Proof.
  intros Hp.
  destruct (persist_cases run_id st lg s w)
    as [(r & _ & _ & He)|(w2' & Hp' & Hh & Hi & _)]; [congruence|].
  rewrite Hp in Hp'. by simplify_eq.
Qed.

(** [run_graph_frame] is the copy, the loop, and the last [update_run]. *)
Lemma run_graph_frame_unfold graph initial_state run_id w :
  let c := fresh (dom (heap w)) in
  exists w1,
    heap w1 = <[c := seeded (heap w !!! initial_state)]> (heap w)
    /\ RUNS w1 = RUNS w /\ ticks w1 = ticks w /\ invoked w1 = invoked w
    /\ run_graph_frame graph initial_state run_id w
       = (f ← while_loop (Z.to_nat (max_steps graph)) graph run_id
                {| state := c; log := [];
                   current_node_id := VStr (start_node_id graph);
                   step := 0; status := running |};
          _ ← persist run_id (state f) (log f) (status f);
          mret f) w1.
Proof.
  intros c.
  destruct (init_copy initial_state w) as (w1 & Hinit & Hheap & HR & Ht & Hinv).
  exists w1. split_and!; auto.
  unfold run_graph_frame, mbind, M_bind, dict_copy, dict_setdefault.
  unfold mbind, M_bind, dict_copy, dict_setdefault, mret, M_ret in Hinit.
  fold c. fold c in Hinit. cbn [set_heap heap] in *.
  destruct ((<[c:=heap w !!! initial_state]> (heap w) !!! c) !! "iteration");
    by simplify_eq.
Qed.

Lemma log_agrees_step calls0 f w name arg summary w2 st cur status' :
  log_agrees calls0 f w ->
  invoked w2 = (invoked w ++ [(name, arg)])%list ->
  log_agrees calls0
    {| state := st;
       log := (log f ++ [log_entry (step f + 1) name summary])%list;
       current_node_id := cur; step := step f + 1; status := status' |} w2.
Proof.
  intros (calls & Hinv & Hsteps & Hids & Hstep) Hinv2.
  exists (calls ++ [(name, arg)])%list. simpl.
  rewrite Hinv2, Hinv, !map_app, !length_app, Hsteps, Hids. simpl.
  split_and!.
  - by rewrite <- app_assoc.
  - replace (length calls + 1)%nat with (S (length calls)) by lia.
    rewrite seqZ_S. do 2 f_equal. lia.
  - reflexivity.
  - lia.
Qed.

Lemma while_loop_log graph run_id fuel calls0 f w f' w' :
  log_agrees calls0 f w ->
  while_loop fuel graph run_id f w = (Returned f', w') ->
  log_agrees calls0 f' w'.
Proof.
  intros HI Hw.
  refine (while_loop_rule graph run_id (log_agrees calls0)
            (fun o w => forall f', o = Returned f' -> log_agrees calls0 f' w)
            _ _ fuel f w _ w' HI Hw _ f' eq_refl); [| |done].
  - intros f0 w0 H0 _ f1 [= <-]. exact H0.
  - intros f0 w0 o w1 H0 _ Hstep.
    inversion Hstep as
      [e Hget
      |name node after e Hcur Hnode Hraise
      |name node st wa e Hcur Hnode Hcall Hsum
      |name node st wa summary e Hcur Hnode Hcall Hsum Hp
      |name node st wa summary w2 Hcur Hnode Hcall Hsum Hp Hfin
      |name node st wa summary w2 Hcur Hnode Hcall Hsum Hp Hfin]; subst;
      try done.
    + intros f1 [= <-].
      apply call_returned in Hcall as (_ & _ & Hinv & _).
      apply persist_returned in Hp as [_ Hi].
      eapply log_agrees_step; eauto. by rewrite Hi.
    + apply call_returned in Hcall as (_ & _ & Hinv & _).
      apply persist_returned in Hp as [_ Hi].
      eapply log_agrees_step; eauto. simpl. by rewrite Hi.
Qed.

Lemma run_graph_log graph initial_state run_id w st lg w' :
  run_graph graph initial_state run_id w = (Returned (st, lg), w') ->
  exists calls,
    invoked w' = (invoked w ++ calls)%list
    /\ length lg = length calls
    /\ map Models.step lg = seqZ 1 (Z.of_nat (length calls))
    /\ map node_id lg = calls.*1.
Proof.
  intros Hrun.
  destruct (run_graph_frame_unfold graph initial_state run_id w)
    as (w1 & _ & _ & _ & Hinv & Hunf).
  unfold run_graph in Hrun. unfold mbind at 1, M_bind at 1 in Hrun.
  rewrite Hunf in Hrun. unfold mbind, M_bind in Hrun.
  match type of Hrun with
  | context [while_loop ?n graph run_id ?f0 w1] =>
      destruct (while_loop n graph run_id f0 w1) as [[f| |] w2] eqn:Hw;
      try discriminate Hrun;
      assert (log_agrees (invoked w) f w2) as (calls & Hi & Hsteps & Hids & _)
  end.
  { eapply while_loop_log; [|exact Hw].
    exists []. rewrite app_nil_r. by simpl. }
  destruct (persist run_id (state f) (log f) (status f) w2)
    as [[[]| |] w3] eqn:Hp; try discriminate Hrun.
  apply persist_returned in Hp as [_ Hi3].
  unfold mret, M_ret in Hrun. simplify_eq.
  exists calls. split_and!; try done.
  - congruence.
  - rewrite <- (length_map Models.step), Hsteps, length_seqZ. lia.
Qed.

Lemma while_loop_heap_frame graph run_id fuel h0 f w o w' :
  heap_frame h0 f w ->
  while_loop fuel graph run_id f w = (o, w') -> o ≠ OutOfFuel ->
  (forall l, l ∈ dom h0 -> heap w' !! l = h0 !! l)
  /\ (forall f', o = Returned f' -> state f' ∉ dom h0).
Proof.
  intros HI Hw Hne.
  refine (while_loop_rule graph run_id (heap_frame h0)
            (fun o w => (forall l, l ∈ dom h0 -> heap w !! l = h0 !! l)
                        /\ (forall f', o = Returned f' -> state f' ∉ dom h0))
            _ _ fuel f w o w' HI Hw Hne).
  - intros f0 w0 (Hst & Hdom & Hsame) _. split; [done|].
    by intros f1 [= <-].
  - clear. intros f0 w0 o w1 (Hst & Hdom & Hsame) _ Hstep.
    assert (forall name node st wa,
              call name node (state f0) w0 = (Returned st, wa) ->
              (st ∉ dom h0) /\ (dom h0 ⊆ dom (heap wa))
              /\ (forall l, l ∈ dom h0 -> heap wa !! l = h0 !! l)) as Hcall'.
    { intros name node st wa Hcall.
      apply call_returned in Hcall as (_ & _ & _ & _ & Hoth & Hfresh & Hsub & _).
      split_and!.
      - destruct Hfresh as [->|Hfresh]; [done|].
        intros Hin. apply Hfresh. by apply Hdom.
      - by etrans.
      - intros l Hl. rewrite Hoth; [by apply Hsame|by apply Hdom|].
        intros ->. done. }
    inversion Hstep as
      [e Hget
      |name node after e Hcur Hnode Hraise
      |name node st wa e Hcur Hnode Hcall Hsum
      |name node st wa summary e Hcur Hnode Hcall Hsum Hp
      |name node st wa summary w2 Hcur Hnode Hcall Hsum Hp Hfin
      |name node st wa summary w2 Hcur Hnode Hcall Hsum Hp Hfin]; subst.
    + split; [done|]. intros ? [=].
    + split; [|intros ? [=]]. intros l Hl. simpl.
      rewrite lookup_insert_ne; [by apply Hsame|]. intros <-. done.
    + destruct (Hcall' _ _ _ _ Hcall) as (_ & _ & H). split; [done|].
      intros ? [=].
    + destruct (Hcall' _ _ _ _ Hcall) as (_ & _ & H). split; [done|].
      intros ? [=].
    + destruct (Hcall' _ _ _ _ Hcall) as (Hst' & _ & H).
      apply persist_returned in Hp as [Hh _]. rewrite Hh.
      split; [done|]. by intros ? [= <-].
    + destruct (Hcall' _ _ _ _ Hcall) as (Hst' & Hsub & H).
      apply persist_returned in Hp as [Hh _]. rewrite Hh.
      split_and!; simpl.
      * done.
      * etrans; [exact Hsub|]. apply dom_insert_subseteq.
      * intros l Hl. rewrite lookup_insert_ne; [by apply H|].
        intros <-. done.
Qed.

Lemma loop_run_head graph run_id known current step content calls ending :
  loop_run graph run_id known current step content calls ending ->
  forall name arg, head calls = Some (name, arg) ->
    current = VStr name /\ arg = content.
Proof.
  destruct 1; simpl; intros name' arg' Hhd; by simplify_eq.
Qed.

Lemma seeded_lookup (content : State) :
  (forall key, key ≠ "iteration" -> seeded content !! key = content !! key)
  /\ seeded content !! "iteration"
     = Some (default (VInt 0) (content !! "iteration")).
Proof.
  unfold seeded. destruct (content !! "iteration") eqn:Hit; simpl.
  - auto.
  - split; [|by rewrite lookup_insert_eq].
    intros key Hne. by rewrite lookup_insert_ne.
Qed.

(** However it ends, a run leaves every mapping that existed before the
    call as it was, and the state it returns is none of them. *)
Lemma run_graph_frame_heap graph initial_state run_id w fo w' :
  run_graph_frame graph initial_state run_id w = (fo, w') ->
  (forall l, l ∈ dom (heap w) -> heap w' !! l = heap w !! l)
  /\ (forall f, fo = Returned f -> state f ∉ dom (heap w)).
Proof.
  intros Hfr.
  assert (fo ≠ OutOfFuel) as Hfo.
  { destruct (run_graph_frame_sound graph initial_state run_id w)
      as (fo' & w'' & calls & ending & Hfr' & _ & _ & Hobs & _).
    rewrite Hfr in Hfr'. injection Hfr' as <- <-.
    by eapply observed_not_out_of_fuel. }
  destruct (run_graph_frame_unfold graph initial_state run_id w)
    as (w1 & Hheap & _ & _ & _ & Hunf).
  rewrite Hunf in Hfr. unfold mbind, M_bind in Hfr.
  match type of Hfr with
  | context [while_loop ?n graph run_id ?f0 w1] =>
      destruct (while_loop n graph run_id f0 w1) as [o2 w2] eqn:Hw;
      destruct (while_loop_heap_frame graph run_id n (heap w) f0 w1 o2 w2)
        as [Hs2 Hst2]; [|exact Hw| |]
  end.
  - split_and!; simpl.
    + apply is_fresh.
    + rewrite Hheap. apply dom_insert_subseteq.
    + intros l Hl. rewrite Hheap, lookup_insert_ne; [done|].
      intros <-. by apply (is_fresh (dom (heap w))).
  - destruct o2; simplify_eq; done.
  - destruct o2 as [f| |]; simplify_eq; [|split; [done|intros ? [=]]].
    destruct (persist run_id (state f) (log f) (status f) w2)
      as [[[]| |] w3] eqn:Hp; simplify_eq.
    + apply persist_returned in Hp as [Hh _]. unfold mret, M_ret in Hfr.
      simplify_eq. rewrite Hh. split; [done|]. intros ? [= <-]. eauto.
    + destruct (persist_cases run_id (state f) (log f) (status f) w2)
        as [(r & _ & _ & He)|(w3 & Hp' & _)]; [|congruence].
      rewrite He in Hp. simplify_eq. split; [done|intros ? [=]].
Qed.

(** The bindings of the caller's mapping are kept. [run_graph] leaves
    the bindings of the caller's initial state mapping, and of every mapping
    that existed before the call, as they were, however the call ends: it
    works on a copy, a new object. The content of that copy, which is what
    the first node receives (and what is returned when no node runs), is the
    caller's content with [iteration] bound to 0 when the caller's mapping
    has no such key, and with the caller's own binding otherwise; every
    other key is bound as in the caller's mapping. This is about which value
    each key is bound to; values are immutable here, so it says nothing
    about a list or mapping that the caller's mapping shares with the copy
    (see [Objects]). *)
Lemma initial_state_bindings_kept_and_copy_seeded
    graph initial_state run_id w o w' :
  run_graph graph initial_state run_id w = (o, w') ->
  (forall l, l ∈ dom (heap w) -> heap w' !! l = heap w !! l)
  /\ (forall st lg, o = Returned (st, lg) -> st ∉ dom (heap w))
  /\ (exists calls,
        invoked w' = (invoked w ++ calls)%list
        /\ (forall name arg, head calls = Some (name, arg) ->
              arg = seeded (heap w !!! initial_state))
        /\ (forall st lg, calls = [] -> o = Returned (st, lg) ->
              heap w' !!! st = seeded (heap w !!! initial_state)))
  /\ (forall key, key ≠ "iteration" ->
        seeded (heap w !!! initial_state) !! key
        = (heap w !!! initial_state) !! key)
  /\ seeded (heap w !!! initial_state) !! "iteration"
     = Some (default (VInt 0) ((heap w !!! initial_state) !! "iteration")).
Proof.
  intros Hrun.
  destruct (run_graph_frame_sound graph initial_state run_id w)
    as (fo & w'' & calls & ending & Hfr & Hinv & Hloop & Hobs & _).
  rewrite (run_graph_of_frame _ _ _ _ _ _ Hfr) in Hrun. simplify_eq.
  pose proof (observed_not_out_of_fuel _ _ _ _ Hobs) as Hfo.
  destruct (run_graph_frame_heap _ _ _ _ _ _ Hfr) as [Hsame Hst].
  split_and!.
  - done.
  - intros st lg Ho. destruct fo; simplify_eq. eauto.
  - exists calls. split_and!; [done| |].
    + intros name arg Hhd. by destruct (loop_run_head _ _ _ _ _ _ _ _ Hloop _ _ Hhd).
    + intros st lg -> Ho. destruct fo as [f| |]; simplify_eq.
      apply observed_final_returned in Hobs.
      inversion Hloop; subst; simpl in Hobs.
      * by destruct Hobs as (f' & [= <-] & _ & _ & Hd & _).
      * discriminate Hobs.
  - apply seeded_lookup.
  - apply seeded_lookup.
Qed.

Lemma nodes_getitem_error graph key e x :
  nodes_getitem graph key = inl e -> e ≠ NodeFailure x.
Proof.
  unfold nodes_getitem. destruct key; try (intros [= <-]; done).
  destruct (nodes graph !! s); intros [= <-]; done.
Qed.

Lemma summarise_error content e :
  _summarise_state content = inl e -> e = AttributeError.
Proof.
  unfold _summarise_state, value_get.
  destruct (content !! "complexity_report") as [[]|]; simpl; congruence.
Qed.

Lemma summarise_fails content :
  report_is_mapping content = false ->
  _summarise_state content = inl AttributeError.
Proof.
  unfold report_is_mapping, _summarise_state, value_get.
  by destruct (content !! "complexity_report") as [[]|].
Qed.

(** A call after which the summary of the returned state cannot be derived
    is the last one, and the summary's exception leaves the loop. *)
Lemma loop_run_summary_fails_last
    graph run_id known current step content calls ending :
  loop_run graph run_id known current step content calls ending ->
  forall name arg node content' e,
    (name, arg) ∈ calls -> nodes graph !! name = Some node ->
    returned_content (node arg) = Some content' ->
    _summarise_state content' = inl e ->
    ending = Failed e /\ last calls = Some (name, arg).
Proof.
  induction 1 as
    [cur n d Hc
    |cur n d e0 Hc Hget
    |name0 node0 n d after0 e0 Hlt Hnode0 Hraise0
    |name0 node0 n d d' e0 Hlt Hnode0 Hret Hsum
    |name0 node0 n d d' summary r Hlt Hnode0 Hret Hsum Hrid Hk
    |name0 node0 n d d' summary Hlt Hnode0 Hret Hsum Hk Hfin
    |name0 node0 n d d' summary calls ending Hlt Hnode0 Hret Hsum Hk Hfin Hrest IH];
    intros name arg node content' e Hin Hnode Hcontent Hfail.
  - by apply elem_of_nil in Hin.
  - by apply elem_of_nil in Hin.
  - apply list_elem_of_singleton in Hin. simplify_eq.
    rewrite Hraise0 in Hcontent. discriminate Hcontent.
  - apply list_elem_of_singleton in Hin. simplify_eq.
    split; [congruence|done].
  - apply list_elem_of_singleton in Hin. simplify_eq. congruence.
  - apply list_elem_of_singleton in Hin. simplify_eq. congruence.
  - apply elem_of_cons in Hin as [Heq|Hin].
    + simplify_eq. congruence.
    + destruct (IH _ _ _ _ _ Hin Hnode Hcontent Hfail) as [-> Hlast].
      split; [done|]. destruct calls; [by apply elem_of_nil in Hin|done].
Qed.

(** A call on which the node raises is the last one, and its exception is
    the one that leaves the loop. *)
Lemma loop_run_raise_last graph run_id known current step content calls ending :
  loop_run graph run_id known current step content calls ending ->
  forall name arg node after e,
    (name, arg) ∈ calls -> nodes graph !! name = Some node ->
    node arg = NodeRaises after e ->
    ending = Failed (NodeFailure e) /\ last calls = Some (name, arg).
Proof.
  induction 1 as
    [cur n d Hc
    |cur n d e0 Hc Hget
    |name0 node0 n d after0 e0 Hlt Hnode0 Hraise0
    |name0 node0 n d d' e0 Hlt Hnode0 Hret Hsum
    |name0 node0 n d d' summary r Hlt Hnode0 Hret Hsum Hrid Hk
    |name0 node0 n d d' summary Hlt Hnode0 Hret Hsum Hk Hfin
    |name0 node0 n d d' summary calls ending Hlt Hnode0 Hret Hsum Hk Hfin Hrest IH];
    intros name arg node after e Hin Hnode Hraise.
  - by apply elem_of_nil in Hin.
  - by apply elem_of_nil in Hin.
  - apply list_elem_of_singleton in Hin. simplify_eq.
    rewrite Hraise in Hraise0. by simplify_eq.
  - apply list_elem_of_singleton in Hin. simplify_eq.
    rewrite Hraise in Hret. discriminate Hret.
  - apply list_elem_of_singleton in Hin. simplify_eq.
    rewrite Hraise in Hret. discriminate Hret.
  - apply list_elem_of_singleton in Hin. simplify_eq.
    rewrite Hraise in Hret. discriminate Hret.
  - apply elem_of_cons in Hin as [Heq|Hin].
    + simplify_eq. rewrite Hraise in Hret. discriminate Hret.
    + destruct (IH _ _ _ _ _ Hin Hnode Hraise) as [-> Hlast].
      split; [done|]. destruct calls; [by apply elem_of_nil in Hin|done].
Qed.

Lemma while_loop_store_running graph r run0 calls0 fuel f w o w' e :
  store_running r run0 calls0 f w ->
  while_loop fuel graph (Some r) f w = (o, w') ->
  o = Raised (NodeFailure e) ->
  store_at_failure r run0 calls0 w'.
Proof.
  intros HI Hw Ho.
  refine (while_loop_rule graph (Some r) (store_running r run0 calls0)
            (fun o w => forall e, o = Raised (NodeFailure e) ->
                                  store_at_failure r run0 calls0 w)
            _ _ fuel f w o w' HI Hw _ e Ho); [| |by subst].
  - intros ? ? _ _ ? [=].
  - clear. intros f w o w' (Hst & calls & run & Hinv & Hrun & Hnil & Hcons) _ Hstep.
    inversion Hstep as
      [e Hget
      |name node after e Hcur Hnode Hraise
      |name node st wa e Hcur Hnode Hcall Hsum
      |name node st wa summary e Hcur Hnode Hcall Hsum Hp
      |name node st wa summary w2 Hcur Hnode Hcall Hsum Hp Hfin
      |name node st wa summary w2 Hcur Hnode Hcall Hsum Hp Hfin]; subst.
    + intros x [= ->]. by eapply nodes_getitem_error in Hget.
    + intros x _. exists (calls ++ [(name, heap w !!! state f)])%list, run.
      simpl. rewrite Hinv, <- app_assoc, length_app. simpl.
      split_and!; [done|done|].
      destruct calls as [|c calls]; [left|right]; simpl.
      * auto.
      * split; [lia|]. by apply Hcons.
    + intros x [= ->]. by apply summarise_error in Hsum.
    + intros x [= ->].
      destruct (persist_cases (Some r) st
                  (log f ++ [log_entry (step f + 1) name summary])%list
                  (status f) w') as [(r' & _ & _ & He)|(w2 & Hp' & _)];
        [|congruence].
      rewrite He in Hp. discriminate Hp.
    + intros ? [=].
    + split; [done|].
      apply call_returned in Hcall as (_ & _ & Hinv1 & _).
      destruct (persist_stored _ _ _ _ _ _ Hp) as (run' & Hrun' & _ & _ & Hs).
      apply persist_returned in Hp as [_ Hi].
      exists (calls ++ [(name, heap w !!! state f)])%list, run'. simpl.
      rewrite Hi, Hinv1, Hinv, <- app_assoc.
      split_and!; [done|done| |congruence].
      intros Hnil'. by destruct calls.
Qed.

(** C8. When a node invocation raises in a run that has a [run_id], the
    exception reaches the caller of [run_graph], and the stored status of
    the run is not set to a success value: the record is still the one found
    at the start (status [created] for a run that [create_run] has just
    made) when the first invocation fails, and carries the status [running]
    persisted after the previous step otherwise; it is never [completed] or
    [max_steps_reached]. *)
Theorem C8_node_failure_propagates_status_not_success
    graph initial_state r w run0 o w' calls name arg node after e :
  RUNS w !! r = Some run0 ->
  Store.status run0 = created ->
  run_graph graph initial_state (Some r) w = (o, w') ->
  invoked w' = (invoked w ++ calls)%list ->
  (name, arg) ∈ calls ->
  nodes graph !! name = Some node ->
  node arg = NodeRaises after e ->
  o = Raised (NodeFailure e)
  /\ last calls = Some (name, arg)
  /\ exists run,
       RUNS w' !! r = Some run
       /\ ((length calls = 1%nat /\ run = run0)
           \/ ((1 < length calls)%nat /\ Store.status run = running))
       /\ (Store.status run = created \/ Store.status run = running)
       /\ Store.status run ≠ completed
       /\ Store.status run ≠ max_steps_reached.
Proof.
  intros Hrun0 Hcreated Hrun Hinv Hin Hnode Hraise.
  destruct (run_graph_frame_sound graph initial_state (Some r) w)
    as (fo & w'' & calls' & ending & Hfr & Hinv' & Hloop & Hobs & _).
  rewrite (run_graph_of_frame _ _ _ _ _ _ Hfr) in Hrun. simplify_eq.
  rewrite Hinv' in Hinv. apply app_inv_head in Hinv as ->.
  destruct (loop_run_raise_last _ _ _ _ _ _ _ _ Hloop _ _ _ _ _ Hin Hnode Hraise)
    as [-> Hlast].
  simpl in Hobs. subst fo. split; [done|]. split; [done|].
  assert (store_at_failure r run0 (invoked w) w')
    as (calls1 & run & Hi & Hr & Hcases).
  { destruct (run_graph_frame_unfold graph initial_state (Some r) w)
      as (w1 & _ & HR & _ & Hinv1 & Hunf).
    rewrite Hunf in Hfr. unfold mbind, M_bind in Hfr.
    match type of Hfr with
    | context [while_loop ?n graph (Some r) ?f0 w1] =>
        destruct (while_loop n graph (Some r) f0 w1) as [o2 w2] eqn:Hw
    end.
    destruct o2 as [f| |]; simplify_eq.
    - destruct (persist_cases (Some r) (state f) (log f) (status f) w2)
        as [(r' & _ & _ & He)|(w3 & Hp' & _)]; rewrite ?He, ?Hp' in Hfr;
        discriminate Hfr.
    - eapply while_loop_store_running; [|exact Hw|reflexivity].
      split; [done|]. exists [], run0. rewrite app_nil_r, HR.
      split_and!; done. }
  rewrite Hinv' in Hi. apply app_inv_head in Hi as <-.
  exists run. split; [done|]. split; [done|].
  destruct Hcases as [[_ ->]|[_ Hs]]; rewrite ?Hcreated, ?Hs;
    split_and!; auto; done.
Qed.

(** Two consecutive calls: the first returned, its state was not finished,
    the second is the node routing chose and it received the returned
    content without [_next_node]. *)
Lemma loop_run_chain graph run_id known current step content calls ending :
  loop_run graph run_id known current step content calls ending ->
  forall i name arg name' arg',
    calls !! i = Some (name, arg) -> calls !! S i = Some (name', arg') ->
    exists node content',
      nodes graph !! name = Some node
      /\ returned_content (node arg) = Some content'
      /\ truthy (get content' "_finished") = false
      /\ next_node graph name (get content' "_next_node") = VStr name'
      /\ arg' = delete "_next_node" content'.
Proof.
  induction 1 as
    [cur n d Hc
    |cur n d e0 Hc Hget
    |name0 node0 n d after0 e0 Hlt Hnode0 Hraise0
    |name0 node0 n d d' e0 Hlt Hnode0 Hret Hsum
    |name0 node0 n d d' summary r Hlt Hnode0 Hret Hsum Hrid Hk
    |name0 node0 n d d' summary Hlt Hnode0 Hret Hsum Hk Hfin
    |name0 node0 n d d' summary calls ending Hlt Hnode0 Hret Hsum Hk Hfin Hrest IH];
    intros i name arg name' arg' Hi HSi; try done.
  destruct i as [|i]; simpl in Hi, HSi.
  - simplify_eq. exists node0, d'.
    destruct calls as [|[name1 arg1] calls]; [done|]. simpl in HSi. simplify_eq.
    destruct (loop_run_head _ _ _ _ _ _ _ _ Hrest name' arg' eq_refl) as [-> ->].
    auto.
  - eapply IH; eauto.
Qed.

(** What the last call of a run led to, when the node returned. *)
Lemma loop_run_last_returned graph run_id known current step content calls ending :
  loop_run graph run_id known current step content calls ending ->
  forall name arg node content',
    last calls = Some (name, arg) -> nodes graph !! name = Some node ->
    returned_content (node arg) = Some content' ->
    (exists e, ending = Failed e
               /\ (_summarise_state content' = inl e
                   \/ (known = false /\ exists r, run_id = Some r)
                   \/ (truthy (get content' "_finished") = false
                       /\ nodes_getitem graph
                            (next_node graph name (get content' "_next_node"))
                          = inl e)))
    \/ (truthy (get content' "_finished") = true
        /\ exists n, ending = Finished n content')
    \/ (truthy (get content' "_finished") = false
        /\ exists n, ending = Exhausted
                        (next_node graph name (get content' "_next_node")) n
                        (delete "_next_node" content')).
Proof.
  induction 1 as
    [cur n d Hc
    |cur n d e0 Hc Hget
    |name0 node0 n d after0 e0 Hlt Hnode0 Hraise0
    |name0 node0 n d d' e0 Hlt Hnode0 Hret Hsum
    |name0 node0 n d d' summary r Hlt Hnode0 Hret Hsum Hrid Hk
    |name0 node0 n d d' summary Hlt Hnode0 Hret Hsum Hk Hfin
    |name0 node0 n d d' summary calls ending Hlt Hnode0 Hret Hsum Hk Hfin Hrest IH];
    intros name arg node content' Hlast Hnode Hcontent; simpl in Hlast;
    try done; simplify_eq.
  - rewrite Hraise0 in Hcontent. discriminate Hcontent.
  - left. eauto.
  - left. eauto 10.
  - right. left. eauto.
  - destruct calls as [|c calls].
    + simpl in Hlast. simplify_eq.
      inversion Hrest; subst.
      * right. right. eauto.
      * left. eauto 10.
    + eapply IH; eauto.
Qed.

(** A node that returns a finished state is the last one called. *)
Lemma loop_run_finished_last graph run_id known current step content calls ending :
  loop_run graph run_id known current step content calls ending ->
  forall i name arg node content',
    calls !! i = Some (name, arg) -> nodes graph !! name = Some node ->
    returned_content (node arg) = Some content' ->
    truthy (get content' "_finished") = true ->
    length calls = S i.
Proof.
  intros Hrun i name arg node content' Hi Hnode Hret Hfin.
  destruct (calls !! S i) as [[name' arg']|] eqn:HSi.
  - destruct (loop_run_chain _ _ _ _ _ _ _ _ Hrun _ _ _ _ _ Hi HSi)
      as (node' & d & Hnode' & Hret' & Hfin' & _).
    simplify_eq. congruence.
  - apply lookup_ge_None in HSi. apply lookup_lt_Some in Hi. lia.
Qed.

Lemma last_lookup_length {A} (l : list A) i x :
  l !! i = Some x -> length l = S i -> last l = Some x.
Proof.
  intros Hi Hlen. rewrite last_lookup. rewrite Hlen. simpl. done.
Qed.

(** C6. The log [run_graph] returns after a run of N steps (N node calls)
    has exactly N entries, their [step] fields are 1, 2, ..., N in this
    order, and the [node_id] of each is the identifier of the node that was
    called at that step. *)
Theorem C6_log_numbers_steps_and_names_nodes
    graph initial_state run_id w st lg w' :
  run_graph graph initial_state run_id w = (Returned (st, lg), w') ->
  exists calls,
    invoked w' = (invoked w ++ calls)%list
    /\ length lg = length calls
    /\ map Models.step lg = seqZ 1 (Z.of_nat (length calls))
    /\ map node_id lg = calls.*1.
Proof. apply run_graph_log. Qed.

Lemma seeded_get_finished content :
  get (seeded content) "_finished" = get content "_finished".
Proof.
  unfold get. by rewrite (proj1 (seeded_lookup content) "_finished").
Qed.

(** A node that returns a state with a truthy [_finished] is the last node
    called; when the summary of that state can be derived and the run is
    known to the store, [run_graph] returns with status [completed], also in
    the store. *)
Lemma finished_flag_stops_run
    graph initial_state run_id w fo w' calls i name arg node content' :
  run_graph_frame graph initial_state run_id w = (fo, w') ->
  invoked w' = (invoked w ++ calls)%list ->
  calls !! i = Some (name, arg) ->
  nodes graph !! name = Some node ->
  returned_content (node arg) = Some content' ->
  truthy (get content' "_finished") = true ->
  length calls = S i
  /\ (forall summary,
        _summarise_state content' = inr summary ->
        run_known run_id (RUNS w) = true ->
        exists f, fo = Returned f /\ status f = completed
                  /\ heap w' !!! state f = content'
                  /\ forall r, run_id = Some r ->
                       exists run, RUNS w' !! r = Some run
                                   /\ Store.status run = completed).
Proof.
  intros Hfr Hinv Hi Hnode Hret Hfin.
  destruct (run_graph_frame_sound graph initial_state run_id w)
    as (fo' & w'' & calls' & ending & Hfr' & Hinv' & Hloop & Hobs & Hstore).
  rewrite Hfr in Hfr'. injection Hfr' as <- <-.
  rewrite Hinv' in Hinv. apply app_inv_head in Hinv as ->.
  pose proof (loop_run_finished_last _ _ _ _ _ _ _ _ Hloop _ _ _ _ _
                Hi Hnode Hret Hfin) as Hlen.
  split; [done|]. intros summary Hsum Hk.
  pose proof (last_lookup_length _ _ _ Hi Hlen) as Hlast.
  destruct (loop_run_last_returned _ _ _ _ _ _ _ _ Hloop _ _ _ _
              Hlast Hnode Hret)
    as [(e & -> & [He|[[Hk' _]|[Hf _]]])|[(_ & n & ->)|(Hf & _)]];
    try congruence.
  rewrite Hk in Hobs.
  assert (observed run_id (Finished n content') fo w') as Hobs'.
  { by destruct run_id. }
  simpl in Hobs'. destruct Hobs' as (f & -> & _ & Hd & Hs).
  exists f. split_and!; auto.
  intros r ->. destruct (Hstore f r eq_refl eq_refl) as (run & Hr & _ & _ & Hrs).
  exists run. split; [done|]. congruence.
Qed.

(** The summary only reads four keys of the state. *)
Lemma summarise_ext content1 content2 :
  content1 !! "quality_score" = content2 !! "quality_score" ->
  content1 !! "iteration" = content2 !! "iteration" ->
  content1 !! "issues" = content2 !! "issues" ->
  content1 !! "complexity_report" = content2 !! "complexity_report" ->
  _summarise_state content1 = _summarise_state content2.
Proof.
  intros H1 H2 H3 H4. unfold _summarise_state. by rewrite H1, H2, H3, H4.
Qed.

Lemma summarise_ignores_next_node content v :
  _summarise_state (<["_next_node" := v]> content) = _summarise_state content
  /\ _summarise_state (delete "_next_node" content) = _summarise_state content.
Proof.
  split; apply summarise_ext;
    by rewrite ?lookup_insert_ne, ?lookup_delete_ne.
Qed.

Lemma loop_run_call_node graph run_id known current step content calls ending :
  loop_run graph run_id known current step content calls ending ->
  forall name arg, (name, arg) ∈ calls -> is_Some (nodes graph !! name).
Proof.
  induction 1; intros name' arg' Hin;
    try (by apply elem_of_nil in Hin);
    try (apply list_elem_of_singleton in Hin; simplify_eq; eauto).
  apply elem_of_cons in Hin as [Heq|Hin]; [simplify_eq; eauto|eauto].
Qed.


Lemma summarise_ok content :
  report_is_mapping content = true ->
  exists summary, _summarise_state content = inr summary.
Proof.
  unfold report_is_mapping, _summarise_state, value_get.
  destruct (content !! "complexity_report") as [[]|]; try discriminate;
    eauto.
Qed.

(** C4 (amended). In a run where the state returned by each executed node
    has no truthy [_finished] and no [_next_node] other than [None] (so also
    none left over from the initial state), the nodes called follow the edge
    table: the first is the start node, each next one is
    [edges.get(current)], and a node without outgoing edge is the last one
    called, after which a run that returns has status [completed], also in
    the store. An edge that exists is never dropped: its target is the next
    node called, on the returned state, whenever the budget allows another
    step, the target is a node of the graph, the summary of the returned
    state can be derived and the run is known to the store; and when the
    call was the last one of a run that returns, the target is left pending
    with status [max_steps_reached]. *)
Theorem C4_static_edges_followed_until_exhausted
    graph initial_state run_id w fo w' calls :
  run_graph_frame graph initial_state run_id w = (fo, w') ->
  invoked w' = (invoked w ++ calls)%list ->
  (forall name arg node content',
     (name, arg) ∈ calls -> nodes graph !! name = Some node ->
     returned_content (node arg) = Some content' ->
     truthy (get content' "_finished") = false
     /\ is_not_None (get content' "_next_node") = false) ->
  (forall name arg, head calls = Some (name, arg) -> name = start_node_id graph)
  /\ (forall i name arg name' arg',
        calls !! i = Some (name, arg) -> calls !! S i = Some (name', arg') ->
        edges_get graph name = VStr name')
  /\ (forall i name arg,
        calls !! i = Some (name, arg) -> edges_get graph name = VNone ->
        length calls = S i
        /\ forall f, fo = Returned f ->
             status f = completed
             /\ forall r, run_id = Some r ->
                  exists run, RUNS w' !! r = Some run
                              /\ Store.status run = completed)
  /\ (forall i name arg (node : NodeCallable) content' target,
        calls !! i = Some (name, arg) ->
        nodes graph !! name = Some node ->
        returned_content (node arg) = Some content' ->
        edges_get graph name = VStr target ->
        (forall name' arg', calls !! S i = Some (name', arg') ->
           name' = target /\ arg' = delete "_next_node" content')
        /\ (Z.of_nat (S i) < max_steps graph ->
            is_Some (nodes graph !! target) ->
            report_is_mapping content' = true ->
            run_known run_id (RUNS w) = true ->
            calls !! S i = Some (target, delete "_next_node" content'))
        /\ (length calls = S i -> forall f, fo = Returned f ->
              current_node_id f = VStr target
              /\ status f = max_steps_reached
              /\ max_steps graph <= Z.of_nat (S i)
              /\ forall r, run_id = Some r ->
                   exists run, RUNS w' !! r = Some run
                               /\ Store.status run = max_steps_reached)).
Proof.
  intros Hfr Hinv Hquiet.
  destruct (run_graph_frame_sound graph initial_state run_id w)
    as (fo' & w'' & calls' & ending & Hfr' & Hinv' & Hloop & Hobs & Hstore).
  rewrite Hfr in Hfr'. injection Hfr' as <- <-.
  rewrite Hinv' in Hinv. apply app_inv_head in Hinv as ->.
  assert (forall i name arg name' arg',
            calls !! i = Some (name, arg) -> calls !! S i = Some (name', arg') ->
            edges_get graph name = VStr name') as Hedges.
  { intros i name arg name' arg' Hi HSi.
    destruct (loop_run_chain _ _ _ _ _ _ _ _ Hloop _ _ _ _ _ Hi HSi)
      as (node & d & Hnode & Hret & _ & Hnx & _).
    destruct (Hquiet name arg node d) as [_ Hno]; auto.
    { by eapply list_elem_of_lookup_2. }
    unfold next_node in Hnx. by rewrite Hno in Hnx. }
  split_and!.
  - intros name arg Hhd.
    destruct (loop_run_head _ _ _ _ _ _ _ _ Hloop _ _ Hhd) as [[= ->] _]. done.
  - exact Hedges.
  - intros i name arg Hi Hnone.
    assert (length calls = S i) as Hlen.
    { destruct (calls !! S i) as [[name' arg']|] eqn:HSi.
      - rewrite (Hedges _ _ _ _ _ Hi HSi) in Hnone. discriminate Hnone.
      - apply lookup_ge_None in HSi. apply lookup_lt_Some in Hi. lia. }
    split; [done|]. intros f ->. apply observed_final_returned in Hobs.
    pose proof (last_lookup_length _ _ _ Hi Hlen) as Hlast.
    assert ((name, arg) ∈ calls) as Hin by by eapply list_elem_of_lookup_2.
    destruct (loop_run_call_node _ _ _ _ _ _ _ _ Hloop _ _ Hin) as [node Hnode].
    destruct (returned_content (node arg)) as [d|] eqn:Hret.
    + destruct (Hquiet name arg node d) as [Hf Hno]; auto.
      destruct (loop_run_last_returned _ _ _ _ _ _ _ _ Hloop _ _ _ _
                  Hlast Hnode Hret)
        as [(e & -> & _)|[(Hf' & _)|(_ & n & ->)]];
        [discriminate Hobs|congruence|].
      simpl in Hobs. destruct Hobs as (f' & [= <-] & _ & _ & _ & Hs).
      unfold next_node in Hs. rewrite Hno, Hnone in Hs. simpl in Hs.
      split; [done|]. intros r ->.
      destruct (Hstore f r eq_refl eq_refl) as (run & Hr & _ & _ & Hrs).
      exists run. split; [done|]. congruence.
    + destruct (node arg) as [after e| |] eqn:Hnr; try discriminate Hret.
      destruct (loop_run_raise_last _ _ _ _ _ _ _ _ Hloop _ _ _ _ _
                  Hin Hnode Hnr) as [-> _].
      discriminate Hobs.
  - intros i name arg node content' target Hi Hnode Hret Hedge.
    assert ((name, arg) ∈ calls) as Hin by by eapply list_elem_of_lookup_2.
    destruct (Hquiet name arg node content' Hin Hnode Hret) as [Hf Hno].
    assert (next_node graph name (get content' "_next_node") = VStr target)
      as Hnext.
    { unfold next_node. by rewrite Hno. }
    assert (forall name' arg', calls !! S i = Some (name', arg') ->
              name' = target /\ arg' = delete "_next_node" content')
      as Hfollowed.
    { intros name' arg' HSi.
      destruct (loop_run_chain _ _ _ _ _ _ _ _ Hloop _ _ _ _ _ Hi HSi)
        as (node' & d & Hnode' & Hret' & _ & Hnx & ->).
      pose proof (eq_trans (eq_sym Hnode') Hnode) as Heq.
      injection Heq as ->.
      rewrite Hret in Hret'. injection Hret' as <-.
      rewrite Hnext in Hnx. by injection Hnx as ->. }
    assert (length calls = S i ->
            (exists e, ending = Failed e
                       /\ (_summarise_state content' = inl e
                           \/ run_known run_id (RUNS w) = false
                           \/ nodes_getitem graph (VStr target) = inl e))
            \/ exists n, ending = Exhausted (VStr target) n
                                    (delete "_next_node" content')
                         /\ max_steps graph <= Z.of_nat (S i)) as Hlastcase.
    { intros Hlen.
      pose proof (last_lookup_length _ _ _ Hi Hlen) as Hlast.
      destruct (loop_run_last_returned _ _ _ _ _ _ _ _ Hloop _ _ _ _
                  Hlast Hnode Hret)
        as [(e & -> & [Hs|[[Hk _]|[_ Hg]]])|[(Hf' & _)|(_ & n & ->)]].
      - left. eauto.
      - left. eauto.
      - left. rewrite Hnext in Hg. eauto.
      - congruence.
      - right. rewrite Hnext. exists n. split; [done|].
        pose proof (loop_run_exhausted _ _ _ _ _ _ _ _ Hloop _ _ _ eq_refl)
          as Hex.
        rewrite Hnext in Hex. simpl in Hex. apply Z.ltb_ge in Hex.
        pose proof (loop_run_bound _ _ _ _ _ _ _ _ Hloop) as [_ Hn].
        simpl in Hn. lia. }
    split_and!.
    + exact Hfollowed.
    + intros Hbudget [tnode Htarget] Hrep Hknown.
      destruct (calls !! S i) as [[name' arg']|] eqn:HSi.
      { by destruct (Hfollowed name' arg' eq_refl) as [-> ->]. }
      exfalso. apply lookup_ge_None in HSi. apply lookup_lt_Some in Hi.
      destruct Hlastcase as [(e & _ & [Hs|[Hk|Hg]])|(n & _ & Hmax)]; [lia|..].
      * destruct (summarise_ok _ Hrep) as [summary Hsum]. congruence.
      * congruence.
      * cbn in Hg. rewrite Htarget in Hg. discriminate Hg.
      * lia.
    + intros Hlen f ->. apply observed_final_returned in Hobs.
      destruct (Hlastcase Hlen) as [(e & -> & _)|(n & -> & Hmax)];
        [discriminate Hobs|].
      simpl in Hobs. destruct Hobs as (f' & [= <-] & Hcur & _ & _ & Hs).
      split_and!; [done|done|done|].
      intros r ->.
      destruct (Hstore f r eq_refl eq_refl) as (run & Hr & _ & _ & Hrs).
      exists run. split; [done|]. congruence.
Qed.

(** Scenario B from any step [n <= 3]: the loop calls [loop] until the
    budget is used up, and leaves with [loop] still pending. *)
Lemma loop_graph_run run_id g known current n content calls ending :
  loop_run g run_id known current n content calls ending ->
  g = loop_graph -> known = true -> current = VStr "loop" ->
  truthy (get content "_finished") = false ->
  report_is_mapping content = true ->
  0 <= n <= 3 ->
  calls.*1 = replicate (Z.to_nat (3 - n)) "loop"
  /\ exists content', ending = Exhausted (VStr "loop") 3 content'.
Proof.
  induction 1 as
    [cur n d Hc
    |cur n d e0 Hc Hget
    |name0 node0 n d after0 e0 Hlt Hnode0 Hraise0
    |name0 node0 n d d' e0 Hlt Hnode0 Hret Hsum
    |name0 node0 n d d' summary r Hlt Hnode0 Hret Hsum Hrid Hk
    |name0 node0 n d d' summary Hlt Hnode0 Hret Hsum Hk Hfin
    |name0 node0 n d d' summary calls ending Hlt Hnode0 Hret Hsum Hk Hfin Hrest IH];
    intros -> -> Hcur Hf Hrep Hn; try discriminate;
    try (injection Hcur as ->);
    try (simpl in Hnode0; rewrite lookup_singleton_eq in Hnode0;
         injection Hnode0 as <-);
    try (unfold loop_node, set_key in Hret; simpl in Hret;
         injection Hret as <-).
  - subst cur. simpl in Hc. apply Z.ltb_ge in Hc. simpl in Hc.
    assert (n = 3) as -> by lia. simpl. eauto.
  - subst cur. simpl in Hget. rewrite lookup_singleton_eq in Hget.
    discriminate Hget.
  - discriminate Hraise0.
  - destruct (summarise_ok d Hrep) as [s Hs].
    rewrite (proj1 (summarise_ignores_next_node d (VStr "loop"))) in Hsum.
    congruence.
  - unfold get in Hfin, Hf. rewrite lookup_insert_ne in Hfin by done.
    congruence.
  - destruct IH as [Hcalls Hend]; auto.
    + unfold next_node, get. by rewrite lookup_insert_eq.
    + unfold get. rewrite lookup_delete_ne, lookup_insert_ne by done. done.
    + unfold report_is_mapping.
      rewrite lookup_delete_ne, lookup_insert_ne by done. done.
    + simpl in Hlt. lia.
    + split; [|done]. rewrite fmap_cons, Hcalls. simpl in Hlt.
      replace (Z.to_nat (3 - n)) with (S (Z.to_nat (3 - (n + 1)))) by lia.
      done.
Qed.

Lemma seeded_report_is_mapping content :
  report_is_mapping (seeded content) = report_is_mapping content.
Proof.
  unfold report_is_mapping.
  by rewrite (proj1 (seeded_lookup content) "complexity_report").
Qed.

(** C5 (amended). When the loop is left because [step] has reached
    [max_steps] while [current_node_id] is not [None], the status is
    [max_steps_reached]. For scenario B (the single node [loop], which always
    sets [_next_node = "loop"] and never touches [_finished], edges
    [{loop: None}], [max_steps] 3), on every initial state whose [_finished]
    is not truthy and whose [complexity_report], if any, is a mapping,
    [run_graph] returns with exactly 3 log entries, all for [loop], and status
    [max_steps_reached], also in the store. *)
Theorem C5_max_steps_reached_when_budget_exhausted initial_state run_id w :
  truthy (get (heap w !!! initial_state) "_finished") = false ->
  report_is_mapping (heap w !!! initial_state) = true ->
  run_known run_id (RUNS w) = true ->
  (exists f w',
     run_graph_frame loop_graph initial_state run_id w = (Returned f, w')
     /\ run_graph loop_graph initial_state run_id w
        = (Returned (state f, log f), w')
     /\ length (log f) = 3%nat
     /\ map node_id (log f) = ["loop"; "loop"; "loop"]
     /\ map Models.step (log f) = [1; 2; 3]
     /\ current_node_id f = VStr "loop"
     /\ status f = max_steps_reached
     /\ forall r, run_id = Some r ->
          exists run, RUNS w' !! r = Some run
                      /\ Store.status run = max_steps_reached
                      /\ length (Store.log run) = 3%nat)
  /\ (forall graph run_id' fuel f w0,
        is_not_None (current_node_id f) = true ->
        max_steps graph <= step f ->
        while_loop fuel graph run_id' f w0 = (Returned (loop_else f), w0)
        /\ status (loop_else f) = max_steps_reached).
Proof.
  intros Hfin Hrep Hk. split.
  - destruct (run_graph_frame_sound loop_graph initial_state run_id w)
      as (fo & w' & calls & ending & Hfr & Hinv & Hloop & Hobs & Hstore).
    rewrite Hk in Hloop, Hobs.
    destruct (loop_graph_run _ _ _ _ _ _ _ _ Hloop) as [Hcalls [d ->]]; auto.
    { by rewrite seeded_get_finished. }
    { by rewrite seeded_report_is_mapping. }
    { lia. }
    assert (observed run_id (Exhausted (VStr "loop") 3 d) fo w') as Hobs'.
    { by destruct run_id. }
    simpl in Hobs'. destruct Hobs' as (f & -> & Hcur & Hstep & _ & Hs).
    pose proof (run_graph_of_frame _ _ _ _ _ _ Hfr) as Hrun.
    destruct (run_graph_log _ _ _ _ _ _ _ Hrun)
      as (calls' & Hinv' & Hlen & Hsteps & Hids).
    rewrite Hinv in Hinv'. apply app_inv_head in Hinv' as <-.
    assert (length calls = 3%nat) as Hlen3.
    { rewrite <- (length_fmap fst), Hcalls. done. }
    rewrite Hlen3 in Hlen, Hsteps. rewrite Hcalls in Hids.
    exists f, w'. split_and!; try done.
    intros r ->. destruct (Hstore f r eq_refl eq_refl) as (run & Hr & _ & Hl & Hrs).
    exists run. split_and!; [done|congruence|congruence].
  - intros graph run_id' fuel f w0 Hnn Hmax.
    assert (loop_cond graph f = false) as Hc.
    { unfold loop_cond. rewrite Hnn. simpl. apply Z.ltb_ge. lia. }
    split.
    + destruct fuel; simpl; by rewrite Hc.
    + simpl. by rewrite Hnn.
Qed.

(** *** The run store *)

Lemma fresh_run_id_inj (R1 R2 : Runs) :
  fresh_run_id R1 = fresh_run_id R2 -> size R1 = size R2.
Proof.
  unfold fresh_run_id. intros H.
  apply (inj (String.app "run_")) in H. apply (inj pretty) in H. lia.
Qed.

(** The keys of a reachable store are the identifiers handed out so far,
    and these are [run_1] ... [run_n] for the [n] records it holds. *)
Lemma reachable_keys R issued :
  Reachable R issued ->
  (forall k, k ∈ issued <-> is_Some (R !! k))
  /\ (forall k, is_Some (R !! k) ->
        exists R0 : Runs, (size R0 < size R)%nat /\ k = fresh_run_id R0).
Proof.
  induction 1 as
    [|now R issued graph_id initial_state Hreach [IHi IHk]
     |now R issued run_id st lg s R' Hreach [IHi IHk] Hup].
  - split.
    + intros k. rewrite lookup_empty. split.
      * by intros ?%elem_of_nil.
      * by intros [? ?].
    + intros k. rewrite lookup_empty. by intros [? ?].
  - assert (R !! fresh_run_id R = None) as Hfresh.
    { destruct (R !! fresh_run_id R) eqn:Hl; [|done].
      destruct (IHk (fresh_run_id R)) as (R0 & Hlt & Heq); [eauto|].
      apply fresh_run_id_inj in Heq. lia. }
    unfold create_run. simpl. split.
    + intros k. rewrite elem_of_cons, lookup_insert_is_Some. split.
      * intros [->|Hin]; [by left|]. apply IHi in Hin.
        destruct (decide (fresh_run_id R = k)); [by left|by right].
      * intros [<-|[_ Hk]]; [by left|]. right. by apply IHi.
    + intros k. rewrite lookup_insert_is_Some.
      rewrite map_size_insert_None by done.
      intros [<-|[_ Hk]].
      * exists R. split; [lia|done].
      * destruct (IHk k Hk) as (R0 & Hlt & ->). exists R0. split; [lia|done].
  - unfold update_run in Hup.
    destruct (R !! run_id) as [r|] eqn:Hr; [|discriminate].
    injection Hup as <-. split.
    + intros k. rewrite lookup_insert_is_Some. split.
      * intros Hin%IHi.
        destruct (decide (run_id = k)); [by left|by right].
      * intros [<-|[_ Hk]]; apply IHi; eauto.
    + intros k. rewrite lookup_insert_is_Some.
      rewrite map_size_insert_Some by done.
      intros [<-|[_ Hk]]; apply IHk; eauto.
Qed.

(** C9. [create_run] inserts a record with status [created], an empty log,
    the given initial state itself (the object passed in, which is never the
    copy a later [run_graph] works on and returns) and the same timestamp in
    [created_at] and [updated_at]; it leaves the other records as they are;
    and in a store that only [create_run] and [update_run] have changed since
    the process started, the identifier it returns differs from every
    identifier returned before. *)
Theorem C9_create_run_inserts_created_record_with_new_id
    now R issued graph_id initial_state run_id R' :
  Reachable R issued ->
  create_run now R graph_id initial_state = (run_id, R') ->
  (exists run,
     R' !! run_id = Some run
     /\ Store.id run = run_id
     /\ Store.graph_id run = graph_id
     /\ Store.state run = initial_state
     /\ Store.log run = []
     /\ Store.status run = created
     /\ created_at run = now
     /\ updated_at run = created_at run)
  /\ (run_id ∉ issued)
  /\ R !! run_id = None
  /\ (forall k, k ≠ run_id -> R' !! k = R !! k)
  /\ Reachable R' (run_id :: issued)
  /\ (forall graph run_id' w fo w',
        initial_state ∈ dom (heap w) ->
        run_graph_frame graph initial_state run_id' w = (fo, w') ->
        forall f, fo = Returned f -> state f ≠ initial_state).
Proof.
  intros Hreach Hcreate.
  destruct (reachable_keys R issued Hreach) as [Hissued Hkeys].
  pose proof (reach_create now R issued graph_id initial_state Hreach) as Hnext.
  rewrite Hcreate in Hnext. simpl in Hnext.
  unfold create_run in Hcreate. injection Hcreate as <- <-.
  assert (R !! fresh_run_id R = None) as Hfresh.
  { destruct (R !! fresh_run_id R) eqn:Hl; [|done].
    destruct (Hkeys (fresh_run_id R)) as (R0 & Hlt & Heq); [eauto|].
    apply fresh_run_id_inj in Heq. lia. }
  split_and!.
  - eexists. rewrite lookup_insert_eq. split_and!; reflexivity.
  - rewrite Hissued, Hfresh. by intros [? ?].
  - done.
  - intros k Hk. by rewrite lookup_insert_ne.
  - done.
  - intros graph run_id' w fo w' Hin Hfr f -> Heq.
    destruct (run_graph_frame_heap _ _ _ _ _ _ Hfr) as [_ Hst].
    apply (Hst f eq_refl). by rewrite Heq.
Qed.

(* ===================================================================== *)
(** ** Further properties of the engine *)
(* ===================================================================== *)

(** *** store.py *)

(** X1. [update_run] fails, with the KeyError of an unknown run and without
    changing the store, exactly when the run does not exist. When it exists,
    [get_run] afterwards returns the state, log and status just written and
    the new timestamp, with the [id], [graph_id] and [created_at] the record
    had; no key is added or removed and every other record is untouched. *)
Theorem X1_update_run_overwrites_one_record
    now (R : Runs) run_id st lg s :
  (R !! run_id = None ->
     update_run now R run_id st lg s = inl (run_not_found run_id))
  /\ (forall r, R !! run_id = Some r ->
        exists R',
          update_run now R run_id st lg s = inr R'
          /\ get_run R' run_id
             = inr {| Store.id := Store.id r;
                      graph_id := graph_id r;
                      Store.state := st;
                      Store.log := lg;
                      Store.status := s;
                      created_at := created_at r;
                      updated_at := now |}
          /\ dom R' = dom R
          /\ size R' = size R
          /\ forall k, k ≠ run_id -> R' !! k = R !! k).
Proof.
  unfold update_run, get_run. split.
  - by intros ->.
  - intros r Hr. rewrite Hr. eexists. split; [reflexivity|].
    rewrite lookup_insert_eq. split_and!.
    + done.
    + rewrite dom_insert_L. apply elem_of_dom_2 in Hr.
      apply subseteq_union_1_L. by apply singleton_subseteq_l.
    + by rewrite map_size_insert_Some.
    + intros k Hk. by rewrite lookup_insert_ne.
Qed.

(** X2. In a store that only [create_run] and [update_run] have changed
    since it was empty, the identifiers handed out are pairwise distinct,
    they are exactly the keys of the store, there are as many records as
    [create_run] was called, every record carries its own key in [id], and
    the keys are [run_1] ... [run_n]: no record is ever removed or renamed. *)
Theorem X2_reachable_store_invariant (R : Runs) issued :
  Reachable R issued ->
  NoDup issued
  /\ length issued = size R
  /\ (forall k, k ∈ issued <-> is_Some (R !! k))
  /\ (forall k r, R !! k = Some r -> Store.id r = k)
  /\ (forall k, is_Some (R !! k) <->
        exists n, (1 <= n <= size R)%nat /\ k = "run_" +:+ pretty n).
Proof.
  induction 1 as
    [|now R issued graph_id initial_state Hreach (Hnd & Hlen & Hiss & Hid & Hkeys)
     |now R issued run_id st lg s R' Hreach (Hnd & Hlen & Hiss & Hid & Hkeys) Hup].
  - split_and!.
    + constructor.
    + by rewrite map_size_empty.
    + intros k. rewrite lookup_empty. split; [by intros ?%elem_of_nil|].
      by intros [? ?].
    + intros k r. by rewrite lookup_empty.
    + intros k. rewrite lookup_empty, map_size_empty. split.
      * by intros [? ?].
      * intros (n & Hn & _). lia.
  - assert (R !! fresh_run_id R = None) as Hfresh.
    { destruct (R !! fresh_run_id R) eqn:Hl; [|done].
      destruct (proj1 (Hkeys (fresh_run_id R))) as (n & Hn & Heq); [eauto|].
      unfold fresh_run_id in Heq.
      apply (inj (String.app "run_")) in Heq. apply (inj pretty) in Heq. lia. }
    unfold create_run. simpl.
    rewrite map_size_insert_None by done. split_and!.
    + constructor; [|done]. rewrite Hiss, Hfresh. by intros [? ?].
    + simpl. by rewrite Hlen.
    + intros k. rewrite elem_of_cons, lookup_insert_is_Some. split.
      * intros [->|Hin]; [by left|]. apply Hiss in Hin.
        destruct (decide (fresh_run_id R = k)); [by left|by right].
      * intros [<-|[_ Hk]]; [by left|]. right. by apply Hiss.
    + intros k r. rewrite lookup_insert_Some.
      intros [[<- <-]|[_ Hk]]; [done|by apply Hid].
    + intros k. rewrite lookup_insert_is_Some. split.
      * intros [<-|[_ Hk]].
        -- exists (size R + 1)%nat. split; [lia|done].
        -- apply Hkeys in Hk as (n & Hn & ->). exists n. split; [lia|done].
      * intros (n & Hn & ->).
        destruct (decide (n = (size R + 1)%nat)) as [->|Hne]; [by left|].
        right. split.
        -- unfold fresh_run_id. intros Heq.
           apply (inj (String.app "run_")) in Heq.
           apply (inj pretty) in Heq. lia.
        -- apply Hkeys. exists n. split; [lia|done].
  - unfold update_run in Hup.
    destruct (R !! run_id) as [r|] eqn:Hr; [|discriminate].
    injection Hup as <-.
    rewrite map_size_insert_Some by done. split_and!.
    + done.
    + done.
    + intros k. rewrite lookup_insert_is_Some. split.
      * intros Hin%Hiss.
        destruct (decide (run_id = k)); [by left|by right].
      * intros [<-|[_ Hk]]; apply Hiss; eauto.
    + intros k r'. rewrite lookup_insert_Some.
      intros [[<- <-]|[_ Hk]]; simpl; [by apply Hid|by apply Hid].
    + intros k. rewrite lookup_insert_is_Some, <- Hkeys. split.
      * intros [<-|[_ Hk]]; eauto.
      * intros Hk. destruct (decide (run_id = k)); [by left|by right].
Qed.

(** X3. [get_graph] returns the graph that [save_graph] stored last under
    its [id]: saving replaces an earlier graph of the same [id], leaves the
    graphs of other ids alone, and an id never saved raises the KeyError of a
    missing graph. *)
Theorem X3_save_graph_get_graph (GRAPHS : Graphs) graph graph' graph_id :
  get_graph (save_graph GRAPHS graph) (Models.id graph) = inr graph
  /\ (Models.id graph' = Models.id graph ->
        get_graph (save_graph (save_graph GRAPHS graph) graph')
                  (Models.id graph) = inr graph')
  /\ (graph_id ≠ Models.id graph ->
        get_graph (save_graph GRAPHS graph) graph_id
        = get_graph GRAPHS graph_id)
  /\ (GRAPHS !! graph_id = None ->
        get_graph GRAPHS graph_id = inl (graph_not_found graph_id)).
Proof.
  unfold get_graph, save_graph. split_and!.
  - by rewrite lookup_insert_eq.
  - intros ->. by rewrite lookup_insert_eq.
  - intros Hne. by rewrite lookup_insert_ne.
  - by intros ->.
Qed.

(** *** registry.py *)

(** X4. [get_node] returns the function registered last under an
    identifier: registering again silently replaces the earlier function,
    other identifiers are not affected, and an identifier that was never
    registered raises KeyError. *)
Theorem X4_register_node_get_node
    (NODE_REGISTRY : NodeRegistry) node_id other func func' :
  get_node (register_node NODE_REGISTRY node_id func) node_id = inr func
  /\ get_node (register_node (register_node NODE_REGISTRY node_id func)
                             node_id func') node_id = inr func'
  /\ (other ≠ node_id ->
        get_node (register_node NODE_REGISTRY node_id func) other
        = get_node NODE_REGISTRY other)
  /\ (NODE_REGISTRY !! other = None ->
        get_node NODE_REGISTRY other = inl (node_not_registered other)).
Proof.
  unfold get_node, register_node. split_and!.
  - by rewrite lookup_insert_eq.
  - by rewrite lookup_insert_eq.
  - intros Hne. by rewrite lookup_insert_ne.
  - by intros ->.
Qed.

(** *** executor.py: [_summarise_state] *)

(** X5. [_summarise_state] raises exactly when the state has a
    [complexity_report] that is not a mapping, and then it is an
    AttributeError; in every other state it returns a summary. *)
Theorem X5_summarise_fails_iff_report_not_mapping content :
  (report_is_mapping content = false <->
     _summarise_state content = inl AttributeError)
  /\ (report_is_mapping content = true <->
       exists summary, _summarise_state content = inr summary)
  /\ (forall e, _summarise_state content = inl e -> e = AttributeError).
Proof.
  unfold report_is_mapping, _summarise_state, value_get.
  destruct (content !! "complexity_report") as [[]|]; simpl;
    split_and!; try split; try done; try (intros [? ?]; done); eauto;
    try (intros e; congruence).
Qed.

Lemma string_app_empty_r (s : string) : s +:+ "" = s.
Proof.
  induction s as [|a s IH]; [reflexivity|].
  change (String a s +:+ "") with (String a (s +:+ "")). by rewrite IH.
Qed.

Lemma summarise_parts content :
  _summarise_state content = inl AttributeError
  \/ exists parts : list string,
       _summarise_state content
       = inr (if String.eqb (String.concat ", " parts) ""
              then "state updated" else String.concat ", " parts)
       /\ (content !! "quality_score" = None -> content !! "iteration" = None ->
           content !! "issues" = None ->
           content !! "complexity_report" = None -> parts = [])
       /\ (forall v, content !! "quality_score" = Some v ->
             exists rest, parts = ("quality_score=" +:+ py_str v) :: rest).
Proof.
  unfold _summarise_state, value_get.
  destruct (content !! "quality_score") as [qs|];
    destruct (content !! "iteration") as [it|];
    destruct (content !! "issues") as [[]|];
    destruct (content !! "complexity_report") as [[]|];
    try (left; reflexivity);
    right;
    repeat match goal with
           | |- context [is_not_None ?v] => destruct (is_not_None v)
           end;
    cbn [append_if app];
    (eexists; split; [reflexivity|]; split;
     [intros; try done|intros v [= <-]; eauto]).
Qed.

(** X6. A summary is never empty. It is the placeholder ["state updated"]
    when the state has none of the recognised keys, and it begins with
    [quality_score=] followed by the rendering of the score when the state
    has a [quality_score]. *)
Theorem X6_summary_never_empty_placeholder_when_nothing_known
    content summary :
  _summarise_state content = inr summary ->
  summary ≠ ""
  /\ (content !! "quality_score" = None -> content !! "iteration" = None ->
      content !! "issues" = None -> content !! "complexity_report" = None ->
      summary = "state updated")
  /\ (forall v, content !! "quality_score" = Some v ->
        exists rest, summary = ("quality_score=" +:+ py_str v) +:+ rest).
Proof.
  intros Hsum.
  destruct (summarise_parts content) as [Hfail|(parts & Hparts & Hnil & Hqs)];
    [congruence|].
  rewrite Hsum in Hparts. injection Hparts as ->. split_and!.
  - destruct (String.eqb_spec (String.concat ", " parts) ""); done.
  - intros H1 H2 H3 H4. by rewrite (Hnil H1 H2 H3 H4).
  - intros v Hv. destruct (Hqs v Hv) as [rest ->].
    cbn [String.concat]. destruct rest as [|p rest].
    + exists "". rewrite string_app_empty_r.
      by destruct (String.eqb_spec ("quality_score=" +:+ py_str v) "").
    + eexists.
      destruct (String.eqb_spec
                  (("quality_score=" +:+ py_str v) ++
                   ", " ++ String.concat ", " (p :: rest))%string "")
        as [Heq|_]; [discriminate Heq|reflexivity].
Qed.

(** X7. The summary reads the keys [quality_score], [iteration], [issues]
    and [complexity_report] and nothing else: two states that agree on these
    four keys have the same summary, or both fail. *)
Theorem X7_summary_depends_on_four_keys content1 content2 :
  content1 !! "quality_score" = content2 !! "quality_score" ->
  content1 !! "iteration" = content2 !! "iteration" ->
  content1 !! "issues" = content2 !! "issues" ->
  content1 !! "complexity_report" = content2 !! "complexity_report" ->
  _summarise_state content1 = _summarise_state content2.
Proof.
  intros H1 H2 H3 H4. unfold _summarise_state.
  rewrite H1, H2, H3, H4. reflexivity.
Qed.

(** *** executor.py: [run_graph] *)

Lemma run_graph_frame_trace graph initial_state run_id w fo w' calls :
  run_graph_frame graph initial_state run_id w = (fo, w') ->
  invoked w' = (invoked w ++ calls)%list ->
  exists ending,
    loop_run graph run_id (run_known run_id (RUNS w))
             (VStr (start_node_id graph)) 0
             (seeded (heap w !!! initial_state)) calls ending
    /\ observed run_id
                (final_ending run_id (run_known run_id (RUNS w)) ending) fo w'
    /\ (forall f r, fo = Returned f -> run_id = Some r ->
          exists run, RUNS w' !! r = Some run
                      /\ Store.state run = state f
                      /\ Store.log run = log f
                      /\ Store.status run = status f).
Proof.
  intros Hfr Hinv.
  destruct (run_graph_frame_sound graph initial_state run_id w)
    as (fo' & w'' & calls' & ending & Hfr' & Hinv' & Hloop & Hobs & Hstore).
  rewrite Hfr in Hfr'. injection Hfr' as <- <-.
  rewrite Hinv' in Hinv. apply app_inv_head in Hinv as ->.
  eauto.
Qed.

Lemma run_graph_frame_log graph initial_state run_id w f w' calls :
  run_graph_frame graph initial_state run_id w = (Returned f, w') ->
  invoked w' = (invoked w ++ calls)%list ->
  length (log f) = length calls
  /\ map Models.step (log f) = seqZ 1 (Z.of_nat (length calls))
  /\ map node_id (log f) = calls.*1.
Proof.
  intros Hfr Hinv.
  pose proof (run_graph_of_frame _ _ _ _ _ _ Hfr) as Hrun.
  destruct (run_graph_log _ _ _ _ _ _ _ Hrun) as (calls' & Hinv' & H).
  rewrite Hinv in Hinv'. apply app_inv_head in Hinv' as <-. exact H.
Qed.

(** X8. With [max_steps <= 0] no node is called: [run_graph] returns the
    seeded copy of the initial state and an empty log, the start node is
    left pending and the status, also the stored one, is
    [max_steps_reached]. *)
Theorem X8_no_budget_no_node_called graph initial_state run_id w :
  max_steps graph <= 0 ->
  run_known run_id (RUNS w) = true ->
  exists f w',
    run_graph_frame graph initial_state run_id w = (Returned f, w')
    /\ invoked w' = invoked w
    /\ log f = []
    /\ step f = 0
    /\ current_node_id f = VStr (start_node_id graph)
    /\ status f = max_steps_reached
    /\ heap w' !!! state f = seeded (heap w !!! initial_state)
    /\ forall r, run_id = Some r ->
         exists run, RUNS w' !! r = Some run
                     /\ Store.status run = max_steps_reached
                     /\ Store.log run = [].
Proof.
  intros Hmax Hk.
  destruct (run_graph_frame_sound graph initial_state run_id w)
    as (fo & w' & calls & ending & Hfr & Hinv & Hloop & Hobs & Hstore).
  rewrite Hk in Hobs.
  assert (calls = []
          /\ ending = Exhausted (VStr (start_node_id graph)) 0
                        (seeded (heap w !!! initial_state))) as [-> ->].
  { inversion Hloop; subst; try lia; try done. }
  assert (observed run_id
            (Exhausted (VStr (start_node_id graph)) 0
               (seeded (heap w !!! initial_state))) fo w') as Hobs'.
  { by destruct run_id. }
  simpl in Hobs'. destruct Hobs' as (f & -> & Hcur & Hstep & Hd & Hs).
  rewrite app_nil_r in Hinv.
  destruct (run_graph_frame_log _ _ _ _ _ _ [] Hfr) as (Hlen & _).
  { by rewrite app_nil_r. }
  assert (log f = []) as Hlog by by apply nil_length_inv.
  exists f, w'. split_and!; try done.
  intros r ->. destruct (Hstore f r eq_refl eq_refl) as (run & Hr & _ & Hl & Hrs).
  exists run. split_and!; [done|congruence|congruence].
Qed.

(** X9. The executor does not check that an edge target or a [_next_node]
    override names a node of the graph: the run goes on until that node is
    due. Let the last node called return a state without truthy [_finished]
    whose successor (the [_next_node] override if truthy, else the edge) is
    not [None] and names no node of the graph, in a run whose [run_id] is
    absent or known to the store and which has made fewer calls than
    [max_steps]. Then [run_graph] raises; it does not stop quietly. Where the
    summary of the returned state can be derived the exception is KeyError
    for a name that is not a key of [nodes] and TypeError for a list or a
    mapping; where it cannot ([complexity_report] bound to something without
    [get]) the exception is the summary's AttributeError, raised before the
    successor is looked up. *)
Theorem X9_unknown_next_node_raises
    graph initial_state run_id w fo w' calls name arg node content' target :
  run_graph_frame graph initial_state run_id w = (fo, w') ->
  invoked w' = (invoked w ++ calls)%list ->
  last calls = Some (name, arg) ->
  nodes graph !! name = Some node ->
  returned_content (node arg) = Some content' ->
  truthy (get content' "_finished") = false ->
  run_known run_id (RUNS w) = true ->
  Z.of_nat (length calls) < max_steps graph ->
  target = next_node graph name (get content' "_next_node") ->
  is_not_None target = true ->
  (forall s, target = VStr s -> nodes graph !! s = None) ->
  fo = Raised (if report_is_mapping content'
               then match target with
                    | VList _ | VDict _ => TypeError
                    | _ => KeyError target
                    end
               else AttributeError).
Proof.
  intros Hfr Hinv Hlast Hnode Hret Hfin Hk Hlen -> Hnn Hmissing.
  destruct (run_graph_frame_trace _ _ _ _ _ _ _ Hfr Hinv)
    as (ending & Hloop & Hobs & _).
  destruct (report_is_mapping content') eqn:Hrep; cycle 1.
  { apply summarise_fails in Hrep.
    assert ((name, arg) ∈ calls) as Hin.
    { apply last_Some in Hlast as [l' ->]. set_solver. }
    destruct (loop_run_summary_fails_last _ _ _ _ _ _ _ _ Hloop _ _ _ _ _
                Hin Hnode Hret Hrep) as [-> _].
    simpl in Hobs. by subst fo. }
  destruct (summarise_ok _ Hrep) as [summary Hsum].
  destruct (loop_run_last_returned _ _ _ _ _ _ _ _ Hloop _ _ _ _
              Hlast Hnode Hret)
    as [(e & -> & [He|[[Hk' _]|[_ Hget]]])|[(Hf & _)|(_ & n & ->)]];
    try congruence.
  - simpl in Hobs. subst fo. f_equal.
    unfold nodes_getitem in Hget.
    destruct (next_node graph name (get content' "_next_node")) as [| | | |s| |];
      try congruence.
    rewrite (Hmissing s eq_refl) in Hget. congruence.
  - exfalso.
    pose proof (loop_run_exhausted _ _ _ _ _ _ _ _ Hloop _ _ _ eq_refl)
      as Hexit.
    apply loop_run_bound in Hloop as [_ Hn].
    rewrite Hnn in Hexit. simpl in Hexit. apply Z.ltb_ge in Hexit. lia.
Qed.

Lemma persist_store_frame run_id st lg s w w2 :
  persist run_id st lg s w = (Returned tt, w2) ->
  store_frame run_id (RUNS w) (RUNS w2).
Proof.
  destruct run_id as [r|]; simpl.
  - unfold store_update, update_run.
    destruct (RUNS w !! r) as [run|] eqn:Hr; [|discriminate].
    intros [= <-]. simpl. split_and!.
    + intros k Hk. by rewrite lookup_insert_ne.
    + done.
    + intros run0 [= <-]. rewrite lookup_insert_eq. eauto.
  - unfold mret, M_ret. by intros [= <-].
Qed.

Lemma store_frame_refl run_id R : store_frame run_id R R.
Proof.
  destruct run_id as [r|]; simpl; [|done]. split_and!; eauto.
Qed.

Lemma store_frame_trans run_id R0 R1 R2 :
  store_frame run_id R0 R1 -> store_frame run_id R1 R2 ->
  store_frame run_id R0 R2.
Proof.
  destruct run_id as [r|]; simpl; [|congruence].
  intros (H1 & H2 & H3) (H1' & H2' & H3'). split_and!.
  - intros k Hk. by rewrite H1', H1.
  - eauto.
  - intros run0 Hr0. destruct (H3 run0 Hr0) as (run1 & Hr1 & ? & ? & ?).
    destruct (H3' run1 Hr1) as (run2 & Hr2 & ? & ? & ?).
    exists run2. split_and!; congruence.
Qed.

Lemma while_loop_store_frame graph run_id fuel R0 f w o w' :
  store_frame run_id R0 (RUNS w) ->
  while_loop fuel graph run_id f w = (o, w') -> o ≠ OutOfFuel ->
  store_frame run_id R0 (RUNS w').
Proof.
  intros HI Hw Hne.
  refine (while_loop_rule graph run_id
            (fun _ w => store_frame run_id R0 (RUNS w))
            (fun _ w => store_frame run_id R0 (RUNS w))
            _ _ fuel f w o w' HI Hw Hne).
  - auto.
  - clear. intros f w o w' HI _ Hstep.
    inversion Hstep as
      [e Hget
      |name node after e Hcur Hnode Hraise
      |name node st wa e Hcur Hnode Hcall Hsum
      |name node st wa summary e Hcur Hnode Hcall Hsum Hp
      |name node st wa summary w2 Hcur Hnode Hcall Hsum Hp Hfin
      |name node st wa summary w2 Hcur Hnode Hcall Hsum Hp Hfin]; subst;
      try done;
      try (apply call_returned in Hcall as (HR & _); by rewrite HR).
    + apply call_returned in Hcall as (HR & _).
      apply persist_store_frame in Hp. rewrite HR in Hp.
      by eapply store_frame_trans.
    + apply call_returned in Hcall as (HR & _).
      apply persist_store_frame in Hp. rewrite HR in Hp. simpl.
      by eapply store_frame_trans.
Qed.

Lemma run_graph_frame_store_frame graph initial_state run_id w fo w' :
  run_graph_frame graph initial_state run_id w = (fo, w') ->
  store_frame run_id (RUNS w) (RUNS w').
Proof.
  intros Hfr.
  assert (fo ≠ OutOfFuel) as Hfo.
  { destruct (run_graph_frame_sound graph initial_state run_id w)
      as (fo' & w'' & calls & ending & Hfr' & _ & _ & Hobs & _).
    rewrite Hfr in Hfr'. injection Hfr' as <- <-.
    by eapply observed_not_out_of_fuel. }
  destruct (run_graph_frame_unfold graph initial_state run_id w)
    as (w1 & _ & HR & _ & _ & Hunf).
  rewrite Hunf in Hfr. unfold mbind, M_bind in Hfr.
  match type of Hfr with
  | context [while_loop ?n graph run_id ?f0 w1] =>
      destruct (while_loop n graph run_id f0 w1) as [o2 w2] eqn:Hw;
      pose proof (while_loop_store_frame graph run_id n (RUNS w) f0 w1 o2 w2)
        as Hloop
  end.
  rewrite HR in Hloop. specialize (Hloop (store_frame_refl _ _) Hw).
  destruct o2 as [f| |]; [| |by simplify_eq]; simplify_eq;
    try (by apply Hloop).
  destruct (persist run_id (state f) (log f) (status f) w2)
    as [[[]| |] w3] eqn:Hp; simplify_eq.
  - unfold mret, M_ret in Hfr. simplify_eq.
    apply persist_store_frame in Hp.
    eapply store_frame_trans; [by apply Hloop|done].
  - destruct (persist_cases run_id (state f) (log f) (status f) w2)
      as [(r & _ & _ & He)|(w3' & Hp' & _)]; [|congruence].
    rewrite He in Hp. simplify_eq. by apply Hloop.
Qed.

(** X10. [run_graph] changes nothing in [RUNS] but the record of its own
    run: without a [run_id] the store is left as it was; with one, every
    other record is untouched, the run's record is neither created nor
    removed, and its [id], [graph_id] and [created_at] stay as they were,
    however the call ends. *)
Theorem X10_run_graph_touches_only_its_run
    graph initial_state run_id w fo w' :
  run_graph_frame graph initial_state run_id w = (fo, w') ->
  (run_id = None -> RUNS w' = RUNS w)
  /\ (forall r, run_id = Some r ->
        (forall k, k ≠ r -> RUNS w' !! k = RUNS w !! k)
        /\ (RUNS w !! r = None -> RUNS w' = RUNS w)
        /\ (forall run0, RUNS w !! r = Some run0 ->
              exists run, RUNS w' !! r = Some run
                          /\ Store.id run = Store.id run0
                          /\ graph_id run = graph_id run0
                          /\ created_at run = created_at run0))
  /\ dom (RUNS w') = dom (RUNS w).
Proof.
  intros Hfr.
  pose proof (run_graph_frame_store_frame _ _ _ _ _ _ Hfr) as Hframe.
  split_and!.
  - intros ->. exact Hframe.
  - intros r ->. destruct Hframe as (Hoth & Hnone & Hsome). split_and!.
    + exact Hoth.
    + intros Hr. apply map_eq. intros k.
      destruct (decide (k = r)) as [->|Hk]; [|by apply Hoth].
      by rewrite Hnone, Hr.
    + exact Hsome.
  - destruct run_id as [r|]; simpl in Hframe; [|by rewrite Hframe].
    destruct Hframe as (Hoth & Hnone & Hsome).
    apply set_eq. intros k. rewrite !elem_of_dom.
    destruct (decide (k = r)) as [->|Hk]; [|by rewrite Hoth].
    destruct (RUNS w !! r) as [run0|] eqn:Hr.
    + destruct (Hsome run0 eq_refl) as (run & -> & _). split; eauto.
    + by rewrite Hnone.
Qed.

Lemma while_loop_store_not_terminal graph run_id fuel R0 f w o w' :
  status f = running ->
  store_not_terminal run_id R0 (RUNS w) ->
  while_loop fuel graph run_id f w = (o, w') ->
  forall e, o = Raised e -> store_not_terminal run_id R0 (RUNS w').
Proof.
  intros Hst HI Hw e Ho.
  refine (while_loop_rule graph run_id
            (fun f w => status f = running
                        /\ store_not_terminal run_id R0 (RUNS w))
            (fun o w => forall e, o = Raised e ->
                                  store_not_terminal run_id R0 (RUNS w))
            _ _ fuel f w o w' (conj Hst HI) Hw _ e Ho); [| |by subst].
  - intros ? ? _ _ ? [=].
  - clear. intros f w o w' [Hst HI] _ Hstep.
    assert (forall st lg w1 w2,
              RUNS w1 = RUNS w ->
              persist run_id st lg (status f) w1 = (Returned tt, w2) ->
              store_not_terminal run_id R0 (RUNS w2)) as Hpersist.
    { intros st lg w1 w2 HR Hp r run0 -> Hr0.
      destruct (persist_stored _ _ _ _ _ _ Hp) as (run & Hr & _ & _ & Hs).
      exists run. split; [done|]. right. congruence. }
    inversion Hstep as
      [e Hget
      |name node after e Hcur Hnode Hraise
      |name node st wa e Hcur Hnode Hcall Hsum
      |name node st wa summary e Hcur Hnode Hcall Hsum Hp
      |name node st wa summary w2 Hcur Hnode Hcall Hsum Hp Hfin
      |name node st wa summary w2 Hcur Hnode Hcall Hsum Hp Hfin]; subst;
      try (intros ? _; done);
      try (intros ? _; apply call_returned in Hcall as (HR & _);
           by rewrite HR).
    + intros ? [=].
    + split; [done|]. apply call_returned in Hcall as (HR & _). simpl.
      eapply Hpersist; eauto.
Qed.

Lemma run_graph_frame_raised_store graph initial_state r w run0 w' e :
  RUNS w !! r = Some run0 ->
  run_graph_frame graph initial_state (Some r) w = (Raised e, w') ->
  store_not_terminal (Some r) (RUNS w) (RUNS w').
Proof.
  intros Hr0 Hfr.
  destruct (run_graph_frame_unfold graph initial_state (Some r) w)
    as (w1 & _ & HR & _ & _ & Hunf).
  rewrite Hunf in Hfr. unfold mbind, M_bind in Hfr.
  match type of Hfr with
  | context [while_loop ?n graph (Some r) ?f0 w1] =>
      destruct (while_loop n graph (Some r) f0 w1) as [o2 w2] eqn:Hw
  end.
  destruct o2 as [f| |]; simplify_eq.
  - destruct (persist_cases (Some r) (state f) (log f) (status f) w2)
      as [(r' & _ & Hk & He)|(w3 & Hp' & _)]; rewrite ?He, ?Hp' in Hfr;
      [|discriminate Hfr].
    exfalso. injection Hfr as _ <-.
    destruct (while_loop_sound graph (Some r) (Z.to_nat (max_steps graph))
                {| state := fresh (dom (heap w)); log := [];
                   current_node_id := VStr (start_node_id graph);
                   step := 0; status := running |} w1)
      as (o & w'' & calls & ending & Hw' & _ & _ & _ & Hkn); [simpl; lia|].
    rewrite Hw in Hw'. injection Hw' as <- <-.
    rewrite Hk, HR in Hkn. simpl in Hkn. by rewrite Hr0 in Hkn.
  - eapply while_loop_store_not_terminal; [|
      |exact Hw|reflexivity]; [done|].
    intros r' run0' [= <-] Hr0'. rewrite HR in *. eauto.
Qed.

(** X11. Whatever exception leaves [run_graph] (a failing node, a node
    name that is not in the graph, a summary that cannot be derived), the
    record of the run is the one found at the start or carries the status
    [running]: a terminal status is stored only by a run that returns. *)
Theorem X11_exception_never_stores_terminal_status
    graph initial_state r w run0 w' e :
  RUNS w !! r = Some run0 ->
  run_graph_frame graph initial_state (Some r) w = (Raised e, w') ->
  exists run,
    RUNS w' !! r = Some run
    /\ (run = run0 \/ Store.status run = running)
    /\ (Store.status run0 ≠ completed -> Store.status run ≠ completed)
    /\ (Store.status run0 ≠ max_steps_reached ->
          Store.status run ≠ max_steps_reached).
Proof.
  intros Hr0 Hfr.
  pose proof (run_graph_frame_raised_store _ _ _ _ _ _ _ Hr0 Hfr) as Hnt.
  destruct (Hnt r run0 eq_refl Hr0) as (run & Hr & Hcase).
  exists run. split_and!; [done|done| |];
    destruct Hcase as [->|Hs]; auto; rewrite Hs; done.
Qed.

(** X12. With a [run_id] that the store does not know, [run_graph] never
    returns: it raises and leaves [RUNS] as it was. At most one node has been
    called by then, and when the budget allows a step and the start node
    returns a state whose summary can be derived, that node has run and the
    exception is the KeyError of the first [update_run]. *)
Theorem X12_unknown_run_id_raises_after_first_step
    graph initial_state r w fo w' calls :
  RUNS w !! r = None ->
  run_graph_frame graph initial_state (Some r) w = (fo, w') ->
  invoked w' = (invoked w ++ calls)%list ->
  (exists e, fo = Raised e)
  /\ RUNS w' = RUNS w
  /\ (length calls <= 1)%nat
  /\ (max_steps graph <= 0 -> calls = [] /\ fo = Raised (run_not_found r))
  /\ (forall (node : NodeCallable) content',
        1 <= max_steps graph ->
        nodes graph !! start_node_id graph = Some node ->
        returned_content (node (seeded (heap w !!! initial_state)))
        = Some content' ->
        report_is_mapping content' = true ->
        calls = [(start_node_id graph, seeded (heap w !!! initial_state))]
        /\ fo = Raised (run_not_found r)).
Proof.
  intros Hr Hfr Hinv.
  destruct (run_graph_frame_trace _ _ _ _ _ _ _ Hfr Hinv)
    as (ending & Hloop & Hobs & _).
  simpl in Hloop, Hobs. rewrite Hr in Hloop, Hobs.
  pose proof (run_graph_frame_store_frame _ _ _ _ _ _ Hfr) as Hframe.
  simpl in Hframe.
  assert (RUNS w' = RUNS w) as HR.
  { destruct Hframe as (Hoth & Hnone & _).
    apply map_eq. intros k.
    destruct (decide (k = r)) as [->|Hk]; [|by apply Hoth].
    by rewrite Hnone, Hr. }
  split_and!.
  - inversion Hloop; subst; simpl in Hobs; eauto;
      match goal with H : _ \/ false = true |- _ => by destruct H end.
  - done.
  - inversion Hloop; subst; simpl; try lia;
      match goal with H : _ \/ false = true |- _ => by destruct H end.
  - intros Hmax. inversion Hloop; subst; try lia; simpl in Hobs; try done.
  - intros node content' Hmax Hnode Hret Hrep.
    destruct (summarise_ok _ Hrep) as [summary Hsum].
    inversion Hloop; subst; simpl in Hobs;
      try match goal with H : _ \/ false = true |- _ => by destruct H end;
      simplify_eq; try done.
    + match goal with
      | H : is_not_None _ && (0 <? _) = false |- _ =>
          simpl in H; apply Z.ltb_ge in H; lia
      end.
    + match goal with
      | H : nodes_getitem _ _ = inl _ |- _ =>
          cbn in H; rewrite Hnode in H; discriminate H
      end.
    + match goal with
      | H : nodes graph !! _ = Some ?n, H' : ?n _ = NodeRaises _ _ |- _ =>
          pose proof (eq_trans (eq_sym H) Hnode) as Heq;
          injection Heq as ->; rewrite H' in Hret; discriminate Hret
      end.
    + match goal with
      | H : nodes graph !! _ = Some ?n,
        H' : returned_content (?n _) = Some _ |- _ =>
          pose proof (eq_trans (eq_sym H) Hnode) as Heq;
          injection Heq as ->; congruence
      end.
Qed.

Lemma loop_run_finished graph run_id known current step content calls ending :
  loop_run graph run_id known current step content calls ending ->
  forall n content', ending = Finished n content' ->
    truthy (get content' "_finished") = true
    /\ exists name arg (node : NodeCallable),
         last calls = Some (name, arg)
         /\ nodes graph !! name = Some node
         /\ returned_content (node arg) = Some content'.
Proof.
  induction 1 as
    [cur n d Hc
    |cur n d e0 Hc Hget
    |name0 node0 n d after0 e0 Hlt Hnode0 Hraise0
    |name0 node0 n d d' e0 Hlt Hnode0 Hret0 Hsum0
    |name0 node0 n d d' s0 r0 Hlt Hnode0 Hret0 Hsum0 Hrun0 Hk0
    |name0 node0 n d d' s0 Hlt Hnode0 Hret0 Hsum0 Hk0 Hfin0
    |name0 node0 n d d' s0 calls0 ending0 Hlt Hnode0 Hret0 Hsum0 Hk0 Hfin0
       Hrest IH]; intros m c HE; try discriminate HE.
  - injection HE as <- <-. split; [done|]. exists name0, d, node0. by simpl.
  - destruct (IH m c HE) as (Hfin & name & arg & node & Hlast & Hnode & Hret).
    split; [done|]. exists name, arg, node. split_and!; [|done|done].
    destruct calls0; [done|]. by rewrite last_cons, Hlast.
Qed.

Lemma loop_run_exhausted_state graph run_id known current step content calls
    ending :
  loop_run graph run_id known current step content calls ending ->
  forall current' n content', ending = Exhausted current' n content' ->
    calls ≠ [] ->
    truthy (get content' "_finished") = false
    /\ content' !! "_next_node" = None.
Proof.
  induction 1 as
    [cur n d Hc
    |cur n d e0 Hc Hget
    |name0 node0 n d after0 e0 Hlt Hnode0 Hraise0
    |name0 node0 n d d' e0 Hlt Hnode0 Hret0 Hsum0
    |name0 node0 n d d' s0 r0 Hlt Hnode0 Hret0 Hsum0 Hrun0 Hk0
    |name0 node0 n d d' s0 Hlt Hnode0 Hret0 Hsum0 Hk0 Hfin0
    |name0 node0 n d d' s0 calls0 ending0 Hlt Hnode0 Hret0 Hsum0 Hk0 Hfin0
       Hrest IH]; intros cur' m c HE Hne; try discriminate HE; try done.
  destruct calls0 as [|call0 calls0]; [|by eapply IH].
  inversion Hrest; subst; try discriminate.
  injection H4 as <- <- <-.
  unfold get in *. rewrite lookup_delete_ne by done.
  split; [done|]. by rewrite lookup_delete_eq.
Qed.

(** X13. What a returning [run_graph] leaves behind. The record of its run
    refers to the returned state object and holds the returned log and a
    terminal status. The status is [max_steps_reached] only if a next node is
    pending and the whole budget has been used ([max(0, max_steps)] calls);
    then, if any node ran, the returned state has no truthy [_finished] and no
    [_next_node]. It is [completed] only if the last node's state, which is
    the returned one, has a truthy [_finished], or no next node is left. *)
Theorem X13_returned_run_record_and_status
    graph initial_state r w f w' calls run0 :
  RUNS w !! r = Some run0 ->
  run_graph_frame graph initial_state (Some r) w = (Returned f, w') ->
  invoked w' = (invoked w ++ calls)%list ->
  exists run,
    RUNS w' !! r = Some run
    /\ Store.state run = state f
    /\ Store.log run = log f
    /\ length (Store.log run) = length calls
    /\ (Store.status run = completed \/ Store.status run = max_steps_reached)
    /\ (Store.status run = max_steps_reached ->
          is_not_None (current_node_id f) = true
          /\ Z.of_nat (length calls) = Z.max 0 (max_steps graph)
          /\ (calls ≠ [] ->
                truthy (get (heap w' !!! state f) "_finished") = false
                /\ (heap w' !!! state f) !! "_next_node" = None))
    /\ (Store.status run = completed ->
          (calls ≠ []
           /\ truthy (get (heap w' !!! state f) "_finished") = true)
          \/ current_node_id f = VNone).
Proof.
  intros Hr Hfr Hinv.
  destruct (run_graph_frame_trace _ _ _ _ _ _ _ Hfr Hinv)
    as (ending & Hloop & Hobs & Hstore).
  destruct (Hstore f r eq_refl eq_refl) as (run & Hrun & Hst & Hlg & Hs).
  destruct (run_graph_frame_log _ _ _ _ _ _ _ Hfr Hinv) as (_ & Hsteps & _).
  simpl in Hloop, Hobs. rewrite Hr in Hloop, Hobs.
  pose proof (loop_run_bound _ _ _ _ _ _ _ _ Hloop) as [Hlen Hn].
  exists run. rewrite Hs, Hlg. split_and!; [done|done|done| | | |].
  - rewrite <- (length_map Models.step), Hsteps, length_seqZ. lia.
  - destruct ending as [cur n d|n d|e]; simpl in Hobs.
    + destruct Hobs as (f' & [= <-] & _ & _ & _ & ->).
      destruct (is_not_None cur); auto.
    + destruct Hobs as (f' & [= <-] & _ & _ & ->). auto.
    + discriminate Hobs.
  - intros Hmax. destruct ending as [cur n d|n d|e]; simpl in Hobs.
    + destruct Hobs as (f' & [= <-] & Hcur & Hstep & Hd & Hstat).
      pose proof (loop_run_exhausted _ _ _ _ _ _ _ _ Hloop _ _ _ eq_refl)
        as Hex.
      rewrite Hmax in Hstat. subst cur.
      destruct (is_not_None (current_node_id f)); [|discriminate Hstat].
      simpl in Hex. apply Z.ltb_ge in Hex.
      split_and!; [done|lia|].
      intros Hne. rewrite Hd.
      by eapply loop_run_exhausted_state.
    + destruct Hobs as (f' & [= <-] & _ & _ & Hstat). congruence.
    + discriminate Hobs.
  - intros Hc. destruct ending as [cur n d|n d|e]; simpl in Hobs.
    + destruct Hobs as (f' & [= <-] & Hcur & Hstep & Hd & Hstat).
      rewrite Hc in Hstat. subst cur. right.
      destruct (current_node_id f); try discriminate Hstat. done.
    + destruct Hobs as (f' & [= <-] & _ & Hd & _). left.
      destruct (loop_run_finished _ _ _ _ _ _ _ _ Hloop _ _ eq_refl)
        as (Hfin & name & arg & node & Hlast & _).
      rewrite Hd. split; [|done]. intros ->. discriminate Hlast.
    + discriminate Hobs.
Qed.

Lemma while_loop_log_describes graph run_id fuel calls0 f w f' w' :
  log_describes graph calls0 f w ->
  while_loop fuel graph run_id f w = (Returned f', w') ->
  log_describes graph calls0 f' w'.
Proof.
  intros HI Hw.
  refine (while_loop_rule graph run_id (log_describes graph calls0)
            (fun o w => forall f', o = Returned f' ->
                                   log_describes graph calls0 f' w)
            _ _ fuel f w _ w' HI Hw _ f' eq_refl); [| |done].
  - intros f0 w0 H0 _ f1 [= <-]. exact H0.
  - intros f0 w0 o w1 (calls & Hinv0 & Hall) _ Hstep.
    assert (forall name (node : NodeCallable) st wa summary w2 stp,
              nodes graph !! name = Some node ->
              call name node (state f0) w0 = (Returned st, wa) ->
              _summarise_state (heap wa !!! st) = inr summary ->
              invoked w2 = invoked wa ->
              exists calls',
                invoked w2 = (calls0 ++ calls')%list
                /\ Forall2 (entry_describes graph)
                     (log f0 ++ [log_entry stp name summary])%list calls')
      as Hext.
    { intros name node st wa summary w2 stp Hnode Hcall Hsum Hi.
      apply call_returned in Hcall as (_ & _ & Hinv & Hret & _).
      exists (calls ++ [(name, heap w0 !!! state f0)])%list. split.
      - by rewrite Hi, Hinv, Hinv0, <- app_assoc.
      - apply Forall2_app; [done|]. constructor; [|constructor].
        exists node, (heap wa !!! st). by simpl. }
    inversion Hstep as
      [e Hget
      |name node after e Hcur Hnode Hraise
      |name node st wa e Hcur Hnode Hcall Hsum
      |name node st wa summary e Hcur Hnode Hcall Hsum Hp
      |name node st wa summary w2 Hcur Hnode Hcall Hsum Hp Hfin
      |name node st wa summary w2 Hcur Hnode Hcall Hsum Hp Hfin]; subst;
      try done.
    + intros f1 [= <-]. apply persist_returned in Hp as [_ Hi].
      unfold log_describes. simpl. eauto.
    + apply persist_returned in Hp as [_ Hi].
      unfold log_describes. simpl. eauto.
Qed.

(** X14. The summary of each log entry is the one derived from the state
    that step's node returned (before [_next_node] is popped from it), and the
    entry carries that node's name: the returned log describes the calls of
    the run one by one, in order. *)
Theorem X14_log_summaries_describe_returned_states
    graph initial_state run_id w st lg w' calls :
  run_graph graph initial_state run_id w = (Returned (st, lg), w') ->
  invoked w' = (invoked w ++ calls)%list ->
  Forall2 (entry_describes graph) lg calls
  /\ forall i entry, lg !! i = Some entry ->
       exists name arg (node : NodeCallable) content',
         calls !! i = Some (name, arg)
         /\ nodes graph !! name = Some node
         /\ returned_content (node arg) = Some content'
         /\ _summarise_state content' = inr (summary entry)
         /\ _summarise_state (delete "_next_node" content')
            = inr (summary entry).
Proof.
  intros Hrun Hinv.
  assert (Forall2 (entry_describes graph) lg calls) as Hall.
  { destruct (run_graph_frame_unfold graph initial_state run_id w)
      as (w1 & _ & _ & _ & Hinv1 & Hunf).
    unfold run_graph in Hrun. unfold mbind at 1, M_bind at 1 in Hrun.
    rewrite Hunf in Hrun. unfold mbind, M_bind in Hrun.
    match type of Hrun with
    | context [while_loop ?n graph run_id ?f0 w1] =>
        destruct (while_loop n graph run_id f0 w1) as [[f| |] w2] eqn:Hw;
        try discriminate Hrun;
        pose proof (while_loop_log_describes graph run_id n (invoked w)
                      f0 w1 f w2) as Hloop
    end.
    destruct Hloop as (calls' & Hinv2 & Hall); [|done|].
    { exists []. split; [by rewrite app_nil_r|constructor]. }
    destruct (persist run_id (state f) (log f) (status f) w2)
      as [[[]| |] w3] eqn:Hp; try discriminate Hrun.
    apply persist_returned in Hp as [_ Hi].
    unfold mret, M_ret in Hrun. injection Hrun as <- <- <-.
    rewrite Hi, Hinv2 in Hinv. apply app_inv_head in Hinv as <-. exact Hall. }
  split; [exact Hall|].
  intros i entry Hi.
  destruct (Forall2_lookup_l _ _ _ _ _ Hall Hi)
    as ([name arg] & Hc & node & content' & Hnode & Hret & Hsum & _).
  exists name, arg, node, content'. split_and!; try done.
  rewrite <- Hsum. apply (summarise_ignores_next_node content' VNone).
Qed.

(** *** api/graph_routes.py *)

Lemma resolve_nodes_spec (NODE_REGISTRY : NodeRegistry) node_ids node_funcs :
  match resolve_nodes NODE_REGISTRY node_ids node_funcs with
  | inr funcs =>
      (forall n, n ∈ node_ids -> is_Some (NODE_REGISTRY !! n))
      /\ forall k, funcs !! k = if decide (k ∈ node_ids)
                                then NODE_REGISTRY !! k else node_funcs !! k
  | inl exc =>
      status_code exc = 400
      /\ exists pre n post,
           node_ids = (pre ++ n :: post)%list
           /\ NODE_REGISTRY !! n = None
           /\ (forall k, k ∈ pre -> is_Some (NODE_REGISTRY !! k))
           /\ detail exc = "Node '" +:+ n +:+
                "' is not registered. Register it in a workflow module first."
  end.
Proof.
  revert node_funcs. induction node_ids as [|n rest IH]; intros acc; simpl.
  - split; [by intros n Hn; apply elem_of_nil in Hn|].
    intros k. destruct (decide (k ∈ [])) as [Hk|_]; [|done].
    by apply elem_of_nil in Hk.
  - unfold get_node. destruct (NODE_REGISTRY !! n) as [func|] eqn:Hn.
    + specialize (IH (<[n := func]> acc)).
      destruct (resolve_nodes NODE_REGISTRY rest (<[n := func]> acc))
        as [exc|funcs].
      * destruct IH as (Hcode & pre & m & post & -> & Hm & Hpre & Hd).
        split; [done|]. exists (n :: pre), m, post. split_and!; try done.
        intros k [->|Hk]%elem_of_cons; eauto.
      * destruct IH as [Hall Hlook]. split.
        -- intros k [->|Hk]%elem_of_cons; eauto.
        -- intros k. rewrite Hlook.
           destruct (decide (k ∈ rest)) as [Hk|Hk].
           ++ rewrite decide_True; [done|]. by apply elem_of_cons; right.
           ++ destruct (decide (k = n)) as [->|Hne].
              ** rewrite lookup_insert_eq, decide_True; [done|].
                 by apply elem_of_cons; left.
              ** rewrite lookup_insert_ne by done.
                 rewrite decide_False; [done|].
                 by intros [?|?]%elem_of_cons.
    + split; [done|]. exists [], n, rest. split_and!; try done.
      by intros k Hk; apply elem_of_nil in Hk.
Qed.

(** X15. [create_graph] accepts a request exactly when every listed node
    identifier is registered and [start_node] is one of the listed nodes.
    Then the graph saved under [graph_id] binds each listed identifier to the
    function the registry holds for it at that moment and nothing else, and
    takes [edges] and [max_steps] from the request as they are (an edge to an
    unlisted node or a budget of zero is accepted). Otherwise the request
    ends with status 400 and [GRAPHS] is left untouched. *)
Theorem X15_create_graph_checks_nodes_and_start_node
    (NODE_REGISTRY : NodeRegistry) (GRAPHS : Graphs) payload :
  ((forall n, n ∈ create_nodes payload -> is_Some (NODE_REGISTRY !! n))
   /\ create_start_node payload ∈ create_nodes payload ->
   exists graph,
     create_graph NODE_REGISTRY GRAPHS payload
     = (inr {| created_graph_id := create_graph_id payload;
               message := "Graph created successfully" |},
        <[create_graph_id payload := graph]> GRAPHS)
     /\ get_graph (create_graph NODE_REGISTRY GRAPHS payload).2
                  (create_graph_id payload) = inr graph
     /\ Models.id graph = create_graph_id payload
     /\ edges graph = create_edges payload
     /\ start_node_id graph = create_start_node payload
     /\ max_steps graph = create_max_steps payload
     /\ (forall n, nodes graph !! n
                   = if decide (n ∈ create_nodes payload)
                     then NODE_REGISTRY !! n else None)
     /\ is_Some (nodes graph !! start_node_id graph))
  /\ (~ ((forall n, n ∈ create_nodes payload -> is_Some (NODE_REGISTRY !! n))
         /\ create_start_node payload ∈ create_nodes payload) ->
      exists exc,
        create_graph NODE_REGISTRY GRAPHS payload = (inl exc, GRAPHS)
        /\ status_code exc = 400).
Proof.
  unfold create_graph.
  pose proof (resolve_nodes_spec NODE_REGISTRY (create_nodes payload) ∅)
    as Hres.
  destruct (resolve_nodes NODE_REGISTRY (create_nodes payload) ∅)
    as [exc|funcs].
  - destruct Hres as (Hcode & pre & n & post & Hids & Hn & _). split.
    + intros [Hall _]. exfalso.
      destruct (Hall n) as [func Hf]; [|congruence].
      rewrite Hids. apply elem_of_app. right. by apply elem_of_cons; left.
    + eauto.
  - destruct Hres as [Hall Hlook].
    assert (forall k, funcs !! k
                      = if decide (k ∈ create_nodes payload)
                        then NODE_REGISTRY !! k else None) as Hlook'.
    { intros k. rewrite Hlook. by destruct (decide _). }
    destruct (funcs !! create_start_node payload) as [func|] eqn:Hstart.
    + split; [|intros Hno; exfalso; apply Hno; split; [done|]].
      * intros _. eexists. split; [reflexivity|]. simpl.
        unfold get_graph, save_graph. simpl. rewrite lookup_insert_eq.
        rewrite Hstart. by split_and!.
      * rewrite Hlook' in Hstart.
        by destruct (decide (create_start_node payload ∈ create_nodes payload)).
    + split; [|eauto].
      intros [_ Hin]. exfalso. rewrite Hlook', decide_True in Hstart by done.
      destruct (Hall _ Hin) as [func Hf]. congruence.
Qed.

(** X16. [run_graph_endpoint] answers 404 for a graph that is not stored,
    and then creates no run and calls no node. For a stored graph it first
    creates the run [run_{len(RUNS)+1}] and changes no other record; the
    handler never answers with an error status itself. If it answers, the
    response carries that run's identifier, a terminal status and the state
    and log now held by the record, which is what [get_run_state] reports for
    the run. If an exception leaves it, the record stays behind with status
    [created] or [running]. *)
Theorem X16_run_graph_endpoint_persists_the_run
    (GRAPHS : Graphs) graph_id initial_state w o w' :
  run_graph_endpoint GRAPHS graph_id initial_state w = (o, w') ->
  match GRAPHS !! graph_id with
  | None =>
      o = Returned (inl {| status_code := 404;
                           detail := "Graph '" +:+ graph_id +:+ "' not found" |})
      /\ w' = w
  | Some graph =>
      let run_id := fresh_run_id (RUNS w) in
      (forall k, k ≠ run_id -> RUNS w' !! k = RUNS w !! k)
      /\ exists run,
           RUNS w' !! run_id = Some run
           /\ Store.id run = run_id
           /\ Store.graph_id run = Models.id graph
           /\ match o with
              | Returned (inr response) =>
                  response_run_id response = run_id
                  /\ response_status response = Store.status run
                  /\ (Store.status run = completed
                      \/ Store.status run = max_steps_reached)
                  /\ response_log response = Store.log run
                  /\ final_state response = heap w' !!! Store.state run
                  /\ (initial_state ∈ dom (heap w) ->
                      Store.state run ≠ initial_state)
                  /\ get_run_state run_id w'
                     = (Returned
                          (inr {| polled_run_id := run_id;
                                  polled_graph_id := Models.id graph;
                                  polled_state := final_state response;
                                  polled_log := response_log response;
                                  polled_status := response_status response |}),
                        w')
              | Returned (inl _) => False
              | Raised e =>
                  (Store.status run = created
                   /\ Store.state run = initial_state /\ Store.log run = [])
                  \/ Store.status run = running
              | OutOfFuel => False
              end
  end.
Proof.
  unfold run_graph_endpoint, get_graph.
  destruct (GRAPHS !! graph_id) as [graph|]; [|by intros [= <- <-]].
  unfold mbind at 1, M_bind at 1, store_create, create_run.
  set (r := fresh_run_id (RUNS w)).
  set (run0 := {| Store.id := r; graph_id := Models.id graph;
                  Store.state := initial_state; Store.log := [];
                  Store.status := created;
                  created_at := utcnow (ticks w);
                  updated_at := utcnow (ticks w) |}).
  set (w1 := set_RUNS (<[r := run0]> (RUNS w)) w).
  assert (RUNS w1 !! r = Some run0) as Hr0 by apply lookup_insert_eq.
  intros Hend. unfold mbind at 1, M_bind at 1 in Hend.
  destruct (run_graph_frame_sound graph initial_state (Some r) w1)
    as (fo & w2 & calls & ending & Hfr & _ & _ & Hobs & Hstore).
  pose proof (run_graph_frame_store_frame _ _ _ _ _ _ Hfr)
    as (Hoth & _ & Hkeep).
  destruct (Hkeep run0 Hr0) as (run & Hrun & Hid & Hgid & _).
  rewrite (run_graph_of_frame _ _ _ _ _ _ Hfr) in Hend.
  split.
  { assert (RUNS w' = RUNS w2) as ->.
    { destruct fo as [f| |]; simplify_eq; try done.
      unfold mbind, M_bind, store_get, get_run, dict_content in Hend.
      rewrite Hrun in Hend. simpl in Hend. unfold mret, M_ret in Hend.
      by simplify_eq. }
    intros k Hk. rewrite Hoth by done. simpl. by rewrite lookup_insert_ne. }
  destruct fo as [f| |].
  - unfold mbind, M_bind, store_get, get_run, dict_content in Hend.
    rewrite Hrun in Hend. simpl in Hend. unfold mret, M_ret in Hend.
    injection Hend as <- <-.
    destruct (Hstore f r eq_refl eq_refl) as (run' & Hrun' & Hst & Hlg & Hs).
    rewrite Hrun in Hrun'. injection Hrun' as <-.
    exists run. split_and!; try done; simpl.
    + rewrite Hs. unfold run_known in Hobs. rewrite Hr0 in Hobs.
      destruct ending as [cur n d|n d|e0]; simpl in Hobs.
      * destruct Hobs as (f' & [= <-] & _ & _ & _ & ->).
        destruct (is_not_None cur); auto.
      * destruct Hobs as (f' & [= <-] & _ & _ & ->). auto.
      * discriminate Hobs.
    + by rewrite Hst.
    + intros Hin Heq. rewrite Hst in Heq.
      destruct (run_graph_frame_heap graph initial_state (Some r) w1
                  (Returned f) w2 Hfr) as [_ Hnew].
      apply (Hnew f eq_refl). by rewrite Heq.
    + unfold get_run_state, get_run. rewrite Hrun.
      by rewrite Hid, Hgid, Hst, Hlg, Hs.
  - injection Hend as <- <-. exists run. split_and!; try done.
    destruct (run_graph_frame_raised_store _ _ _ _ _ _ _ Hr0 Hfr
                r run0 eq_refl Hr0) as (run' & Hrun' & Hcase).
    rewrite Hrun in Hrun'. injection Hrun' as <-.
    destruct Hcase as [->|Hs]; [by left|by right].
  - exfalso. unfold run_known in Hobs. rewrite Hr0 in Hobs.
    by eapply observed_not_out_of_fuel.
Qed.

(** *** workflows/code_review.py *)

Lemma py_len_nonneg `{Builtins} v n : py_len v = Some n -> 0 <= n.
Proof. destruct v; simpl; intros [= <-]; lia. Qed.

Lemma quality_score_bounds complexity issue_count :
  0 <= quality_score complexity issue_count <= 100.
Proof. unfold quality_score. lia. Qed.

(** X17. [evaluate_quality], on a state whose estimated complexity is an
    int [c] and whose [issues] have the length [n]: the score it writes is an
    int between 0 and 100, it reaches the threshold of 80 exactly when
    [3 * max(0, c - 5) + 5 * n <= 20], and it is appended to
    [score_history]. If [score_history] is bound to something that is not a
    list the node raises AttributeError after [quality_score] has already
    been written to the state. *)
Theorem X17_evaluate_quality_score_is_clamped
    `{Builtins} state complexity c n :
  value_get_default (get_default state "complexity_report" (VDict []))
                    "estimated_complexity" (VInt 0) = inr complexity ->
  number complexity = NInt c ->
  py_len (get_default state "issues" (VList [])) = Some n ->
  exists score,
    0 <= score <= 100
    /\ (QUALITY_THRESHOLD <= score <-> 3 * Z.max 0 (c - 5) + 5 * n <= 20)
    /\ (score = 100 <-> c <= 5 /\ n = 0)
    /\ match get_default state "score_history" (VList []) with
       | VList history =>
           evaluate_quality state
           = NodeReturnsSame
               (<["score_history" := VList (history ++ [VInt score])]>
                  (<["quality_score" := VInt score]> state))
       | _ =>
           evaluate_quality state
           = NodeRaises (<["quality_score" := VInt score]> state)
                        "AttributeError"
       end.
Proof.
  intros Hcr Hc Hn. pose proof (py_len_nonneg _ _ Hn) as Hn0.
  exists (quality_score c n).
  split; [apply quality_score_bounds|].
  split; [unfold quality_score, QUALITY_THRESHOLD; lia|].
  split; [unfold quality_score; lia|].
  unfold evaluate_quality. rewrite Hcr, Hc, Hn.
  assert (get_default (<["quality_score" := VInt (quality_score c n)]> state)
                      "score_history" (VList [])
          = get_default state "score_history" (VList [])) as ->.
  { unfold get_default. by rewrite lookup_insert_ne. }
  by destruct (get_default state "score_history" (VList [])).
Qed.

(** X18. [loop_decider] on a state whose [quality_score] is an int (absent
    counts as 0): with a score of at least 80 it sets [_finished] and looks at
    nothing else. Below 80 with an int [iteration] (absent counts as 0) it
    asks for another pass, setting [_next_node = "extract"] and incrementing
    [iteration], exactly when [iteration < 2], so the iteration it writes is
    at most 2; otherwise it sets [_finished]. It never sets both, returns the
    state object it was given, and touches no other key. Below 80 with an
    [iteration] that is not a number it raises TypeError. *)
Theorem X18_loop_decider_finishes_or_asks_for_a_pass
    `{Builtins} state score :
  number (get_default state "quality_score" (VInt 0)) = NInt score ->
  (QUALITY_THRESHOLD <= score ->
     loop_decider state = NodeReturnsSame (<["_finished" := VBool true]> state))
  /\ (score < QUALITY_THRESHOLD ->
      match number (get_default state "iteration" (VInt 0)) with
      | NInt iteration =>
          exists after,
            loop_decider state = NodeReturnsSame after
            /\ (forall key, key ≠ "_finished" -> key ≠ "_next_node" ->
                  key ≠ "iteration" -> after !! key = state !! key)
            /\ if decide (iteration < 2) then
                 after !! "_next_node" = Some (VStr "extract")
                 /\ after !! "iteration" = Some (VInt (iteration + 1))
                 /\ iteration + 1 <= 2
                 /\ after !! "_finished" = state !! "_finished"
               else
                 after !! "_finished" = Some (VBool true)
                 /\ after !! "_next_node" = state !! "_next_node"
                 /\ after !! "iteration" = state !! "iteration"
      | NotNumber => loop_decider state = NodeRaises state "TypeError"
      | NFloat => True
      end).
Proof.
  intros Hs. unfold loop_decider. rewrite Hs. split.
  - intros Hge. by rewrite (proj2 (Z.leb_le _ _) Hge).
  - intros Hlt. rewrite (proj2 (Z.leb_gt _ _) Hlt).
    destruct (number (get_default state "iteration" (VInt 0)))
      as [iteration| |]; [|done|done].
    unfold MAX_ITERATIONS.
    destruct (decide (iteration < 2)) as [Hi|Hi].
    + rewrite (proj2 (Z.ltb_lt (iteration + 1) 3)) by lia.
      eexists. split; [reflexivity|]. split_and!.
      * intros key H1 H2 H3. by rewrite !lookup_insert_ne.
      * by rewrite lookup_insert_eq.
      * by rewrite lookup_insert_ne, lookup_insert_eq.
      * lia.
      * by rewrite !lookup_insert_ne.
    + rewrite (proj2 (Z.ltb_ge (iteration + 1) 3)) by lia.
      eexists. split; [reflexivity|]. split_and!.
      * intros key H1 H2 H3. by rewrite lookup_insert_ne.
      * by rewrite lookup_insert_eq.
      * by rewrite lookup_insert_ne.
      * by rewrite lookup_insert_ne.
Qed.

Lemma get_default_insert_ne (state : State) key key' v d :
  key ≠ key' ->
  get_default (<[key := v]> state) key' d = get_default state key' d.
Proof. intros. unfold get_default. by rewrite lookup_insert_ne. Qed.

Lemma get_default_insert_eq (state : State) key v d :
  get_default (<[key := v]> state) key d = v.
Proof. unfold get_default. by rewrite lookup_insert_eq. Qed.

(** Lookups in a state built by a chain of updates. *)
Ltac map_lookup :=
  repeat first
    [ rewrite lookup_insert_eq
    | rewrite lookup_insert_ne by done
    | rewrite get_default_insert_eq
    | rewrite get_default_insert_ne by done ].

Lemma suggestions_for_list `{Builtins} complexity (xs : list Value) :
  is_Some (suggestions_for complexity (VList xs)).
Proof. unfold suggestions_for. destruct xs; simpl; eauto. Qed.

(** The analysis nodes one by one, on a state in which the keys each of
    them reads are what the nodes before it wrote. *)
Lemma extract_functions_code `{Builtins} state code :
  get_default state "code" (VStr "") = VStr code ->
  extract_functions state
  = NodeReturnsSame
      (<["functions" := VList (map VStr (functions_of code))]> state).
Proof. intros Hc. unfold extract_functions. by rewrite Hc. Qed.

Lemma check_complexity_code `{Builtins} state code :
  get_default state "code" (VStr "") = VStr code ->
  state !! "functions" = Some (VList (map VStr (functions_of code))) ->
  check_complexity state
  = NodeReturnsSame (<["complexity_report" := report_of code]> state).
Proof.
  intros Hc Hf. unfold check_complexity, get_default in *.
  rewrite Hc, Hf. simpl. by rewrite length_map.
Qed.

Lemma detect_issues_code `{Builtins} state code :
  get_default state "code" (VStr "") = VStr code ->
  detect_issues state
  = NodeReturnsSame (<["issues" := VList (map VStr (issues_of code))]> state).
Proof. intros Hc. unfold detect_issues. by rewrite Hc. Qed.

Lemma suggest_improvements_code `{Builtins} state code :
  state !! "complexity_report" = Some (report_of code) ->
  state !! "issues" = Some (VList (map VStr (issues_of code))) ->
  suggest_improvements state
  = NodeReturnsSame (<["suggestions" := VList (suggestions_of code)]> state).
Proof.
  intros Hr Hi. unfold suggest_improvements, get_default, suggestions_of.
  rewrite Hr, Hi. simpl.
  by destruct (suggestions_for_list (complexity_of code)
                 (map VStr (issues_of code))) as [xs ->].
Qed.

Lemma evaluate_quality_code `{Builtins} state code history :
  state !! "complexity_report" = Some (report_of code) ->
  state !! "issues" = Some (VList (map VStr (issues_of code))) ->
  get_default state "score_history" (VList []) = VList history ->
  evaluate_quality state
  = NodeReturnsSame
      (<["score_history" := VList (history ++ [VInt (score_of code)])]>
         (<["quality_score" := VInt (score_of code)]> state)).
Proof.
  intros Hr Hi Hh. unfold evaluate_quality, get_default in *.
  rewrite Hr, Hi. simpl. rewrite length_map.
  rewrite lookup_insert_ne by done. by rewrite Hh.
Qed.

Lemma run_nodes_snoc nodes (node : NodeCallable) state :
  run_nodes (nodes ++ [node]) state
  = run_nodes nodes state ≫= (fun state => returned_content (node state)).
Proof. unfold run_nodes. by rewrite foldl_app. Qed.

(** X19. The five analysis nodes of a pass, called one after the other
    ([extract], [complexity], [issues], [suggest], [evaluate]), all return
    exactly when [code] is absent or a string and [score_history] is absent or
    a list, whatever else the state holds: each other key they read has been
    overwritten by an earlier node of the pass. What they write depends only
    on the text of [code], so another pass over the state computes the same
    score again; every key they do not write keeps its binding. *)
Theorem X19_analysis_depends_only_on_code `{Builtins} state :
  (forall after,
     run_nodes analysis_nodes state = Some after ->
     exists code history,
       get_default state "code" (VStr "") = VStr code
       /\ get_default state "score_history" (VList []) = VList history
       /\ after = analysed code history state)
  /\ (forall code history,
        get_default state "code" (VStr "") = VStr code ->
        get_default state "score_history" (VList []) = VList history ->
        run_nodes analysis_nodes state = Some (analysed code history state)
        /\ analysed code history state !! "quality_score"
           = Some (VInt (score_of code))
        /\ 0 <= score_of code <= 100
        /\ (forall history' state',
              get_default state' "code" (VStr "") = VStr code ->
              forall key,
                key ∈ ["functions"; "complexity_report"; "issues";
                       "suggestions"; "quality_score"] ->
                analysed code history' state' !! key
                = analysed code history state !! key)
        /\ (forall key,
              key ∉ ["functions"; "complexity_report"; "issues";
                     "suggestions"; "quality_score"; "score_history"] ->
              analysed code history state !! key = state !! key)).
Proof.
  assert (forall code history,
            get_default state "code" (VStr "") = VStr code ->
            get_default state "score_history" (VList []) = VList history ->
            run_nodes analysis_nodes state = Some (analysed code history state))
    as Hrun.
  { intros code history Hc Hh. unfold run_nodes, analysis_nodes. simpl.
    rewrite (extract_functions_code _ code) by done. simpl.
    rewrite (check_complexity_code _ code) by (by map_lookup). simpl.
    rewrite (detect_issues_code _ code) by (by map_lookup). simpl.
    rewrite (suggest_improvements_code _ code) by (by map_lookup). simpl.
    by rewrite (evaluate_quality_code _ code history) by (by map_lookup). }
  split.
  - intros after Hafter.
    destruct (get_default state "code" (VStr "")) as [| | | |code| |] eqn:Hc;
      try (unfold run_nodes, analysis_nodes, extract_functions in Hafter;
           simpl in Hafter; rewrite Hc in Hafter; discriminate Hafter).
    destruct (get_default state "score_history" (VList []))
      as [| | | | |history|] eqn:Hh.
    6: { exists code, history. split_and!; [done|done|].
         rewrite (Hrun code history eq_refl eq_refl) in Hafter.
         by injection Hafter. }
    all: exfalso; unfold run_nodes, analysis_nodes in Hafter; simpl in Hafter;
      rewrite (extract_functions_code _ code) in Hafter by done;
      simpl in Hafter;
      rewrite (check_complexity_code _ code) in Hafter by (by map_lookup);
      simpl in Hafter;
      rewrite (detect_issues_code _ code) in Hafter by (by map_lookup);
      simpl in Hafter;
      rewrite (suggest_improvements_code _ code) in Hafter
        by (by map_lookup);
      simpl in Hafter;
      unfold evaluate_quality, get_default in Hafter, Hh;
      repeat first [ rewrite lookup_insert_eq in Hafter
                   | rewrite lookup_insert_ne in Hafter by done ];
      simpl in Hafter;
      repeat first [ rewrite lookup_insert_eq in Hafter
                   | rewrite lookup_insert_ne in Hafter by done ];
      rewrite Hh in Hafter; discriminate Hafter.
  - intros code history Hc Hh. split_and!.
    + by apply Hrun.
    + unfold analysed. by map_lookup.
    + apply quality_score_bounds.
    + apply quality_score_bounds.
    + intros history' state' Hc' key Hkey. unfold analysed.
      repeat (apply elem_of_cons in Hkey as [->|Hkey]; [by map_lookup|]).
      by apply elem_of_nil in Hkey.
    + intros key Hkey. unfold analysed.
      rewrite !lookup_insert_ne; [done|..];
        intros <-; apply Hkey; repeat constructor.
Qed.

(** One step of a run whose node returns a state whose summary can be
    derived. *)
Lemma loop_run_step graph run_id known name step content calls ending
    (node : NodeCallable) content' :
  loop_run graph run_id known (VStr name) step content calls ending ->
  step < max_steps graph ->
  nodes graph !! name = Some node ->
  returned_content (node content) = Some content' ->
  report_is_mapping content' = true ->
  known = true ->
  if truthy (get content' "_finished") then
    calls = [(name, content)] /\ ending = Finished (step + 1) content'
  else
    exists calls',
      calls = (name, content) :: calls'
      /\ loop_run graph run_id known
           (next_node graph name (get content' "_next_node")) (step + 1)
           (delete "_next_node" content') calls' ending.
Proof.
  intros Hrun Hlt Hnode Hret Hrep ->.
  destruct (summarise_ok _ Hrep) as [summary Hsum].
  inversion Hrun as
    [cur n d Hc
    |cur n d e0 Hc Hget
    |name0 node0 n d after0 e0 Hlt0 Hnode0 Hraise0
    |name0 node0 n d d' e0 Hlt0 Hnode0 Hret0 Hsum0
    |name0 node0 n d d' s0 r0 Hlt0 Hnode0 Hret0 Hsum0 Hrun0 Hk0
    |name0 node0 n d d' s0 Hlt0 Hnode0 Hret0 Hsum0 Hk0 Hfin0
    |name0 node0 n d d' s0 calls0 ending0 Hlt0 Hnode0 Hret0 Hsum0 Hk0 Hfin0
       Hrest]; subst;
    try (pose proof (eq_trans (eq_sym Hnode0) Hnode) as Heq;
         injection Heq as ->).
  - simpl in Hc. apply Z.ltb_ge in Hc. lia.
  - cbn in Hget. rewrite Hnode in Hget. discriminate Hget.
  - rewrite Hraise0 in Hret. discriminate Hret.
  - congruence.
  - discriminate Hk0.
  - assert (d' = content') as -> by congruence. by rewrite Hfin0.
  - assert (d' = content') as -> by congruence. rewrite Hfin0. eauto.
Qed.

(** The same for a node that returns its argument, sets no control key and
    has an outgoing edge. *)
Lemma loop_run_plain_step graph run_id known name step content calls ending
    (node : NodeCallable) content' next :
  loop_run graph run_id known (VStr name) step content calls ending ->
  step < max_steps graph ->
  nodes graph !! name = Some node ->
  node content = NodeReturnsSame content' ->
  edges graph !! name = Some (Some next) ->
  report_is_mapping content' = true ->
  truthy (get content' "_finished") = false ->
  content' !! "_next_node" = None ->
  known = true ->
  exists calls',
    calls = (name, content) :: calls'
    /\ loop_run graph run_id known (VStr next) (step + 1) content' calls'
                ending.
Proof.
  intros Hrun Hlt Hnode Hret Hedge Hrep Hfin Hnext Hk.
  pose proof (loop_run_step _ _ _ _ _ _ _ _ node content' Hrun Hlt Hnode)
    as Hstep.
  rewrite Hret, Hfin in Hstep.
  destruct (Hstep eq_refl Hrep Hk) as (calls' & -> & Hrest).
  exists calls'. split; [done|].
  unfold next_node, get, edges_get in Hrest.
  rewrite Hnext, Hedge in Hrest. simpl in Hrest.
  by rewrite delete_id in Hrest.
Qed.

Lemma report_is_mapping_insert_ne (content : State) key v :
  key ≠ "complexity_report" ->
  report_is_mapping (<[key := v]> content) = report_is_mapping content.
Proof. intros. unfold report_is_mapping. by rewrite lookup_insert_ne. Qed.

Lemma report_is_mapping_insert_dict (content : State) kvs :
  report_is_mapping (<["complexity_report" := VDict kvs]> content) = true.
Proof. unfold report_is_mapping. by rewrite lookup_insert_eq. Qed.

Lemma get_insert_eq_finished (content : State) :
  truthy (get (<["_finished" := VBool true]> content) "_finished") = true.
Proof. unfold get. by rewrite lookup_insert_eq. Qed.

Lemma get_insert_ne (content : State) key key' v :
  key ≠ key' -> get (<[key := v]> content) key' = get content key'.
Proof. intros. unfold get. by rewrite lookup_insert_ne. Qed.

(** Side conditions on a state built by a chain of updates. *)
Ltac state_facts :=
  repeat match goal with x := _ : State |- _ => progress unfold x end;
  unfold analysed, report_of, get;
  repeat first
    [ rewrite report_is_mapping_insert_dict
    | rewrite report_is_mapping_insert_ne by done
    | rewrite lookup_insert_eq
    | rewrite lookup_insert_ne by done
    | rewrite get_default_insert_eq
    | rewrite get_default_insert_ne by done ];
  try done.

(** One pass of the default workflow from a state that is ready for it:
    the six nodes are called in the order of the edges; then the run is
    finished, when the score has reached the threshold or the iteration is 2
    or more, or [extract] is due again with the iteration incremented. *)
Lemma code_review_pass `{Builtins} run_id step code history i state calls
    ending :
  pass_ready code history i state ->
  step + 6 <= 50 ->
  loop_run code_review_graph run_id true (VStr "extract") step state calls
           ending ->
  exists pass,
    pass.*1 = pass_names
    /\ head pass = Some ("extract", state)
    /\ if (QUALITY_THRESHOLD <=? score_of code) || (2 <=? i) then
         calls = pass
         /\ ending
            = Finished (step + 6)
                (<["_finished" := VBool true]> (analysed code history state))
       else
         exists calls',
           calls = (pass ++ calls')%list
           /\ loop_run code_review_graph run_id true (VStr "extract")
                (step + 6)
                (<["iteration" := VInt (i + 1)]> (analysed code history state))
                calls' ending.
Proof.
  intros (Hcode & Hhist & Hiter & Hrep & Hfin & Hnext) Hstep Hrun.
  unfold get in Hfin.
  set (d1 := <["functions" := VList (map VStr (functions_of code))]> state).
  set (d2 := <["complexity_report" := report_of code]> d1).
  set (d3 := <["issues" := VList (map VStr (issues_of code))]> d2).
  set (d4 := <["suggestions" := VList (suggestions_of code)]> d3).
  destruct (loop_run_plain_step _ _ _ _ _ _ _ _
              extract_functions d1 "complexity" Hrun)
    as (calls1 & -> & Hrun1);
    [simpl; lia|reflexivity|by apply extract_functions_code|reflexivity
    |state_facts..|].
  destruct (loop_run_plain_step _ _ _ _ _ _ _ _
              check_complexity d2 "issues" Hrun1)
    as (calls2 & -> & Hrun2);
    [simpl; lia|reflexivity
    |apply check_complexity_code; by state_facts|reflexivity
    |state_facts..|].
  destruct (loop_run_plain_step _ _ _ _ _ _ _ _
              detect_issues d3 "suggest" Hrun2)
    as (calls3 & -> & Hrun3);
    [simpl; lia|reflexivity
    |apply detect_issues_code; by state_facts|reflexivity
    |state_facts..|].
  destruct (loop_run_plain_step _ _ _ _ _ _ _ _
              suggest_improvements d4 "evaluate" Hrun3)
    as (calls4 & -> & Hrun4);
    [simpl; lia|reflexivity
    |apply suggest_improvements_code; by state_facts|reflexivity
    |state_facts..|].
  destruct (loop_run_plain_step _ _ _ _ _ _ _ _
              evaluate_quality (analysed code history state) "loop" Hrun4)
    as (calls5 & -> & Hrun5);
    [simpl; lia|reflexivity
    |apply evaluate_quality_code; by state_facts|reflexivity
    |state_facts..|].
  exists [("extract", state); ("complexity", d1); ("issues", d2);
          ("suggest", d3); ("evaluate", d4);
          ("loop", analysed code history state)].
  split; [reflexivity|]. split; [reflexivity|].
  assert (number (get_default (analysed code history state)
                              "quality_score" (VInt 0))
          = NInt (score_of code)) as Hscore.
  { by state_facts. }
  assert (number (get_default (analysed code history state)
                              "iteration" (VInt 0)) = NInt i) as Hi.
  { unfold get_default. state_facts. by rewrite Hiter. }
  assert (step + 1 + 1 + 1 + 1 + 1 + 1 = step + 6) as Hsix by lia.
  destruct (QUALITY_THRESHOLD <=? score_of code) eqn:Hq; simpl.
  - pose proof (loop_run_step _ _ _ _ _ _ _ _ loop_decider
                  (<["_finished" := VBool true]>
                     (analysed code history state)) Hrun5) as Hlast.
    rewrite get_insert_eq_finished in Hlast. rewrite Hsix in Hlast.
    destruct Hlast as [-> ->]; [simpl; lia|reflexivity| | |done|done].
    + unfold loop_decider. by rewrite Hscore, Hq.
    + by state_facts.
  - destruct (2 <=? i) eqn:Hi2.
    + pose proof (loop_run_step _ _ _ _ _ _ _ _ loop_decider
                    (<["_finished" := VBool true]>
                       (analysed code history state)) Hrun5) as Hlast.
      rewrite get_insert_eq_finished in Hlast. rewrite Hsix in Hlast.
      destruct Hlast as [-> ->]; [simpl; lia|reflexivity| | |done|done].
      * unfold loop_decider. rewrite Hscore, Hq, Hi. unfold MAX_ITERATIONS.
        apply Z.leb_le in Hi2.
        by rewrite (proj2 (Z.ltb_ge (i + 1) 3)) by lia.
      * by state_facts.
    + pose proof (loop_run_step _ _ _ _ _ _ _ _ loop_decider
                    (<["_next_node" := VStr "extract"]>
                       (<["iteration" := VInt (i + 1)]>
                          (analysed code history state))) Hrun5) as Hlast.
      assert (truthy (get (<["_next_node" := VStr "extract"]>
                             (<["iteration" := VInt (i + 1)]>
                                (analysed code history state))) "_finished")
              = false) as Hnf.
      { by state_facts. }
      rewrite Hnf, Hsix in Hlast.
      destruct Hlast as (calls6 & -> & Hrun6);
        [simpl; lia|reflexivity| | |done|].
      * unfold loop_decider. rewrite Hscore, Hq, Hi. unfold MAX_ITERATIONS.
        apply Z.leb_gt in Hi2.
        by rewrite (proj2 (Z.ltb_lt (i + 1) 3)) by lia.
      * by state_facts.
      * exists calls6. split; [reflexivity|].
        unfold next_node, get in Hrun6.
        rewrite lookup_insert_eq in Hrun6. simpl in Hrun6.
        rewrite delete_insert_id in Hrun6; [done|].
        by state_facts.
Qed.

Lemma pass_ready_seeded `{Builtins} (content : State) code history i :
  get_default content "code" (VStr "") = VStr code ->
  get_default content "score_history" (VList []) = VList history ->
  get_default content "iteration" (VInt 0) = VInt i ->
  report_is_mapping content = true ->
  truthy (get content "_finished") = false ->
  content !! "_next_node" = None ->
  pass_ready code history i (seeded content)
  /\ seeded content !! "code" = content !! "code".
Proof.
  intros Hc Hh Hi Hrep Hfin Hnext.
  destruct (seeded_lookup content) as [Hother Hiter].
  unfold pass_ready, get_default, get, report_is_mapping in *.
  rewrite (Hother "code"), (Hother "score_history"),
    (Hother "complexity_report"), (Hother "_finished"),
    (Hother "_next_node"), Hiter, Hi by done.
  done.
Qed.

Lemma pass_ready_next `{Builtins} code history i (state : State) :
  pass_ready code history i state ->
  pass_ready code (history ++ [VInt (score_of code)]) (i + 1)
             (<["iteration" := VInt (i + 1)]> (analysed code history state))
  /\ (<["iteration" := VInt (i + 1)]> (analysed code history state)) !! "code"
     = state !! "code".
Proof.
  intros (Hc & Hh & Hi & Hrep & Hfin & Hnext).
  unfold pass_ready. unfold get in *. split_and!; by state_facts.
Qed.

Lemma pass_finished_state `{Builtins} code history i (state : State) :
  pass_ready code history i state ->
  let final := <["_finished" := VBool true]> (analysed code history state) in
  get final "_finished" = VBool true
  /\ get final "quality_score" = VInt (score_of code)
  /\ get final "iteration" = VInt i
  /\ get final "score_history" = VList (history ++ [VInt (score_of code)])
  /\ final !! "code" = state !! "code".
Proof.
  intros (Hc & Hh & Hi & Hrep & Hfin & Hnext). simpl.
  split_and!; state_facts. by rewrite Hi.
Qed.

(** [n] passes of the default workflow that all ask for another one. *)
Lemma code_review_passes `{Builtins} run_id code n :
  forall step history i state calls ending,
    pass_ready code history i state ->
    score_of code < QUALITY_THRESHOLD ->
    i + Z.of_nat n <= 2 ->
    step + 6 * Z.of_nat n <= 50 ->
    loop_run code_review_graph run_id true (VStr "extract") step state calls
             ending ->
    exists passes calls' state',
      calls = (passes ++ calls')%list
      /\ passes.*1 = mjoin (replicate n pass_names)
      /\ pass_ready code (history ++ replicate n (VInt (score_of code)))
                    (i + Z.of_nat n) state'
      /\ state' !! "code" = state !! "code"
      /\ loop_run code_review_graph run_id true (VStr "extract")
                  (step + 6 * Z.of_nat n) state' calls' ending.
Proof.
  induction n as [|n IH]; intros step history i state calls ending
    Hready Hs Hi Hstep Hrun.
  - exists [], calls, state. simpl.
    rewrite app_nil_r, !Z.add_0_r. done.
  - destruct (code_review_pass run_id step code history i state calls ending
                Hready ltac:(lia) Hrun) as (pass & Hnames & _ & Hcase).
    rewrite (proj2 (Z.leb_gt QUALITY_THRESHOLD (score_of code))) in Hcase
      by done.
    rewrite (proj2 (Z.leb_gt 2 i)) in Hcase by lia. simpl in Hcase.
    destruct Hcase as (calls1 & -> & Hrun1).
    destruct (pass_ready_next _ _ _ _ Hready) as [Hready1 Hcode1].
    destruct (IH (step + 6) _ (i + 1) _ calls1 ending Hready1 Hs
                ltac:(lia) ltac:(lia) Hrun1)
      as (passes & calls' & state' & -> & Hnames' & Hready' & Hcode' & Hrun').
    exists (pass ++ passes)%list, calls', state'. split_and!.
    + by rewrite app_assoc.
    + rewrite fmap_app, Hnames, Hnames'. done.
    + replace (i + Z.of_nat (S n)) with (i + 1 + Z.of_nat n) by lia.
      rewrite <- (assoc_L (++)) in Hready'. exact Hready'.
    + by rewrite Hcode', Hcode1.
    + replace (step + 6 * Z.of_nat (S n)) with (step + 6 + 6 * Z.of_nat n)
        by lia.
      exact Hrun'.
Qed.

Lemma mjoin_replicate_end {A} n (l : list A) :
  (mjoin (replicate n l) ++ l)%list = mjoin (replicate (S n) l).
Proof. by rewrite replicate_S_end, join_app; simpl; rewrite app_nil_r. Qed.

(** What the caller sees of a run of [passes] passes that finished. *)
Lemma finished_run_observed graph initial_state run_id w fo w' calls
    (names : list string) n final :
  run_graph_frame graph initial_state run_id w = (fo, w') ->
  invoked w' = (invoked w ++ calls)%list ->
  observed run_id (Finished n final) fo w' ->
  calls.*1 = names ->
  (forall f r, fo = Returned f -> run_id = Some r ->
     exists run, RUNS w' !! r = Some run
                 /\ Store.state run = state f
                 /\ Store.log run = log f
                 /\ Store.status run = status f) ->
  exists f,
    fo = Returned f /\ status f = completed /\ step f = n
    /\ map node_id (log f) = names
    /\ heap w' !!! state f = final
    /\ (forall r, run_id = Some r ->
          exists run, RUNS w' !! r = Some run
                      /\ Store.status run = completed
                      /\ Store.state run = state f).
Proof.
  intros Hfr Hinv (f & -> & Hstep & Hcontent & Hstatus) Hnames Hstore.
  exists f. split_and!; try done.
  - destruct (run_graph_frame_log _ _ _ _ _ _ _ Hfr Hinv) as (_ & _ & Hids).
    by rewrite Hids.
  - intros r ->. destruct (Hstore f r eq_refl eq_refl)
      as (run & Hrun & Hst & _ & Hs).
    exists run. split_and!; [done|congruence|done].
Qed.

(** X20. The default workflow, run from a state whose [code] is a string
    (or absent), whose [score_history] is a list (or absent), whose
    [iteration] is an int [i >= -5] (or absent, which counts as 0), whose
    [complexity_report], if any, is a mapping and in which no control key is
    set, always returns with status [completed], never [max_steps_reached]:
    it makes one pass of the six nodes when the score of the code is at least
    80 or [i >= 2], and [3 - i] passes otherwise (at most 3 from [i >= 0]),
    since every pass computes the same score. The final state has
    [_finished = True], that score, the iteration [i + passes - 1] and one
    more entry in [score_history] per pass; [code] is as it was. *)
Theorem X20_default_workflow_completes
    `{Builtins} initial_state run_id w code history i :
  get_default (heap w !!! initial_state) "code" (VStr "") = VStr code ->
  get_default (heap w !!! initial_state) "score_history" (VList [])
  = VList history ->
  get_default (heap w !!! initial_state) "iteration" (VInt 0) = VInt i ->
  -5 <= i ->
  report_is_mapping (heap w !!! initial_state) = true ->
  truthy (get (heap w !!! initial_state) "_finished") = false ->
  (heap w !!! initial_state) !! "_next_node" = None ->
  run_known run_id (RUNS w) = true ->
  exists f w' passes,
    run_graph_frame code_review_graph initial_state run_id w = (Returned f, w')
    /\ Z.of_nat passes = passes_of code i
    /\ (1 <= passes <= 8)%nat
    /\ (0 <= i -> (passes <= 3)%nat)
    /\ status f = completed
    /\ step f = 6 * Z.of_nat passes
    /\ map node_id (log f) = mjoin (replicate passes pass_names)
    /\ get (heap w' !!! state f) "_finished" = VBool true
    /\ get (heap w' !!! state f) "quality_score" = VInt (score_of code)
    /\ 0 <= score_of code <= 100
    /\ get (heap w' !!! state f) "iteration" = VInt (i + Z.of_nat passes - 1)
    /\ get (heap w' !!! state f) "score_history"
       = VList (history ++ replicate passes (VInt (score_of code)))
    /\ (heap w' !!! state f) !! "code" = (heap w !!! initial_state) !! "code"
    /\ (forall r, run_id = Some r ->
          exists run, RUNS w' !! r = Some run
                      /\ Store.status run = completed
                      /\ Store.state run = state f).
Proof.
  intros Hc Hh Hi Hi0 Hrep Hfin Hnext Hk.
  destruct (run_graph_frame_sound code_review_graph initial_state run_id w)
    as (fo & w' & calls & ending & Hfr & Hinv & Hloop & Hobs & Hstore).
  rewrite Hk in Hloop, Hobs.
  assert (forall ending, final_ending run_id true ending = ending) as Hfe.
  { intros []; by destruct run_id. }
  rewrite Hfe in Hobs.
  destruct (pass_ready_seeded _ code history i Hc Hh Hi Hrep Hfin Hnext)
    as [Hready0 Hcode0].
  pose proof (quality_score_bounds (complexity_of code)
                (Z.of_nat (length (issues_of code)))) as Hbounds.
  fold (score_of code) in Hbounds.
  assert (exists n : nat,
            Z.of_nat (S n) = passes_of code i /\ (n <= 7)%nat
            /\ (0 <= i -> (n <= 2)%nat)
            /\ (n = 0%nat
                \/ (score_of code < QUALITY_THRESHOLD
                    /\ i + Z.of_nat n = 2))) as (n & Hn & Hn7 & Hn2 & Hcase).
  { unfold passes_of, MAX_ITERATIONS.
    destruct (QUALITY_THRESHOLD <=? score_of code) eqn:Hq.
    - exists 0%nat. split_and!; [done|lia|lia|by left].
    - apply Z.leb_gt in Hq. destruct (decide (2 <= i)) as [Hi2|Hi2].
      + exists 0%nat. split_and!; [lia|lia|lia|by left].
      + exists (Z.to_nat (2 - i)). split_and!; [lia|lia|lia|right; lia]. }
  assert (exists passes calls' state' history',
            calls = (passes ++ calls')%list
            /\ passes.*1 = mjoin (replicate n pass_names)
            /\ history' = (history ++ replicate n (VInt (score_of code)))%list
            /\ pass_ready code history' (i + Z.of_nat n) state'
            /\ state' !! "code" = (heap w !!! initial_state) !! "code"
            /\ loop_run code_review_graph run_id true (VStr "extract")
                 (6 * Z.of_nat n) state' calls' ending
            /\ (QUALITY_THRESHOLD <=? score_of code)
               || (2 <=? i + Z.of_nat n) = true)
    as (passes & calls' & state' & history' & -> & Hnames & -> & Hready
        & Hcode & Hrun & Hlast).
  { destruct Hcase as [->|[Hs Hin]].
    - exists [], calls, (seeded (heap w !!! initial_state)), history.
      simpl. rewrite app_nil_r, Z.add_0_r. split_and!; try done.
      unfold passes_of, MAX_ITERATIONS in Hn.
      destruct (QUALITY_THRESHOLD <=? score_of code); [done|]. simpl.
      apply Z.leb_le. lia.
    - destruct (code_review_passes run_id code n 0 history i _ calls ending
                  Hready0 Hs ltac:(lia) ltac:(lia) Hloop)
        as (passes & calls' & state' & -> & Hnames & Hready & Hcode & Hrun).
      eexists passes, calls', state', _.
      split_and!; [done|done|reflexivity|done| |done|].
      + by rewrite Hcode.
      + rewrite (proj2 (Z.leb_le 2 (i + Z.of_nat n))) by lia.
        by rewrite orb_true_r. }
  destruct (code_review_pass run_id (6 * Z.of_nat n) code _ _ _ calls' ending
              Hready ltac:(lia) Hrun) as (pass & Hnames' & _ & Hend).
  rewrite Hlast in Hend. destruct Hend as [-> ->].
  destruct (finished_run_observed _ _ _ _ _ _ _
              (mjoin (replicate (S n) pass_names)) _ _ Hfr Hinv Hobs)
    as (f & -> & Hst & Hstep & Hlog & Hfinal & Hrec); [|done|].
  { by rewrite fmap_app, Hnames, Hnames', mjoin_replicate_end. }
  destruct (pass_finished_state _ _ _ _ Hready) as (F1 & F2 & F3 & F4 & F5).
  exists f, w', (S n). rewrite Hfinal.
  split_and!; try done; try lia.
  - rewrite F3. f_equal. lia.
  - rewrite F4. by rewrite replicate_S_end, (assoc_L (++)).
  - by rewrite F5.
Qed.

Lemma loop_run_at_budget graph run_id known current step content calls
    ending :
  loop_run graph run_id known current step content calls ending ->
  max_steps graph <= step ->
  calls = [] /\ ending = Exhausted current step content.
Proof.
  intros Hrun Hge. inversion Hrun; subst; try lia. done.
Qed.

(** X23. The caller's [iteration] is taken as it is: from an [iteration]
    of -6 or less, for code whose score is below 80, the default workflow
    never finishes. After 8 full passes and the first two nodes of a ninth
    the budget of 50 steps is used up and the run ends with status
    [max_steps_reached], [issues] pending, [_finished] not set and 8 entries
    added to [score_history]. *)
Theorem X23_negative_iteration_exhausts_the_budget
    `{Builtins} initial_state run_id w code history i :
  get_default (heap w !!! initial_state) "code" (VStr "") = VStr code ->
  get_default (heap w !!! initial_state) "score_history" (VList [])
  = VList history ->
  (heap w !!! initial_state) !! "iteration" = Some (VInt i) ->
  i <= -6 ->
  score_of code < QUALITY_THRESHOLD ->
  report_is_mapping (heap w !!! initial_state) = true ->
  truthy (get (heap w !!! initial_state) "_finished") = false ->
  (heap w !!! initial_state) !! "_next_node" = None ->
  run_known run_id (RUNS w) = true ->
  exists f w',
    run_graph_frame code_review_graph initial_state run_id w = (Returned f, w')
    /\ status f = max_steps_reached
    /\ step f = 50
    /\ length (log f) = 50%nat
    /\ current_node_id f = VStr "issues"
    /\ truthy (get (heap w' !!! state f) "_finished") = false
    /\ get (heap w' !!! state f) "iteration" = VInt (i + 8)
    /\ get (heap w' !!! state f) "score_history"
       = VList (history ++ replicate 8 (VInt (score_of code)))
    /\ (forall r, run_id = Some r ->
          exists run, RUNS w' !! r = Some run
                      /\ Store.status run = max_steps_reached).
Proof.
  intros Hc Hh Hi Hi6 Hs Hrep Hfin Hnext Hk.
  destruct (run_graph_frame_sound code_review_graph initial_state run_id w)
    as (fo & w' & calls & ending & Hfr & Hinv & Hloop & Hobs & Hstore).
  rewrite Hk in Hloop, Hobs.
  assert (forall ending, final_ending run_id true ending = ending) as Hfe.
  { intros []; by destruct run_id. }
  rewrite Hfe in Hobs.
  destruct (pass_ready_seeded _ code history i Hc Hh) as [Hready0 _];
    try done.
  { unfold get_default. by rewrite Hi. }
  destruct (code_review_passes run_id code 8 0 history i _ calls ending
              Hready0 Hs ltac:(lia) ltac:(lia) Hloop)
    as (passes & calls' & state' & -> & Hnames & Hready & _ & Hrun).
  destruct Hready as (Hcode & Hhist & Hiter & Hrep' & Hfin' & Hnext').
  unfold get in Hfin'.
  set (d1 := <["functions" := VList (map VStr (functions_of code))]> state').
  set (d2 := <["complexity_report" := report_of code]> d1).
  destruct (loop_run_plain_step _ _ _ _ _ _ _ _
              extract_functions d1 "complexity" Hrun)
    as (calls1 & -> & Hrun1);
    [simpl; lia|reflexivity|by apply extract_functions_code|reflexivity
    |state_facts..|].
  destruct (loop_run_plain_step _ _ _ _ _ _ _ _
              check_complexity d2 "issues" Hrun1)
    as (calls2 & -> & Hrun2);
    [simpl; lia|reflexivity
    |apply check_complexity_code; by state_facts|reflexivity
    |state_facts..|].
  destruct (loop_run_at_budget _ _ _ _ _ _ _ _ Hrun2) as [-> ->];
    [simpl; lia|].
  destruct Hobs as (f & -> & Hcur & Hstep & Hcontent & Hstatus).
  simpl in Hstatus.
  destruct (run_graph_frame_log _ _ _ _ _ _ _ Hfr Hinv) as (Hlen & _ & _).
  exists f, w'. rewrite Hcontent. split_and!; try done.
  - rewrite Hlen, !length_app, <- (length_fmap fst passes), Hnames. done.
  - by state_facts.
  - state_facts. by rewrite Hiter.
  - state_facts. unfold get_default in Hhist.
    destruct (state' !! "score_history") as [v|]; simpl in *; [done|].
    injection Hhist as Hhist. by destruct history.
  - intros r ->. destruct (Hstore f r eq_refl eq_refl)
      as (run & Hrun' & _ & _ & Hs').
    exists run. split; [done|congruence].
Qed.

(** X21. After [register_default_workflow], whatever was registered or
    saved before: [get_graph("code_review_v1")] returns the default graph;
    its nodes are the six registered under the names of a pass, each the
    function [get_node] returns for that name; the start node, every edge
    target and the node [loop_decider] jumps to are nodes of the graph;
    graphs and registrations of other names are untouched. *)
Theorem X21_register_default_workflow_is_closed
    `{Builtins} (NODE_REGISTRY : NodeRegistry) (GRAPHS : Graphs) :
  get_graph (register_default_workflow NODE_REGISTRY GRAPHS).2
            DEFAULT_GRAPH_ID = inr code_review_graph
  /\ (forall name, name ∈ pass_names <->
        is_Some (nodes code_review_graph !! name))
  /\ (forall name (node : NodeCallable),
        nodes code_review_graph !! name = Some node ->
        get_node (register_default_workflow NODE_REGISTRY GRAPHS).1 name
        = inr node)
  /\ is_Some (nodes code_review_graph !! start_node_id code_review_graph)
  /\ (forall name target,
        edges code_review_graph !! name = Some (Some target) ->
        is_Some (nodes code_review_graph !! target))
  /\ is_Some (nodes code_review_graph !! "extract")
  /\ (forall name, name ∉ pass_names ->
        get_node (register_default_workflow NODE_REGISTRY GRAPHS).1 name
        = get_node NODE_REGISTRY name)
  /\ (forall graph_id, graph_id ≠ DEFAULT_GRAPH_ID ->
        get_graph (register_default_workflow NODE_REGISTRY GRAPHS).2 graph_id
        = get_graph GRAPHS graph_id).
Proof.
  simpl. unfold get_graph, get_node, save_graph, register_node. simpl.
  assert (forall name (node : NodeCallable),
            nodes code_review_graph !! name = Some node ->
            name ∈ pass_names
            /\ (<["loop" := loop_decider]>
                  (<["evaluate" := evaluate_quality]>
                     (<["suggest" := suggest_improvements]>
                        (<["issues" := detect_issues]>
                           (<["complexity" := check_complexity]>
                              (<["extract" := extract_functions]>
                                 NODE_REGISTRY)))))) !! name = Some node)
    as Hnodes.
  { intros name node Hnode. simpl in Hnode.
    repeat (apply lookup_insert_Some in Hnode as [[<- <-]|[_ Hnode]];
            [split; [unfold pass_names; repeat constructor|by map_lookup]|]).
    apply lookup_singleton_Some in Hnode as [<- <-].
    split; [unfold pass_names; repeat constructor|by map_lookup]. }
  split_and!.
  - by rewrite lookup_insert_eq.
  - intros name. split.
    + intros Hin. unfold pass_names in Hin.
      repeat (apply elem_of_cons in Hin as [->|Hin]; [by eexists|]).
      by apply elem_of_nil in Hin.
    + intros [node Hnode]. by destruct (Hnodes name node Hnode).
  - intros name node Hnode. destruct (Hnodes name node Hnode) as [_ ->]. done.
  - by eexists.
  - intros name target Hedge. simpl in Hedge.
    repeat (apply lookup_insert_Some in Hedge as [[<- Heq]|[_ Hedge]];
            [try discriminate Heq; injection Heq as <-; by eexists|]).
    apply lookup_singleton_Some in Hedge as [_ Heq]. discriminate Heq.
  - by eexists.
  - intros name Hname.
    rewrite !lookup_insert_ne; [done|..];
      intros <-; apply Hname; unfold pass_names; repeat constructor.
  - intros graph_id Hne. by rewrite lookup_insert_ne.
Qed.

(** X22. The default workflow cannot get past its first node when the
    initial state binds [complexity_report] to something that is not a
    mapping: [extract] is called and returns, deriving the summary of its
    state raises AttributeError, and [run_graph] raises with [RUNS] exactly as
    it was, although the next node, [complexity], would have replaced the
    report by a mapping. *)
Theorem X22_default_workflow_stops_on_unreadable_report
    `{Builtins} initial_state run_id w code :
  get_default (heap w !!! initial_state) "code" (VStr "") = VStr code ->
  report_is_mapping (heap w !!! initial_state) = false ->
  exists w' after after2,
    run_graph_frame code_review_graph initial_state run_id w
    = (Raised AttributeError, w')
    /\ invoked w'
       = (invoked w ++ [("extract", seeded (heap w !!! initial_state))])%list
    /\ RUNS w' = RUNS w
    /\ returned_content (extract_functions (seeded (heap w !!! initial_state)))
       = Some after
    /\ report_is_mapping after = false
    /\ returned_content (check_complexity after) = Some after2
    /\ report_is_mapping after2 = true.
Proof.
  intros Hc Hrep.
  destruct (seeded_lookup (heap w !!! initial_state)) as [Hother _].
  set (d0 := seeded (heap w !!! initial_state)).
  assert (get_default d0 "code" (VStr "") = VStr code) as Hc0.
  { unfold get_default, d0. by rewrite Hother. }
  assert (report_is_mapping d0 = false) as Hrep0.
  { unfold report_is_mapping, d0. by rewrite Hother. }
  set (d1 := <["functions" := VList (map VStr (functions_of code))]> d0).
  assert (extract_functions d0 = NodeReturnsSame d1) as Hex
    by by apply extract_functions_code.
  assert (report_is_mapping d1 = false) as Hrep1.
  { unfold d1. by rewrite report_is_mapping_insert_ne. }
  destruct (run_graph_frame_sound code_review_graph initial_state run_id w)
    as (fo & w' & calls & ending & Hfr & _ & _ & Hobs & _).
  pose proof (observed_not_out_of_fuel _ _ _ _ Hobs) as Hfuel.
  destruct (run_graph_frame_unfold code_review_graph initial_state run_id w)
    as (w1 & Hheap & HR & _ & Hinv1 & Hunf).
  rewrite Hunf in Hfr. unfold mbind, M_bind in Hfr.
  set (f0 := {| state := fresh (dom (heap w)); log := [];
                current_node_id := VStr (start_node_id code_review_graph);
                step := 0; status := running |}) in *.
  destruct (while_loop (Z.to_nat (max_steps code_review_graph))
              code_review_graph run_id f0 w1) as [o2 w2] eqn:Hw.
  assert (o2 ≠ OutOfFuel) as Hfuel2.
  { intros ->. by injection Hfr as <- _. }
  assert (o2 = Raised AttributeError
          /\ RUNS w2 = RUNS w
          /\ invoked w2 = (invoked w ++ [("extract", d0)])%list)
    as (-> & HR2 & Hinv2).
  { refine (while_loop_rule code_review_graph run_id
              (fun f w0 => f = f0 /\ heap w0 !!! state f0 = d0
                           /\ RUNS w0 = RUNS w /\ invoked w0 = invoked w)
              (fun o w0 => o = Raised AttributeError
                           /\ RUNS w0 = RUNS w
                           /\ invoked w0
                              = (invoked w ++ [("extract", d0)])%list)
              _ _ _ f0 w1 o2 w2 _ Hw Hfuel2).
    - intros f w0 (-> & _) Hcond. discriminate Hcond.
    - intros f w0 o w0' (-> & Hd & HR0 & Hi0) _ Hstep.
      assert (forall name (node : NodeCallable) st wa,
                current_node_id f0 = VStr name ->
                nodes code_review_graph !! name = Some node ->
                call name node (state f0) w0 = (Returned st, wa) ->
                _summarise_state (heap wa !!! st) = inl AttributeError
                /\ RUNS wa = RUNS w
                /\ invoked wa = (invoked w ++ [("extract", d0)])%list)
        as Hcall.
      { intros name node st wa [= <-] Hnode Hcall.
        assert (node = extract_functions) as ->.
        { change (Some extract_functions = Some node) in Hnode.
          by injection Hnode. }
        apply call_returned in Hcall as (HRa & _ & Hia & Hret & _).
        rewrite Hd, Hex in Hret. simpl in Hret. injection Hret as <-.
        split_and!.
        - by apply summarise_fails.
        - by rewrite HRa.
        - by rewrite Hia, Hi0, Hd. }
      inversion Hstep as
        [e Hget
        |name node after e Hcur Hnode Hraise
        |name node st wa e Hcur Hnode Hcall' Hsum
        |name node st wa summary e Hcur Hnode Hcall' Hsum Hp
        |name node st wa summary w3 Hcur Hnode Hcall' Hsum Hp Hfin
        |name node st wa summary w3 Hcur Hnode Hcall' Hsum Hp Hfin]; subst;
        try (destruct (Hcall _ _ _ _ Hcur Hnode Hcall') as (Hs & ? & ?);
             congruence).
      + discriminate Hget.
      + injection Hcur as <-.
        assert (node = extract_functions) as ->.
        { change (Some extract_functions = Some node) in Hnode.
          by injection Hnode. }
        rewrite Hd, Hex in Hraise. discriminate Hraise.
      + destruct (Hcall _ _ _ _ Hcur Hnode Hcall') as (Hs & ? & ?).
        rewrite Hs in Hsum. by injection Hsum as <-.
    - split_and!; try done. unfold f0. simpl. unfold d0.
      by rewrite Hheap, lookup_total_insert_eq. }
  injection Hfr as <- <-.
  exists w2, d1, (<["complexity_report" := report_of code]> d1).
  split_and!; try done.
  - rewrite Hunf. unfold mbind, M_bind. fold f0. by rewrite Hw.
  - by rewrite Hex.
  - rewrite (check_complexity_code d1 code); [done| |].
    + unfold d1. by rewrite get_default_insert_ne.
    + unfold d1. by rewrite lookup_insert_eq.
  - unfold report_of. apply report_is_mapping_insert_dict.
Qed.

Lemma line_complexity_bounds `{Builtins} line :
  0 <= line_complexity line <= 3.
Proof.
  unfold line_complexity.
  destruct (String.prefix "for " (strip line)
            || String.prefix "while " (strip line));
    destruct (str_in " if " (" " +:+ strip line +:+ " ")
              || String.prefix "if " (strip line)); lia.
Qed.

Lemma complexity_fold_bounds `{Builtins} lines n :
  n <= fold_left (fun complexity line => complexity + line_complexity line)
                 lines n
    <= n + 3 * Z.of_nat (length lines).
Proof.
  revert n. induction lines as [|line lines IH]; intros n; simpl; [lia|].
  pose proof (line_complexity_bounds line).
  specialize (IH (n + line_complexity line)). lia.
Qed.

(** X24. [check_complexity] returns exactly when [functions] has a length
    (a list, string or mapping; absent counts as the empty list) and [code]
    is a string (absent counts as empty). The report it then writes has
    [0 <= function_count <= estimated_complexity <= function_count + 3 * lines]
    and nothing else in the state changes. Otherwise it raises with the state
    untouched: TypeError when [functions] has no length, checked first, and
    AttributeError when [code] is not a string. *)
Theorem X24_check_complexity_report_bounds `{Builtins} state :
  match check_complexity state with
  | NodeReturnsSame after =>
      exists code function_count complexity,
        get_default state "code" (VStr "") = VStr code
        /\ py_len (get_default state "functions" (VList []))
           = Some function_count
        /\ after
           = <["complexity_report" :=
                 VDict [("estimated_complexity", VInt complexity);
                        ("function_count", VInt function_count)]]> state
        /\ 0 <= function_count <= complexity
        /\ complexity
           <= function_count + 3 * Z.of_nat (length (splitlines code))
  | NodeRaises after e =>
      after = state
      /\ ((py_len (get_default state "functions" (VList [])) = None
           /\ e = "TypeError")
          \/ (is_Some (py_len (get_default state "functions" (VList [])))
              /\ (forall code,
                    get_default state "code" (VStr "") ≠ VStr code)
              /\ e = "AttributeError"))
  | NodeReturnsNew _ _ => False
  end.
Proof.
  unfold check_complexity.
  destruct (py_len (get_default state "functions" (VList [])))
    as [n|] eqn:Hn; [|by split; [|left]].
  pose proof (py_len_nonneg _ _ Hn) as Hn0.
  destruct (get_default state "code" (VStr "")) as [| | | |code| |] eqn:Hc;
    try (split; [done|]; right; split_and!; [by eexists|done|done]).
  pose proof (complexity_fold_bounds (splitlines code) n) as Hb.
  eexists code, n, _. split_and!; try done; lia.
Qed.

Lemma line_issues_length `{Builtins} i line :
  (length (line_issues i line) <= 3)%nat
  /\ (line_issues i line = []
      <-> (100 <? Z.of_nat (length (str_chars line))) = false
          /\ str_in "TODO" line = false /\ str_in "temp" line = false).
Proof.
  unfold line_issues.
  destruct (100 <? Z.of_nat (length (str_chars line)));
    destruct (str_in "TODO" line); destruct (str_in "temp" line); simpl;
    (split; [lia|]); split; try done; intros (? & ? & ?); done.
Qed.

Lemma issues_from_spec `{Builtins} lines :
  forall i,
    (length (issues_from i lines) <= 3 * length lines)%nat
    /\ (issues_from i lines = []
        <-> Forall (fun line =>
                      (100 <? Z.of_nat (length (str_chars line))) = false
                      /\ str_in "TODO" line = false
                      /\ str_in "temp" line = false) lines).
Proof.
  induction lines as [|line lines IH]; intros i; simpl.
  - split; [lia|]. split; [constructor|done].
  - destruct (line_issues_length i line) as [Hlen Hnil].
    destruct (IH (i + 1)) as [Hlen' Hnil'].
    rewrite length_app. split; [lia|]. split.
    + intros [H1 H2]%app_eq_nil. constructor; [by apply Hnil|by apply Hnil'].
    + intros Hall. inversion Hall as [|? ? Hline Hrest]; subst.
      rewrite (proj2 Hnil Hline), (proj2 Hnil' Hrest). done.
Qed.

(** X25. [detect_issues] raises, AttributeError and with the state
    untouched, exactly when [code] is bound to something that is not a
    string. Otherwise it returns the state it was given with only [issues]
    rebound, to a list of at most three messages per line of the code, which
    is empty exactly when no line has more than 100 characters or contains
    [TODO] or [temp]. *)
Theorem X25_detect_issues_reports_per_line `{Builtins} state :
  match detect_issues state with
  | NodeReturnsSame after =>
      exists code issues,
        get_default state "code" (VStr "") = VStr code
        /\ after = <["issues" := VList (map VStr issues)]> state
        /\ (length issues <= 3 * length (splitlines code))%nat
        /\ (issues = []
            <-> Forall (fun line =>
                          (100 <? Z.of_nat (length (str_chars line))) = false
                          /\ str_in "TODO" line = false
                          /\ str_in "temp" line = false) (splitlines code))
  | NodeRaises after e =>
      after = state /\ e = "AttributeError"
      /\ forall code, get_default state "code" (VStr "") ≠ VStr code
  | NodeReturnsNew _ _ => False
  end.
Proof.
  unfold detect_issues.
  destruct (get_default state "code" (VStr "")) as [| | | |code| |] eqn:Hc;
    try done.
  destruct (issues_from_spec (splitlines code) 1) as [Hlen Hnil].
  exists code, (issues_from 1 (splitlines code)). done.
Qed.

(** The first pass through the loop, case by case in the order of the
    statements of the body: what the node does with the state decides how the
    run goes on. *)
Lemma loop_run_first graph run_id known name step content calls ending
    (node : NodeCallable) :
  loop_run graph run_id known (VStr name) step content calls ending ->
  step < max_steps graph ->
  nodes graph !! name = Some node ->
  exists rest,
    calls = (name, content) :: rest
    /\ match node content with
       | NodeRaises _ e => rest = [] /\ ending = Failed (NodeFailure e)
       | NodeReturnsSame content' | NodeReturnsNew _ content' =>
           match _summarise_state content' with
           | inl e => rest = [] /\ ending = Failed e
           | inr _ =>
               match run_id, known with
               | Some r, false =>
                   rest = [] /\ ending = Failed (run_not_found r)
               | _, _ =>
                   if truthy (get content' "_finished") then
                     rest = [] /\ ending = Finished (step + 1) content'
                   else
                     loop_run graph run_id known
                       (next_node graph name (get content' "_next_node"))
                       (step + 1) (delete "_next_node" content') rest ending
               end
           end
       end.
Proof.
  intros Hrun Hlt Hnode.
  inversion Hrun as
    [cur n d Hc
    |cur n d e0 Hc Hget
    |name0 node0 n d after0 e0 Hlt0 Hnode0 Hraise0
    |name0 node0 n d d' e0 Hlt0 Hnode0 Hret0 Hsum0
    |name0 node0 n d d' s0 r0 Hlt0 Hnode0 Hret0 Hsum0 Hrun0 Hk0
    |name0 node0 n d d' s0 Hlt0 Hnode0 Hret0 Hsum0 Hk0 Hfin0
    |name0 node0 n d d' s0 calls0 ending0 Hlt0 Hnode0 Hret0 Hsum0 Hk0 Hfin0
       Hrest]; subst;
    try (pose proof (eq_trans (eq_sym Hnode0) Hnode) as Heq;
         injection Heq as ->).
  - simpl in Hc. apply Z.ltb_ge in Hc. lia.
  - cbn in Hget. rewrite Hnode in Hget. discriminate Hget.
  - eexists. split; [reflexivity|]. by rewrite Hraise0.
  - eexists. split; [reflexivity|].
    destruct (node content) as [after e|d1|after d1]; simpl in Hret0;
      simplify_eq; by rewrite Hsum0.
  - eexists. split; [reflexivity|].
    destruct (node content) as [after e|d1|after d1]; simpl in Hret0;
      simplify_eq; by rewrite Hsum0.
  - eexists. split; [reflexivity|].
    destruct (node content) as [after e|d1|after d1]; simpl in Hret0;
      simplify_eq; rewrite Hsum0, Hfin0;
      by destruct Hk0 as [->| ->]; [|destruct run_id].
  - eexists. split; [reflexivity|].
    destruct (node content) as [after e|d1|after d1]; simpl in Hret0;
      simplify_eq; rewrite Hsum0, Hfin0;
      by destruct Hk0 as [->| ->]; [|destruct run_id].
Qed.

Lemma run_graph_log_describes graph initial_state run_id w st lg w' calls :
  run_graph graph initial_state run_id w = (Returned (st, lg), w') ->
  invoked w' = (invoked w ++ calls)%list ->
  Forall2 (entry_describes graph) lg calls.
Proof.
  intros Hrun Hinv.
  destruct (run_graph_frame_unfold graph initial_state run_id w)
    as (w1 & _ & _ & _ & Hinv1 & Hunf).
  unfold run_graph in Hrun. unfold mbind at 1, M_bind at 1 in Hrun.
  rewrite Hunf in Hrun. unfold mbind, M_bind in Hrun.
  match type of Hrun with
  | context [while_loop ?n graph run_id ?f0 w1] =>
      destruct (while_loop n graph run_id f0 w1) as [[f| |] w2] eqn:Hw;
      try discriminate Hrun;
      pose proof (while_loop_log_describes graph run_id n (invoked w)
                    f0 w1 f w2) as Hloop
  end.
  destruct Hloop as (calls' & Hinv2 & Hall); [|done|].
  { exists []. split; [by rewrite app_nil_r|constructor]. }
  destruct (persist run_id (state f) (log f) (status f) w2)
    as [[[]| |] w3] eqn:Hp; try discriminate Hrun.
  apply persist_returned in Hp as [_ Hi].
  unfold mret, M_ret in Hrun. injection Hrun as <- <- <-.
  rewrite Hi, Hinv2 in Hinv. apply app_inv_head in Hinv as <-. exact Hall.
Qed.

(** C10. A truthy [_finished] already present in the initial state does not
    stop [run_graph] before the first step: for a graph with
    [max_steps >= 1] whose start node is one of its nodes, the start node is
    still called, first, on the working copy in which the flag is set, since
    the flag is only looked at after a node has run; so the log of a run
    that returns has at least one entry. The call is the application of the
    node to that copy and decides how the run goes on: if the node raises,
    its exception leaves [run_graph]; if deriving the summary of the state it
    returns fails, AttributeError does; the first log entry of a run that
    returns carries the summary of the state the node returned; and if that
    state still has a truthy [_finished], no other node is called and a run
    that returns gives back that state with a log of exactly one entry. *)
Theorem C10_finished_initial_state_still_runs_start_node
    graph initial_state run_id w node o w' :
  1 <= max_steps graph ->
  nodes graph !! start_node_id graph = Some node ->
  truthy (get (heap w !!! initial_state) "_finished") = true ->
  run_graph graph initial_state run_id w = (o, w') ->
  exists calls,
    invoked w'
    = (invoked w
       ++ (start_node_id graph, seeded (heap w !!! initial_state)) :: calls)%list
    /\ truthy (get (seeded (heap w !!! initial_state)) "_finished") = true
    /\ (forall st lg, o = Returned (st, lg) -> (1 <= length lg)%nat)
    /\ (forall after e,
          node (seeded (heap w !!! initial_state)) = NodeRaises after e ->
          o = Raised (NodeFailure e) /\ calls = [])
    /\ (forall content',
          returned_content (node (seeded (heap w !!! initial_state)))
          = Some content' ->
          (report_is_mapping content' = false ->
             o = Raised AttributeError /\ calls = [])
          /\ (forall st lg, o = Returned (st, lg) ->
                exists entry,
                  head lg = Some entry
                  /\ Models.step entry = 1
                  /\ node_id entry = start_node_id graph
                  /\ _summarise_state content' = inr (summary entry))
          /\ (truthy (get content' "_finished") = true ->
                calls = []
                /\ forall st lg, o = Returned (st, lg) ->
                     heap w' !!! st = content' /\ length lg = 1%nat)).
Proof.
  intros Hmax Hnode Hfin Hrun.
  destruct (run_graph_frame_sound graph initial_state run_id w)
    as (fo & w'' & calls & ending & Hfr & Hinv & Hloop & Hobs & _).
  pose proof (run_graph_of_frame _ _ _ _ _ _ Hfr) as Hrun'.
  rewrite Hrun in Hrun'. injection Hrun' as Ho <-.
  destruct (loop_run_first _ _ _ _ _ _ _ _ node Hloop ltac:(lia) Hnode)
    as (rest & -> & Hfirst).
  assert (forall e,
            final_ending run_id (run_known run_id (RUNS w)) (Failed e)
            = Failed e) as Hfailed by by intros e; destruct run_id.
  exists rest. split_and!; [done|by rewrite seeded_get_finished| | |].
  - intros st lg ->.
    destruct (run_graph_log _ _ _ _ _ _ _ Hrun) as (calls' & Hinv'' & Hlen & _).
    rewrite Hinv in Hinv''. apply app_inv_head in Hinv'' as <-.
    rewrite Hlen. simpl. lia.
  - intros after e Hraise. rewrite Hraise in Hfirst.
    destruct Hfirst as [-> ->]. rewrite Hfailed in Hobs. simpl in Hobs.
    by subst.
  - intros content' Hret.
    assert (match _summarise_state content' with
            | inl e => rest = [] /\ ending = Failed e
            | inr _ =>
                match run_id, run_known run_id (RUNS w) with
                | Some r, false =>
                    rest = [] /\ ending = Failed (run_not_found r)
                | _, _ =>
                    if truthy (get content' "_finished") then
                      rest = [] /\ ending = Finished (0 + 1) content'
                    else
                      loop_run graph run_id (run_known run_id (RUNS w))
                        (next_node graph (start_node_id graph)
                           (get content' "_next_node"))
                        (0 + 1) (delete "_next_node" content') rest ending
                end
            end) as Hcase.
    { destruct (node (seeded (heap w !!! initial_state)))
        as [after e|d1|after d1]; simpl in Hret; by simplify_eq. }
    clear Hfirst. split_and!.
    + intros Hrep. rewrite (summarise_fails _ Hrep) in Hcase.
      destruct Hcase as [-> ->]. rewrite Hfailed in Hobs. simpl in Hobs.
      by subst.
    + intros st lg ->.
      pose proof (run_graph_log_describes _ _ _ _ _ _ _ _ Hrun Hinv) as Hall.
      destruct (run_graph_log _ _ _ _ _ _ _ Hrun)
        as (calls' & Hinv'' & _ & Hsteps & _).
      rewrite Hinv in Hinv''. apply app_inv_head in Hinv'' as <-.
      inversion Hall as [|entry call lg' calls' Hentry Hrest]; subst.
      destruct Hentry as (node0 & d0 & Hnode0 & Hret0 & Hsum0 & Hid0).
      simpl in Hnode0, Hret0, Hid0.
      pose proof (eq_trans (eq_sym Hnode0) Hnode) as Heq.
      injection Heq as ->.
      rewrite Hret in Hret0. injection Hret0 as <-.
      exists entry. split_and!; try done.
      simpl in Hsteps. rewrite seqZ_cons in Hsteps by lia.
      by injection Hsteps as -> _.
    + intros Hfin'.
      assert (rest = []
              /\ forall f, fo = Returned f ->
                   heap w' !!! state f = content') as [-> Hstate].
      { destruct (_summarise_state content') as [e|summary].
        - destruct Hcase as [-> ->]. rewrite Hfailed in Hobs. simpl in Hobs.
          split; [done|]. intros f ->. discriminate Hobs.
        - rewrite Hfin' in Hcase.
          destruct run_id as [r|], (run_known _ (RUNS w)) eqn:Hk;
            destruct Hcase as [-> ->]; simpl in Hobs;
            (split; [done|]); intros f ->;
            try discriminate Hobs;
            by destruct Hobs as (f' & [= <-] & _ & Hd & _). }
      split; [done|]. intros st lg ->.
      destruct fo as [f| |]; try discriminate Ho. injection Ho as -> ->.
      split; [by apply Hstate|].
      destruct (run_graph_log _ _ _ _ _ _ _ Hrun) as (calls' & Hinv'' & Hlen & _).
      rewrite Hinv in Hinv''. apply app_inv_head in Hinv'' as <-.
      by rewrite Hlen.
Qed.

End WithClocks.

(** *** The scenarios, run *)

(** C3. The run of a node that returns a state with a truthy [_finished]
    and a [complexity_report] that is not a mapping: the node is called, no
    other node is, but deriving the summary raises AttributeError before the
    flag is looked at, so [run_graph] raises and the stored status of the run
    is still [created], not [completed]. *)
Theorem C3_finished_run_not_completed_when_summary_raises :
  exists w' run,
    run_graph demo_str demo_elapsed demo_utcnow finish_graph 1%positive (Some "run_1")
      (world_with_run {["complexity_report" := VInt 5]})
    = (Raised AttributeError, w')
    /\ (invoked w').*1 = ["a"]
    /\ returned_content
         (set_key "_finished" (VBool true)
            (seeded {["complexity_report" := VInt 5]}))
       = Some (<["_finished" := VBool true]>
                 (seeded {["complexity_report" := VInt 5]}))
    /\ truthy (get (<["_finished" := VBool true]>
                      (seeded {["complexity_report" := VInt 5]}))
                   "_finished") = true
    /\ RUNS w' !! "run_1" = Some run
    /\ Store.status run = created
    /\ Store.status run ≠ completed.
Proof.
  destruct (run_graph demo_str demo_elapsed demo_utcnow finish_graph
              1%positive (Some "run_1")
              (world_with_run {["complexity_report" := VInt 5]}))
    as [o w'] eqn:Hrun.
  vm_compute in Hrun. injection Hrun as <- <-.
  eexists _, _. split_and!; try reflexivity. discriminate.
Qed.

(** C7 (the code falls short of it). The caller's mapping is not left as it
    was. [dict(initial_state)] copies the bindings, not the objects they
    refer to, so the list bound to [score_history] in the caller's mapping
    is the very list bound in the working copy, and [evaluate_quality]
    appends to it in place. For the caller's mapping
    [{"score_history": [1]}] and the graph whose only node is
    [evaluate_quality], [run_graph] returns a new mapping, in which
    [iteration] is seeded to 0 and the score is 100; the caller's mapping
    still binds its one key, to the same list object, and has no
    [iteration]; but that list has become [[1, 100]], so the caller's
    mapping, which read [{"score_history": [1]}] before the call, reads
    [{"score_history": [1, 100]}] after it. *)
Theorem C7_caller_list_grows_through_shallow_copy :
  exists st lg w',
    Objects.run_graph Objects.demo_str demo_elapsed demo_utcnow
      Objects.evaluate_graph 1%positive None Objects.caller_world
    = (Objects.Returned (st, lg), w')
    /\ st ≠ 1%positive
    /\ Objects.dicts (Objects.heap w') !! st
       = Some (<["iteration" := Objects.PInt 0]>
                 (<["quality_score" := Objects.PInt 100]>
                    Objects.caller_state))
    /\ Objects.dicts (Objects.heap w') !! 1%positive
       = Objects.dicts (Objects.heap Objects.caller_world) !! 1%positive
    /\ Objects.lists (Objects.heap Objects.caller_world) !! 1%positive
       = Some [Objects.PInt 1]
    /\ Objects.lists (Objects.heap w') !! 1%positive
       = Some [Objects.PInt 1; Objects.PInt 100]
    /\ Objects.snapshot 2 (Objects.heap Objects.caller_world)
         (Objects.PDictRef 1%positive)
       = VDict [("score_history", VList [VInt 1])]
    /\ Objects.snapshot 2 (Objects.heap w') (Objects.PDictRef 1%positive)
       = VDict [("score_history", VList [VInt 1; VInt 100])]
    /\ Objects.snapshot 2 (Objects.heap w') (Objects.PDictRef 1%positive)
       ≠ Objects.snapshot 2 (Objects.heap Objects.caller_world)
           (Objects.PDictRef 1%positive).
Proof.
  destruct (Objects.run_graph Objects.demo_str demo_elapsed demo_utcnow
              Objects.evaluate_graph 1%positive None Objects.caller_world)
    as [o w'] eqn:Hrun.
  vm_compute in Hrun. injection Hrun as <- <-.
  eexists _, _, _.
  split_and!; try (vm_compute; reflexivity); vm_compute; discriminate.
Qed.


(** C4, as stated, fails: no node of [quiet_graph] puts anything into the
    state (each returns it untouched), yet with [_next_node = "b"] already in
    the initial state the node called after [a] is [b], not [c], the
    successor of [a] in the edge table. *)
Lemma C4_counterexample :
  exists fo w',
    run_graph_frame demo_str demo_elapsed demo_utcnow quiet_graph 1%positive None
      (world_of {["_next_node" := VStr "b"]})
    = (fo, w')
    /\ (invoked w').*1 = ["a"; "b"]
    /\ (forall name node content,
          nodes quiet_graph !! name = Some node ->
          node content = NodeReturnsSame content)
    /\ edges_get quiet_graph "a" = VStr "c".
Proof.
  destruct (run_graph_frame demo_str demo_elapsed demo_utcnow
              quiet_graph 1%positive None
              (world_of {["_next_node" := VStr "b"]}))
    as [o w'] eqn:Hrun.
  vm_compute in Hrun. injection Hrun as <- <-.
  eexists _, _. split_and!; try reflexivity.
  intros name node content Hnode. simpl in Hnode.
  repeat (apply lookup_insert_Some in Hnode as [[_ <-]|[_ Hnode]]; [done|]).
  by apply lookup_singleton_Some in Hnode as [_ <-].
Qed.

(** C5, as stated, fails: on the initial state [{"_finished": True}]
    scenario B stops after one step with status [completed]. *)
Lemma C5_counterexample :
  exists f w',
    run_graph_frame demo_str demo_elapsed demo_utcnow loop_graph 1%positive None
      (world_of {["_finished" := VBool true]})
    = (Returned f, w')
    /\ length (log f) = 1%nat
    /\ status f = completed.
Proof.
  destruct (run_graph_frame demo_str demo_elapsed demo_utcnow
              loop_graph 1%positive None
              (world_of {["_finished" := VBool true]}))
    as [o w'] eqn:Hrun.
  vm_compute in Hrun. injection Hrun as <- <-.
  eexists _, _. split_and!; reflexivity.
Qed.

(** Scenario A: [a] adds [x = 1], [b] sets [_finished]; from the empty
    state the run calls [a] then [b], logs two entries, keeps [x = 1] in the
    final state and ends with status [completed]. *)
Lemma scenario_a_completes :
  exists f w',
    run_graph_frame demo_str demo_elapsed demo_utcnow scenario_a_graph
      1%positive None (world_of ∅)
    = (Returned f, w')
    /\ map node_id (log f) = ["a"; "b"]
    /\ (heap w' !!! state f) !! "x" = Some (VInt 1)
    /\ status f = completed
    /\ heap w' !! 1%positive = Some ∅.
Proof.
  destruct (run_graph_frame demo_str demo_elapsed demo_utcnow
              scenario_a_graph 1%positive None (world_of ∅))
    as [o w'] eqn:Hrun.
  vm_compute in Hrun. injection Hrun as <- <-.
  eexists _, _. split_and!; reflexivity.
Qed.

(** *** The theorems above, applied to the scenarios *)

Lemma C6_witness :
  exists st lg w',
    run_graph demo_str demo_elapsed demo_utcnow scenario_a_graph
      1%positive None (world_of ∅) = (Returned (st, lg), w')
    /\ map Models.step lg = [1; 2]
    /\ map node_id lg = ["a"; "b"].
Proof.
  destruct (run_graph demo_str demo_elapsed demo_utcnow scenario_a_graph
              1%positive None (world_of ∅)) as [o w'] eqn:Hrun.
  assert (Hrun' := Hrun). vm_compute in Hrun'.
  injection Hrun' as Ho Hw. subst o w'.
  eexists _, _, _. split; [reflexivity|].
  destruct (C6_log_numbers_steps_and_names_nodes
              demo_str demo_elapsed demo_utcnow scenario_a_graph
              1%positive None (world_of ∅) _ _ _ Hrun)
    as (calls & Hinv & Hlen & Hsteps & Hids).
  simpl in Hinv. subst calls. split; [exact Hsteps|exact Hids].
Defined.

Lemma initial_state_bindings_kept_example :
  exists o w',
    run_graph demo_str demo_elapsed demo_utcnow scenario_a_graph
      1%positive None (world_of {["code" := VStr "pass"]}) = (o, w')
    /\ heap w' !! 1%positive = Some {["code" := VStr "pass"]}.
Proof.
  destruct (run_graph demo_str demo_elapsed demo_utcnow scenario_a_graph
              1%positive None (world_of {["code" := VStr "pass"]}))
    as [o w'] eqn:Hrun.
  exists o, w'. split; [reflexivity|].
  destruct (initial_state_bindings_kept_and_copy_seeded
              demo_str demo_elapsed demo_utcnow scenario_a_graph
              1%positive None (world_of {["code" := VStr "pass"]}) o w' Hrun)
    as (Hsame & _).
  rewrite Hsame; [reflexivity|].
  apply elem_of_dom. eexists. reflexivity.
Defined.

Lemma C8_witness :
  exists o w' run,
    run_graph demo_str demo_elapsed demo_utcnow failing_graph
      1%positive (Some "run_1") (world_with_run ∅) = (o, w')
    /\ o = Raised (NodeFailure "boom")
    /\ RUNS w' !! "run_1" = Some run
    /\ Store.status run = running.
Proof.
  destruct (run_graph demo_str demo_elapsed demo_utcnow failing_graph
              1%positive (Some "run_1") (world_with_run ∅))
    as [o w'] eqn:Hrun.
  pose proof (C8_node_failure_propagates_status_not_success
                demo_str demo_elapsed demo_utcnow failing_graph
                1%positive "run_1" (world_with_run ∅)
                {| Store.id := "run_1"; graph_id := "g";
                   Store.state := 1%positive; Store.log := [];
                   Store.status := created;
                   created_at := "t"; updated_at := "t" |}
                o w'
                [("a", seeded ∅); ("b", seeded ∅)]
                "b" (seeded ∅) failing_node (seeded ∅) "boom") as H.
  assert (Hrun' := Hrun). vm_compute in Hrun'.
  injection Hrun' as Ho Hw. subst o w'.
  destruct H as (Ho & _ & run & Hr & [[Hlen _]|[_ Hs]] & _).
  - reflexivity.
  - reflexivity.
  - exact Hrun.
  - reflexivity.
  - right. left.
  - reflexivity.
  - reflexivity.
  - discriminate Hlen.
  - eexists _, _, run. split_and!; [reflexivity|exact Ho|exact Hr|exact Hs].
Defined.

Lemma C9_witness :
  exists run_id R' run,
    create_run "t" ∅ "g" 1%positive = (run_id, R')
    /\ run_id = "run_1"
    /\ R' !! run_id = Some run
    /\ Store.status run = created
    /\ Store.log run = []
    /\ updated_at run = created_at run.
Proof.
  destruct (C9_create_run_inserts_created_record_with_new_id
              demo_str demo_elapsed demo_utcnow
              "t" ∅ [] "g" 1%positive "run_1"
              (create_run "t" ∅ "g" 1%positive).2)
    as ((run & Hr & _ & _ & _ & Hlog & Hstatus & _ & Hat) & _).
  - constructor.
  - reflexivity.
  - eexists _, _, run. split_and!; [reflexivity|reflexivity|exact Hr|done..].
Defined.

Lemma C10_witness :
  exists o w',
    run_graph demo_str demo_elapsed demo_utcnow loop_graph
      1%positive None (world_of {["_finished" := VBool true]}) = (o, w')
    /\ head (invoked w')
       = Some ("loop", seeded {["_finished" := VBool true]})
    /\ forall st lg, o = Returned (st, lg) ->
         heap w' !!! st
         = <["_next_node" := VStr "loop"]>
             (seeded {["_finished" := VBool true]})
         /\ length lg = 1%nat.
Proof.
  destruct (run_graph demo_str demo_elapsed demo_utcnow loop_graph
              1%positive None (world_of {["_finished" := VBool true]}))
    as [o w'] eqn:Hrun.
  exists o, w'. split; [reflexivity|].
  destruct (C10_finished_initial_state_still_runs_start_node
              demo_str demo_elapsed demo_utcnow loop_graph
              1%positive None (world_of {["_finished" := VBool true]})
              loop_node o w')
    as (calls & Hinv & _ & _ & _ & Hnode).
  - simpl. lia.
  - reflexivity.
  - reflexivity.
  - exact Hrun.
  - split; [rewrite Hinv; reflexivity|].
    destruct (Hnode (<["_next_node" := VStr "loop"]>
                       (seeded {["_finished" := VBool true]})))
      as (_ & _ & Hlast).
    + reflexivity.
    + destruct Hlast as [_ Hret]; [reflexivity|exact Hret].
Defined.


Lemma C4_witness :
  exists fo w',
    run_graph_frame demo_str demo_elapsed demo_utcnow quiet_graph
      1%positive None (world_of ∅) = (fo, w')
    /\ (invoked w').*1 = ["a"; "c"]
    /\ invoked w' !! 1%nat = Some ("c", delete "_next_node" (seeded ∅))
    /\ forall f, fo = Returned f -> status f = completed.
Proof.
  destruct (run_graph_frame demo_str demo_elapsed demo_utcnow quiet_graph
              1%positive None (world_of ∅)) as [fo w'] eqn:Hrun.
  pose proof (C4_static_edges_followed_until_exhausted
                demo_str demo_elapsed demo_utcnow quiet_graph
                1%positive None (world_of ∅) fo w' (invoked w') Hrun) as H.
  assert (Hrun' := Hrun). vm_compute in Hrun'.
  injection Hrun' as Ho Hw. subst fo w'.
  eexists _, _. split; [reflexivity|]. split; [reflexivity|].
  destruct H as (_ & _ & Hlast & Hedge).
  - reflexivity.
  - intros name arg node content' Hin Hnode Hret.
    assert (node = identity_node) as ->.
    { simpl in Hnode.
      repeat (apply lookup_insert_Some in Hnode as [[_ <-]|[_ Hnode]]; [done|]).
      by apply lookup_singleton_Some in Hnode as [_ <-]. }
    simpl in Hret. injection Hret as <-.
    apply elem_of_cons in Hin as [[= -> ->]|Hin];
      [split; reflexivity|].
    apply list_elem_of_singleton in Hin as [= -> ->].
    split; reflexivity.
  - split.
    + destruct (Hedge 0%nat "a" (seeded ∅) identity_node (seeded ∅) "c")
        as (_ & Hnext & _).
      * reflexivity.
      * reflexivity.
      * reflexivity.
      * reflexivity.
      * apply Hnext.
        -- simpl. lia.
        -- eexists. reflexivity.
        -- reflexivity.
        -- reflexivity.
    + intros f Hf. destruct (Hlast 1%nat "c" (seeded ∅)) as (_ & Hdone).
      * reflexivity.
      * reflexivity.
      * by destruct (Hdone f Hf).
Defined.

Lemma C5_witness :
  exists f w',
    run_graph_frame demo_str demo_elapsed demo_utcnow loop_graph
      1%positive None (world_of ∅) = (Returned f, w')
    /\ length (log f) = 3%nat
    /\ status f = max_steps_reached.
Proof.
  destruct (C5_max_steps_reached_when_budget_exhausted
              demo_str demo_elapsed demo_utcnow 1%positive None (world_of ∅))
    as ((f & w' & Hrun & _ & Hlen & _ & _ & _ & Hs & _) & _).
  - reflexivity.
  - reflexivity.
  - reflexivity.
  - exists f, w'. split_and!; [exact Hrun|exact Hlen|exact Hs].
Defined.

(** *** The further properties, applied to the scenarios *)

Lemma X2_witness :
  NoDup [(create_run "t" ∅ "g" 1%positive).1]
  /\ forall k r, (create_run "t" ∅ "g" 1%positive).2 !! k = Some r ->
       Store.id r = k.
Proof.
  destruct (X2_reachable_store_invariant
              (create_run "t" ∅ "g" 1%positive).2
              [(create_run "t" ∅ "g" 1%positive).1])
    as (Hnd & _ & _ & Hid & _).
  - apply (reach_create "t" ∅ [] "g" 1%positive). constructor.
  - split; [exact Hnd|exact Hid].
Defined.

Lemma X6_witness :
  _summarise_state demo_str {["iteration" := VInt 0]} = inr "iteration=0"
  /\ "iteration=0" ≠ "".
Proof.
  split; [reflexivity|].
  destruct (X6_summary_never_empty_placeholder_when_nothing_known
              demo_str {["iteration" := VInt 0]} "iteration=0") as (H & _).
  - reflexivity.
  - exact H.
Defined.

Lemma X7_witness :
  _summarise_state demo_str {["code" := VStr "pass"]}
  = _summarise_state demo_str ∅.
Proof.
  apply (X7_summary_depends_on_four_keys demo_str
           {["code" := VStr "pass"]} ∅); reflexivity.
Defined.

Lemma X8_witness :
  exists f w',
    run_graph_frame demo_str demo_elapsed demo_utcnow zero_budget_graph
      1%positive None (world_of ∅) = (Returned f, w')
    /\ log f = []
    /\ status f = max_steps_reached.
Proof.
  destruct (X8_no_budget_no_node_called
              demo_str demo_elapsed demo_utcnow zero_budget_graph
              1%positive None (world_of ∅))
    as (f & w' & Hrun & _ & Hlog & _ & _ & Hs & _).
  - simpl. lia.
  - reflexivity.
  - exists f, w'. split_and!; [exact Hrun|exact Hlog|exact Hs].
Defined.

Lemma X9_witness :
  exists fo w',
    run_graph_frame demo_str demo_elapsed demo_utcnow dangling_graph
      1%positive None (world_of ∅) = (fo, w')
    /\ fo = Raised (KeyError (VStr "ghost")).
Proof.
  destruct (run_graph_frame demo_str demo_elapsed demo_utcnow dangling_graph
              1%positive None (world_of ∅)) as [fo w'] eqn:Hrun.
  pose proof (X9_unknown_next_node_raises
                demo_str demo_elapsed demo_utcnow dangling_graph
                1%positive None (world_of ∅) fo w'
                [("a", seeded ∅)] "a" (seeded ∅) identity_node (seeded ∅)
                (VStr "ghost") Hrun) as H.
  assert (Hrun' := Hrun). vm_compute in Hrun'.
  injection Hrun' as Ho Hw. subst fo w'.
  eexists _, _. split; [reflexivity|].
  apply H.
  - reflexivity.
  - reflexivity.
  - reflexivity.
  - reflexivity.
  - reflexivity.
  - reflexivity.
  - simpl. lia.
  - reflexivity.
  - reflexivity.
  - intros s [= <-]. reflexivity.
Defined.

Lemma X10_witness :
  exists fo w',
    run_graph_frame demo_str demo_elapsed demo_utcnow scenario_a_graph
      1%positive (Some "run_1") (world_with_run ∅) = (fo, w')
    /\ dom (RUNS w') = dom (RUNS (world_with_run ∅)).
Proof.
  destruct (run_graph_frame demo_str demo_elapsed demo_utcnow scenario_a_graph
              1%positive (Some "run_1") (world_with_run ∅))
    as [fo w'] eqn:Hrun.
  exists fo, w'. split; [reflexivity|].
  destruct (X10_run_graph_touches_only_its_run
              demo_str demo_elapsed demo_utcnow scenario_a_graph
              1%positive (Some "run_1") (world_with_run ∅) fo w' Hrun)
    as (_ & _ & Hdom).
  exact Hdom.
Defined.

Lemma X11_witness :
  exists w' run,
    run_graph_frame demo_str demo_elapsed demo_utcnow failing_graph
      1%positive (Some "run_1") (world_with_run ∅)
    = (Raised (NodeFailure "boom"), w')
    /\ RUNS w' !! "run_1" = Some run
    /\ Store.status run ≠ completed.
Proof.
  destruct (run_graph_frame demo_str demo_elapsed demo_utcnow failing_graph
              1%positive (Some "run_1") (world_with_run ∅))
    as [fo w'] eqn:Hrun.
  assert (Hrun' := Hrun). vm_compute in Hrun'.
  injection Hrun' as Ho Hw. subst fo.
  destruct (X11_exception_never_stores_terminal_status
              demo_str demo_elapsed demo_utcnow failing_graph
              1%positive "run_1" (world_with_run ∅)
              {| Store.id := "run_1"; graph_id := "g";
                 Store.state := 1%positive; Store.log := [];
                 Store.status := created;
                 created_at := "t"; updated_at := "t" |}
              w' (NodeFailure "boom"))
    as (run & Hr & _ & Hc & _).
  - reflexivity.
  - exact Hrun.
  - exists w', run. split_and!; [reflexivity|exact Hr|].
    apply Hc. discriminate.
Defined.

Lemma X12_witness :
  exists fo w',
    run_graph_frame demo_str demo_elapsed demo_utcnow scenario_a_graph
      1%positive (Some "run_9") (world_of ∅) = (fo, w')
    /\ (exists e, fo = Raised e)
    /\ RUNS w' = ∅.
Proof.
  destruct (run_graph_frame demo_str demo_elapsed demo_utcnow scenario_a_graph
              1%positive (Some "run_9") (world_of ∅)) as [fo w'] eqn:Hrun.
  exists fo, w'. split; [reflexivity|].
  destruct (X12_unknown_run_id_raises_after_first_step
              demo_str demo_elapsed demo_utcnow scenario_a_graph
              1%positive "run_9" (world_of ∅) fo w' (invoked w'))
    as (He & HR & _).
  - reflexivity.
  - exact Hrun.
  - reflexivity.
  - split; [exact He|exact HR].
Defined.

Lemma X13_witness :
  exists f w' run,
    run_graph_frame demo_str demo_elapsed demo_utcnow scenario_a_graph
      1%positive (Some "run_1") (world_with_run ∅) = (Returned f, w')
    /\ RUNS w' !! "run_1" = Some run
    /\ Store.state run = state f
    /\ length (Store.log run) = length (invoked w').
Proof.
  destruct (run_graph_frame demo_str demo_elapsed demo_utcnow scenario_a_graph
              1%positive (Some "run_1") (world_with_run ∅))
    as [fo w'] eqn:Hrun.
  assert (exists f, fo = Returned f) as [f ->].
  { assert (Hrun' := Hrun). vm_compute in Hrun'.
    injection Hrun' as Ho Hw. subst fo. eexists. reflexivity. }
  destruct (X13_returned_run_record_and_status
              demo_str demo_elapsed demo_utcnow scenario_a_graph
              1%positive "run_1" (world_with_run ∅) f w' (invoked w')
              {| Store.id := "run_1"; graph_id := "g";
                 Store.state := 1%positive; Store.log := [];
                 Store.status := created;
                 created_at := "t"; updated_at := "t" |})
    as (run & Hr & Hst & _ & Hlen & _).
  - reflexivity.
  - exact Hrun.
  - reflexivity.
  - exists f, w', run. split_and!; [reflexivity|exact Hr|exact Hst|exact Hlen].
Defined.

Lemma X14_witness :
  exists st lg w',
    run_graph demo_str demo_elapsed demo_utcnow scenario_a_graph
      1%positive None (world_of ∅) = (Returned (st, lg), w')
    /\ Forall2 (entry_describes demo_str scenario_a_graph) lg (invoked w').
Proof.
  destruct (run_graph demo_str demo_elapsed demo_utcnow scenario_a_graph
              1%positive None (world_of ∅)) as [o w'] eqn:Hrun.
  assert (exists st lg, o = Returned (st, lg)) as (st & lg & ->).
  { assert (Hrun' := Hrun). vm_compute in Hrun'.
    injection Hrun' as Ho Hw. subst o. eexists _, _. reflexivity. }
  destruct (X14_log_summaries_describe_returned_states
              demo_str demo_elapsed demo_utcnow scenario_a_graph
              1%positive None (world_of ∅) st lg w' (invoked w') Hrun)
    as (Hall & _).
  - reflexivity.
  - exists st, lg, w'. split; [reflexivity|exact Hall].
Defined.

Lemma X16_witness :
  exists o w',
    run_graph_endpoint demo_str demo_elapsed demo_utcnow
      (save_graph ∅ scenario_a_graph) "scenario_a" 1%positive (world_of ∅)
    = (o, w')
    /\ exists run, RUNS w' !! "run_1" = Some run
                   /\ Store.graph_id run = "scenario_a".
Proof.
  destruct (run_graph_endpoint demo_str demo_elapsed demo_utcnow
              (save_graph ∅ scenario_a_graph) "scenario_a" 1%positive
              (world_of ∅)) as [o w'] eqn:Hrun.
  exists o, w'. split; [reflexivity|].
  pose proof (X16_run_graph_endpoint_persists_the_run
                demo_str demo_elapsed demo_utcnow
                (save_graph ∅ scenario_a_graph) "scenario_a" 1%positive
                (world_of ∅) o w' Hrun) as H.
  change (save_graph ∅ scenario_a_graph !! "scenario_a")
    with (Some scenario_a_graph) in H.
  destruct H as (_ & run & Hr & _ & Hg & _).
  exists run. split; [exact Hr|exact Hg].
Defined.

Lemma X17_witness :
  exists score,
    0 <= score <= 100
    /\ (score = 100 <-> 0 <= 5 /\ 1 = 0).
Proof.
  destruct (X17_evaluate_quality_score_is_clamped (H := demo_builtins)
              {["issues" := VList [VStr "Line 1: TODO comment present"]]}
              (VInt 0) 0 1)
    as (score & Hbounds & _ & Hfull & _).
  - reflexivity.
  - reflexivity.
  - reflexivity.
  - exists score. split; [exact Hbounds|exact Hfull].
Defined.

Lemma X18_witness :
  loop_decider (H := demo_builtins) {["quality_score" := VInt 90]}
  = NodeReturnsSame
      (<["_finished" := VBool true]> {["quality_score" := VInt 90]}).
Proof.
  destruct (X18_loop_decider_finishes_or_asks_for_a_pass
              (H := demo_builtins) {["quality_score" := VInt 90]} 90)
    as [Hfinish _].
  - reflexivity.
  - apply Hfinish. unfold QUALITY_THRESHOLD. lia.
Defined.

Lemma X20_witness :
  exists f w',
    run_graph_frame demo_str demo_elapsed demo_utcnow
      (code_review_graph demo_str (H := demo_builtins)) 1%positive None
      (world_of {["code" := VStr "def f(): pass"]}) = (Returned f, w')
    /\ status f = completed
    /\ get (heap w' !!! state f) "_finished" = VBool true.
Proof.
  destruct (X20_default_workflow_completes
              demo_str demo_elapsed demo_utcnow (H := demo_builtins)
              1%positive None (world_of {["code" := VStr "def f(): pass"]})
              "def f(): pass" [] 0)
    as (f & w' & passes & Hrun & _ & _ & _ & Hs & _ & _ & Hfin & _).
  - reflexivity.
  - reflexivity.
  - reflexivity.
  - lia.
  - reflexivity.
  - reflexivity.
  - reflexivity.
  - reflexivity.
  - exists f, w'. split_and!; [exact Hrun|exact Hs|exact Hfin].
Defined.

Lemma X22_witness :
  exists w',
    run_graph_frame demo_str demo_elapsed demo_utcnow
      (code_review_graph demo_str (H := demo_builtins)) 1%positive None
      (world_of {["complexity_report" := VInt 5]})
    = (Raised AttributeError, w')
    /\ RUNS w' = ∅.
Proof.
  destruct (X22_default_workflow_stops_on_unreadable_report
              demo_str demo_elapsed demo_utcnow (H := demo_builtins)
              1%positive None (world_of {["complexity_report" := VInt 5]}) "")
    as (w' & after & after2 & Hrun & _ & HR & _).
  - reflexivity.
  - reflexivity.
  - exists w'. split; [exact Hrun|exact HR].
Defined.

Lemma X23_witness :
  exists f w',
    run_graph_frame demo_str demo_elapsed demo_utcnow
      (code_review_graph demo_str (H := demo_builtins)) 1%positive None
      (world_of {["code" := VStr demo_code; "iteration" := VInt (-6)]})
    = (Returned f, w')
    /\ status f = max_steps_reached
    /\ length (log f) = 50%nat.
Proof.
  destruct (X23_negative_iteration_exhausts_the_budget
              demo_str demo_elapsed demo_utcnow (H := demo_builtins)
              1%positive None
              (world_of {["code" := VStr demo_code; "iteration" := VInt (-6)]})
              demo_code [] (-6))
    as (f & w' & Hrun & Hs & _ & Hlen & _).
  - reflexivity.
  - reflexivity.
  - reflexivity.
  - lia.
  - vm_compute. reflexivity.
  - reflexivity.
  - reflexivity.
  - reflexivity.
  - reflexivity.
  - exists f, w'. split_and!; [exact Hrun|exact Hs|exact Hlen].
Defined.

End Executor.
